(** * build_vocab_deck: reconciliation of a class plan against the chunk library

    A shallow embedding of [build_vocab_deck.js].  The script loads a class
    plan and the global chunk library, creates one Mochi card per chunk that
    the library does not know yet, and writes both documents back.

    Conventions of the embedding:
    - a JavaScript string is a [string] whose characters are its code units
      (the Latin-1 range); [trim] removes the white space of that range;
    - a parsed JSON document is a [value]; a property that is absent reads as
      [None] (JavaScript's [undefined]);
    - objects that the script mutates in place are addressed by their index
      in the array that owns them (the class entries, the library entries);
      the [Map] built by [indexByChunk] holds such indices, so that a write
      through the map is a write to the library array;
    - the Mochi service is a state [World] threaded through the three HTTP
      calls; every call and every file write is appended to a trace;
    - the command line and the environment variables are a [Config]; the
      two files come in as the result of reading them;
    - console output is not modelled, and a file write does not fail. *)

From Stdlib Require Import Ascii String ZArith Lia.
From stdpp Require Import gmap strings list fin_maps sorting.

Set Warnings "-register-all,-clear-no-such-hyp".

Open Scope string_scope.
Open Scope list_scope.

(** ** Strings *)

(** White space and line terminators of ECMAScript among the code units
    0..255: TAB, LF, VT, FF, CR, SP and NBSP. *)
Definition is_white_space (c : ascii) : bool :=
  match N_of_ascii c with
  | 9%N | 10%N | 11%N | 12%N | 13%N | 32%N | 160%N => true
  | _ => false
  end.

Fixpoint trimStart (s : string) : string :=
  match s with
  | EmptyString => EmptyString
  | String c s' => if is_white_space c then trimStart s' else s
  end.

Fixpoint trimEnd (s : string) : string :=
  match s with
  | EmptyString => EmptyString
  | String c s' =>
      match trimEnd s' with
      | EmptyString => if is_white_space c then EmptyString else String c EmptyString
      | t => String c t
      end
  end.

Definition trim (s : string) : string := trimEnd (trimStart s).

(** [Boolean(s)] for a string: the empty string is the only falsy one. *)
Definition truthy_str (s : string) : bool :=
  match s with EmptyString => false | _ => true end.

(** [s.replace(/\s+/g, "_")]: every maximal run of white space becomes one
    underscore. *)
Fixpoint replace_ws (in_run : bool) (s : string) : string :=
  match s with
  | EmptyString => EmptyString
  | String c s' =>
      if is_white_space c
      then (if in_run then replace_ws true s' else String "_" (replace_ws true s'))
      else String c (replace_ws false s')
  end.

(** ** union *)

(** [new Set(iterable)] followed by [Array.from]: the elements in the order
    of their first occurrence. *)
Fixpoint set_from (acc l : list string) : list string :=
  match l with
  | [] => acc
  | x :: l' => set_from (if bool_decide (x ∈ acc) then acc else acc ++ [x]) l'
  end.

Definition union (arrA arrB : list string) : list string :=
  set_from [] (filter (fun x => truthy_str x = true) (arrA ++ arrB)).

(** ** JSON documents *)

Inductive value : Type :=
  | Null
  | Bool (b : bool)
  | Num (n : Z)
  | Str (s : string)
  | Arr (items : list value)
  | Obj (props : list (string * value)).

Inductive error : Type :=
  | LoadError                              (* readFile or JSON.parse threw *)
  | TypeError                              (* property read on null *)
  | NotAnObject                            (* "Class JSON is not an object." *)
  | MissingClass                           (* 'Missing "class" string.' *)
  | MissingEntries                         (* 'Missing "entries" array.' *)
  | ChunkInvalid (i : nat)
  | IdNotString (i : nat)
  | VariantsNotArray (i : nat)
  | ObsNotString (i : nat)
  | MeaningNotString (i : nat)
  | DuplicateChunk (key : string)
  | IdConflict (chunk classId libId : string)
  | ApiError (msg : string)                (* "Mochi API ... -> status: text" *)
  | OutsideSchema.                         (* a document the typed model does not cover *)

Inductive result (A : Type) : Type :=
  | Ok (a : A)
  | Err (e : error).
Arguments Ok {A} a.
Arguments Err {A} e.

Definition bind {A B} (r : result A) (k : A -> result B) : result B :=
  match r with Ok a => k a | Err e => Err e end.

Notation "x <- r ; k" := (bind r (fun x => k))
  (at level 20, r at level 100, k at level 200, only parsing).
(** [if (b) throw e; k] *)
Notation "'throw_if' b 'then' e ; k" := (if b then Err e else k)
  (at level 20, b at level 100, e at level 100, k at level 200, only parsing).

Fixpoint assoc (k : string) (props : list (string * value)) : option value :=
  match props with
  | [] => None
  | (k', v) :: rest => if bool_decide (k = k') then Some v else assoc k rest
  end.

(** [v.k]: reading a property of [null] throws; a primitive or an array has
    none of the properties the script reads as data (an array's [entries] is
    a method, which is neither a string nor an array, like [undefined]). *)
Definition get (v : value) (k : string) : result (option value) :=
  match v with
  | Null => Err TypeError
  | Obj props => Ok (assoc k props)
  | _ => Ok None
  end.

Definition truthy (v : value) : bool :=
  match v with
  | Null => false
  | Bool b => b
  | Num n => negb (n =? 0)%Z
  | Str s => truthy_str s
  | Arr _ | Obj _ => true
  end.

(** [typeof v === "object"] *)
Definition is_object (v : value) : bool :=
  match v with Null | Arr _ | Obj _ => true | _ => false end.

(** [!x || typeof x !== "string"] is false exactly for a non-empty string. *)
Definition nonempty_string (o : option value) : bool :=
  match o with Some (Str s) => truthy_str s | _ => false end.

Definition is_string (o : option value) : bool :=
  match o with Some (Str _) => true | _ => false end.

Definition is_array (o : option value) : bool :=
  match o with Some (Arr _) => true | _ => false end.

(** [x != null && typeof x !== "string"] is false for [undefined], [null]
    and strings. *)
Definition absent_or_string (o : option value) : bool :=
  match o with None | Some Null | Some (Str _) => true | _ => false end.

Definition str_of (o : option value) : string :=
  match o with Some (Str s) => s | _ => "" end.

(** ** Validation *)

Fixpoint validateClassEntries (i : nat) (seen : gset string) (es : list value)
  : result unit :=
  match es with
  | [] => Ok tt
  | e :: rest =>
      c <- get e "chunk" ;
      throw_if negb (nonempty_string c) then ChunkInvalid i ;
      d <- get e "id" ;
      throw_if negb (is_string d) then IdNotString i ;
      vs <- get e "variants" ;
      throw_if negb (is_array vs) then VariantsNotArray i ;
      o <- get e "obs" ;
      throw_if negb (absent_or_string o) then ObsNotString i ;
      m <- get e "meaning" ;
      throw_if negb (absent_or_string m) then MeaningNotString i ;
      let key := trim (str_of c) in
      throw_if bool_decide (key ∈ seen) then DuplicateChunk key ;
      validateClassEntries (S i) ({[ key ]} ∪ seen) rest
  end.

Definition validateClassDoc (doc : value) : result unit :=
  throw_if negb (truthy doc && is_object doc) then NotAnObject ;
  c <- get doc "class" ;
  throw_if negb (nonempty_string c) then MissingClass ;
  es <- get doc "entries" ;
  match es with
  | Some (Arr entries) => validateClassEntries 0 ∅ entries
  | _ => Err MissingEntries
  end.

Definition emptyLibrary : value :=
  Obj [("version", Num 1); ("entries", Arr [])].

Fixpoint validateLibraryEntries (i : nat) (seen : gset string) (es : list value)
  : result unit :=
  match es with
  | [] => Ok tt
  | e :: rest =>
      c <- get e "chunk" ;
      throw_if negb (nonempty_string c) then ChunkInvalid i ;
      d <- get e "id" ;
      throw_if negb (is_string d) then IdNotString i ;
      vs <- get e "variants" ;
      throw_if negb (is_array vs) then VariantsNotArray i ;
      let key := trim (str_of c) in
      throw_if bool_decide (key ∈ seen) then DuplicateChunk key ;
      validateLibraryEntries (S i) ({[ key ]} ∪ seen) rest
  end.

Definition validateLibrary (lib : value) : result value :=
  if negb (truthy lib && is_object lib) then Ok emptyLibrary
  else
    match get lib "entries" with
    | Ok (Some (Arr entries)) =>
        _ <- validateLibraryEntries 0 ∅ entries ; Ok lib
    | Ok _ => Ok emptyLibrary
    | Err e => Err e
    end.

(** [loadJson]: the file contents as the run finds them; a missing file or
    a text that does not parse is [Err LoadError]. *)
Definition file := result value.

(** The [try { lib = validateLibrary(await loadJson(libPath)) }
    catch { lib = emptyLibrary() }] of [main]. *)
Definition load_library (libFile : file) : value :=
  match v <- libFile ; validateLibrary v with
  | Ok lib => lib
  | Err _ => emptyLibrary
  end.

(** ** The documents at the types validation establishes

    [main] reads the validated documents through their properties.  The typed
    model covers the documented schema
    [{ chunk, id, variants, meaning?, obs? }] with string variants and string
    (or absent, or null) meaning and obs; [null] and absent are not told
    apart, as the script never does.  Properties outside the schema are not
    carried. *)

Record Entry : Type := mkEntry {
  chunk : string;
  id : string;
  variants : list string;
  meaning : option string;
  obs : option string;
}.

Record ClassDoc : Type := mkClassDoc {
  doc_class : string;
  doc_entries : list Entry;
}.

Record Library : Type := mkLibrary {
  lib_version : option value;
  lib_entries : list Entry;
}.

Definition as_string (o : option value) : option string :=
  match o with Some (Str s) => Some s | _ => None end.

Definition as_opt_string (o : option value) : option (option string) :=
  match o with
  | None | Some Null => Some None
  | Some (Str s) => Some (Some s)
  | _ => None
  end.

Definition as_strings (o : option value) : option (list string) :=
  match o with
  | Some (Arr items) => mapM (fun v => as_string (Some v)) items
  | _ => None
  end.

Definition entry_of_json (e : value) : option Entry :=
  match e with
  | Obj props =>
      c ← as_string (assoc "chunk" props);
      i ← as_string (assoc "id" props);
      vs ← as_strings (assoc "variants" props);
      m ← as_opt_string (assoc "meaning" props);
      o ← as_opt_string (assoc "obs" props);
      Some (mkEntry c i vs m o)
  | _ => None
  end.

Definition entries_of_json (o : option value) : option (list Entry) :=
  match o with
  | Some (Arr items) => mapM entry_of_json items
  | _ => None
  end.

Definition classDoc_of_json (doc : value) : option ClassDoc :=
  match doc with
  | Obj props =>
      c ← as_string (assoc "class" props);
      es ← entries_of_json (assoc "entries" props);
      Some (mkClassDoc c es)
  | _ => None
  end.

Definition library_of_json (lib : value) : option Library :=
  match lib with
  | Obj props =>
      es ← entries_of_json (assoc "entries" props);
      Some (mkLibrary (assoc "version" props) es)
  | _ => None
  end.

(** What [JSON.stringify] writes, as [JSON.parse] reads it back. *)
Definition json_of_opt (k : string) (o : option string) : list (string * value) :=
  match o with Some s => [(k, Str s)] | None => [] end.

Definition json_of_entry (e : Entry) : value :=
  Obj ([("chunk", Str (chunk e)); ("id", Str (id e));
        ("variants", Arr (Str <$> variants e))]
       ++ json_of_opt "meaning" (meaning e) ++ json_of_opt "obs" (obs e)).

Definition json_of_classDoc (d : ClassDoc) : value :=
  Obj [("class", Str (doc_class d));
       ("entries", Arr (json_of_entry <$> doc_entries d))].

Definition json_of_library (l : Library) : value :=
  Obj (match lib_version l with Some v => [("version", v)] | None => [] end
       ++ [("entries", Arr (json_of_entry <$> lib_entries l))]).

(** ** indexByChunk *)

(** [m.set(e.chunk, e)] for every entry in order: a later entry with the same
    chunk replaces the earlier one.  The stored reference is the entry's
    index. *)
Fixpoint indexByChunk_from (i : nat) (entries : list Entry) (m : gmap string nat)
  : gmap string nat :=
  match entries with
  | [] => m
  | e :: rest => indexByChunk_from (S i) rest (<[chunk e := i]> m)
  end.

Definition indexByChunk (entries : list Entry) : gmap string nat :=
  indexByChunk_from 0 entries ∅.

(** ** Configuration and the outside world *)

Record Config : Type := mkConfig {
  VOCAB_TEMPLATE_ID : string;
  VOCAB_FIELD_TERM_ID : string;
  VOCAB_FIELD_MEANING_ID : string;
  VOCAB_FIELD_OBS_ID : string;          (* "" when unset *)
  MASTER_VOCAB_DECK_ID : string;        (* "" when unset *)
  DRY_RUN : bool;
  classPath : string;
  libPath : string;
}.

Record Deck : Type := mkDeck { deck_id : string; deck_name : string }.

(** The body of [POST /cards]; [fields] maps a field id to its value. *)
Record CardBody : Type := mkCardBody {
  content : string;
  body_deck_id : string;
  body_template_id : string;
  fields : gmap string string;
}.

Inductive event : Type :=
  | GET_decks
  | POST_decks (name : string) (parent : option string)
  | POST_cards (body : CardBody)
  | Saved (path : string) (content : value).

(** The Mochi service: each call answers from the current world and moves it
    on.  An [Err] answer is a response that is not [ok] (the [throw] of
    [mochi]). *)
Record Service (World : Type) : Type := mkService {
  get_decks : World -> result (list Deck) * World;
  post_deck : string -> option string -> World -> result Deck * World;
  post_card : CardBody -> World -> result string * World;
}.
Arguments get_decks {World} _ _.
Arguments post_deck {World} _ _ _ _.
Arguments post_card {World} _ _ _.

Record Env (World : Type) : Type := mkEnv {
  world : World;
  trace : list event;
}.
Arguments mkEnv {World} _ _.
Arguments world {World} _.
Arguments trace {World} _.

Definition log {World} (ev : event) (w : World) (env : Env World) : Env World :=
  mkEnv w (trace env ++ [ev]).

(** [saveJsonAtomic], on the path where both of its calls fulfil: the
    temporary file is renamed over the target, so the only lasting effect is
    the new content of [path].  The event records that the save was asked
    for; what the file system makes of it, and where a rejected save ends the
    run, is [Disk.saveJsonAtomic] and [Disk.replay] below. *)
Definition saveJsonAtomic {World} (path : string) (obj : value) (env : Env World)
  : Env World :=
  log (Saved path obj) (world env) env.

(** ** Sorting the library *)

(** [arr.sort(cmp)] is stable: an element goes before the first one that
    the comparator does not put strictly before it. *)
Section Sort.
Context {A : Type} (cmp : A -> A -> Z).

Fixpoint sort_insert (x : A) (l : list A) : list A :=
  match l with
  | [] => [x]
  | y :: l' => if (cmp x y <=? 0)%Z then x :: l else y :: sort_insert x l'
  end.

Fixpoint sort (l : list A) : list A :=
  match l with
  | [] => []
  | x :: l' => sort_insert x (sort l')
  end.
End Sort.

(** ** The engine *)

Record State (World : Type) : Type := mkState {
  classDoc : ClassDoc;
  lib : Library;
  libMap : gmap string nat;       (* chunk |-> index into [lib_entries lib] *)
  skippedExisting : list string;
  created : nat;
  env : Env World;
}.
Arguments mkState {World} _ _ _ _ _ _.
Arguments classDoc {World} _.
Arguments lib {World} _.
Arguments libMap {World} _.
Arguments skippedExisting {World} _.
Arguments created {World} _.
Arguments env {World} _.

(** The loop body either falls through to the next entry or throws. *)
Inductive step_result (World : Type) : Type :=
  | Continue (st : State World)
  | Throw (e : error) (st : State World).
Arguments Continue {World} st.
Arguments Throw {World} e st.

(** How [main] ends: before the loop ([Fatal], nothing was mutated in
    memory), inside it ([Failed], with the state at the throw), or normally
    ([Done]). *)
Inductive outcome (World : Type) : Type :=
  | Fatal (e : error) (env : Env World)
  | Failed (e : error) (st : State World)
  | Done (st : State World).
Arguments Fatal {World} e env.
Arguments Failed {World} e st.
Arguments Done {World} st.

Definition set_id (e : Entry) (i : string) : Entry :=
  mkEntry (chunk e) i (variants e) (meaning e) (obs e).

Definition set_variants (e : Entry) (vs : list string) : Entry :=
  mkEntry (chunk e) (id e) vs (meaning e) (obs e).

Definition set_meaning (e : Entry) (m : string) : Entry :=
  mkEntry (chunk e) (id e) (variants e) (Some m) (obs e).

Definition set_obs (e : Entry) (o : string) : Entry :=
  mkEntry (chunk e) (id e) (variants e) (meaning e) (Some o).

(** Writing the [i]-th entry of the class document, the [j]-th of the
    library. *)
Definition put_class_entry (i : nat) (e : Entry) (d : ClassDoc) : ClassDoc :=
  mkClassDoc (doc_class d) (<[i := e]> (doc_entries d)).

Definition put_lib_entry (j : nat) (e : Entry) (l : Library) : Library :=
  mkLibrary (lib_version l) (<[j := e]> (lib_entries l)).

Definition push_lib_entry (e : Entry) (l : Library) : Library :=
  mkLibrary (lib_version l) (lib_entries l ++ [e]).

Section Engine.
Context {World : Type} (svc : Service World).
Context (localeCompare : string -> string -> Z).
Context (cfg : Config).

(** [mochi("/decks")] then [data.docs || []]. *)
Definition listDecks (env : Env World) : result (list Deck) * Env World :=
  let (r, w) := get_decks svc (world env) in (r, log GET_decks w env).

Definition findDeckByName (name : string) (env : Env World)
  : result (option Deck) * Env World :=
  match listDecks env with
  | (Ok decks, env') =>
      (Ok (List.find (fun d => bool_decide (deck_name d = name)) decks), env')
  | (Err e, env') => (Err e, env')
  end.

Definition createDeck (name parentId : string) (env : Env World)
  : result Deck * Env World :=
  if DRY_RUN cfg then (Ok (mkDeck (String.append "DRY_DECK_" name) name), env)
  else
    let parent := if truthy_str parentId then Some parentId else None in
    let (r, w) := post_deck svc name parent (world env) in
    (r, log (POST_decks name parent) w env).

Definition card_body (deckId : string) (entry : Entry) : CardBody :=
  let fields0 : gmap string string :=
    <[VOCAB_FIELD_MEANING_ID cfg := default "" (meaning entry)]>
      (<[VOCAB_FIELD_TERM_ID cfg := chunk entry]> ∅) in
  let fields1 :=
    match obs entry with
    | Some o =>
        if truthy_str (VOCAB_FIELD_OBS_ID cfg) && truthy_str o && truthy_str (trim o)
        then <[VOCAB_FIELD_OBS_ID cfg := trim o]> fields0
        else fields0
    | None => fields0
    end in
  mkCardBody "" deckId (VOCAB_TEMPLATE_ID cfg) fields1.

(** Returns [card.id]. *)
Definition createVocabCard (deckId : string) (entry : Entry) (env : Env World)
  : result string * Env World :=
  let body := card_body deckId entry in
  if DRY_RUN cfg
  then (Ok (String.append "DRY_CARD_" (replace_ws false (chunk entry))), env)
  else
    let (r, w) := post_card svc body (world env) in
    (r, log (POST_cards body) w env).

(** [libMap.get(chunk)]: the library entry behind the reference. *)
Definition lookup_lib (st : State World) (c : string) : option (nat * Entry) :=
  j ← libMap st !! c; e ← lib_entries (lib st) !! j; Some (j, e).

(** [inLib && inLib.id && entry.id && entry.id.trim() && entry.id !== inLib.id] *)
Definition id_conflict (inLib : option (nat * Entry)) (entry : Entry) : bool :=
  match inLib with
  | Some (_, le) =>
      truthy_str (id le) && truthy_str (id entry) && truthy_str (trim (id entry))
      && negb (bool_decide (id entry = id le))
  | None => false
  end.

(** [inLib && inLib.id && inLib.id.trim()] *)
Definition has_id (inLib : option (nat * Entry)) : bool :=
  match inLib with
  | Some (_, le) => truthy_str (id le) && truthy_str (trim (id le))
  | None => false
  end.

Definition persist (st : State World) : State World :=
  if DRY_RUN cfg then st
  else
    mkState (classDoc st) (lib st) (libMap st) (skippedExisting st) (created st)
      (saveJsonAtomic (libPath cfg) (json_of_library (lib st))
         (saveJsonAtomic (classPath cfg) (json_of_classDoc (classDoc st)) (env st))).

(** The cache-hit branch, for the library entry [le] at index [j]. *)
Definition skip_existing (i : nat) (entry : Entry) (j : nat) (le : Entry)
    (st : State World) : State World :=
  mkState
    (put_class_entry i (set_id entry (id le)) (classDoc st))
    (put_lib_entry j (set_variants le (union (variants le) (variants entry))) (lib st))
    (libMap st)
    (skippedExisting st ++ [chunk entry])
    (created st)
    (env st).

(** The library entry after a creation: id, variants, then meaning and
    obs when the class entry has them. *)
Definition registered (libEntry entry : Entry) (cardId : string) : Entry :=
  let e1 := set_id libEntry cardId in
  let e2 := set_variants e1 (union (variants e1) (variants entry)) in
  let e3 := match meaning entry with Some m => set_meaning e2 m | None => e2 end in
  match obs entry with Some o => set_obs e3 o | None => e3 end.

(** The cache-miss branch after [createVocabCard] returned [cardId]. *)
Definition register_card (i : nat) (entry : Entry) (inLib : option (nat * Entry))
    (cardId : string) (env' : Env World) (st : State World) : State World :=
  let entry' := set_id entry cardId in
  let doc' := put_class_entry i entry' (classDoc st) in
  match inLib with
  | Some (j, le) =>
      persist (mkState doc'
        (put_lib_entry j (registered le entry' cardId) (lib st))
        (libMap st) (skippedExisting st) (S (created st)) env')
  | None =>
      let fresh := mkEntry (chunk entry') "" [] None None in
      persist (mkState doc'
        (push_lib_entry (registered fresh entry' cardId) (lib st))
        (<[chunk entry' := length (lib_entries (lib st))]> (libMap st))
        (skippedExisting st) (S (created st)) env')
  end.

(** One turn of [for (const entry of classDoc.entries)], for the entry
    at index [i]; [deckId] is [deck.id]. *)
Definition step (deckId : string) (i : nat) (st : State World) : step_result World :=
  match doc_entries (classDoc st) !! i with
  | None => Continue st
  | Some entry =>
      let inLib := lookup_lib st (chunk entry) in
      if id_conflict inLib entry
      then Throw (IdConflict (chunk entry) (id entry)
                    (from_option (fun p => id (snd p)) "" inLib)) st
      else if has_id inLib
      then
        match inLib with
        | Some (j, le) => Continue (skip_existing i entry j le st)
        | None => Continue st       (* [has_id None] is false *)
        end
      else
        match createVocabCard deckId entry (env st) with
        | (Ok cardId, env') =>
            Continue (register_card i entry inLib cardId env' st)
        | (Err e, env') =>
            Throw e (mkState (classDoc st) (lib st) (libMap st)
                       (skippedExisting st) (created st) env')
        end
  end.

(** The loop over the indices [todo] still to visit. *)
Fixpoint for_each (deckId : string) (todo : list nat) (st : State World)
  : step_result World :=
  match todo with
  | [] => Continue st
  | i :: rest =>
      match step deckId i st with
      | Continue st' => for_each deckId rest st'
      | Throw e st' => Throw e st'
      end
  end.

Definition reconcile (deckId : string) (st : State World) : step_result World :=
  for_each deckId (seq 0 (length (doc_entries (classDoc st)))) st.

(** After the loop: sort the library, then write both files.  [libMap]
    is dead from here on; its indices refer to the order before the sort. *)
Definition finish (st : State World) : State World :=
  let sorted :=
    sort (fun a b => localeCompare (chunk a) (chunk b)) (lib_entries (lib st)) in
  persist (mkState (classDoc st) (mkLibrary (lib_version (lib st)) sorted)
             (libMap st) (skippedExisting st) (created st) (env st)).

(** [findDeckByName] then, when there is none, [createDeck]. *)
Definition resolve_deck (deckName : string) (env : Env World)
  : result Deck * Env World :=
  match findDeckByName deckName env with
  | (Ok (Some deck), env') => (Ok deck, env')
  | (Ok None, env') => createDeck deckName (MASTER_VOCAB_DECK_ID cfg) env'
  | (Err e, env') => (Err e, env')
  end.

Definition initial (doc : ClassDoc) (l : Library) (env : Env World) : State World :=
  mkState doc l (indexByChunk (lib_entries l)) [] 0 env.

(** [main], from the two files as they are found and the world [w]. *)
Definition main (classFile libFile : file) (w : World) : outcome World :=
  let env0 := mkEnv w [] in
  match classFile with
  | Err e => Fatal e env0
  | Ok classJson =>
      match validateClassDoc classJson with
      | Err e => Fatal e env0
      | Ok _ =>
          let libJson := load_library libFile in
          match classDoc_of_json classJson, library_of_json libJson with
          | Some doc, Some l =>
              match resolve_deck (String.append (doc_class doc) "_V") env0 with
              | (Err e, env1) => Fatal e env1
              | (Ok deck, env1) =>
                  match reconcile (deck_id deck) (initial doc l env1) with
                  | Throw e st => Failed e st
                  | Continue st => Done (finish st)
                  end
              end
          | _, _ => Fatal OutsideSchema env0
          end
      end
  end.

End Engine.

(** * Definitions used to state the properties *)

(** Removal of duplicates as the spec words it: every element is kept where
    it first occurs. *)
Fixpoint dedup (l : list string) : list string :=
  match l with
  | [] => []
  | x :: l' => x :: filter (fun y => y ≠ x) (dedup l')
  end.


(** The structural invariants of the stores, as the spec lists them:
    required fields, per-field types, no duplicate chunk (compared after
    trimming). *)
Definition key_of (e : value) : string :=
  match e with Obj props => trim (str_of (assoc "chunk" props)) | _ => "" end.

Definition entry_wellformed (e : value) : bool :=
  match e with
  | Obj props =>
      nonempty_string (assoc "chunk" props) && is_string (assoc "id" props)
      && is_array (assoc "variants" props)
  | _ => false
  end.

Definition unit_wellformed (e : value) : bool :=
  match e with
  | Obj props =>
      entry_wellformed e && absent_or_string (assoc "obs" props)
      && absent_or_string (assoc "meaning" props)
  | _ => false
  end.

Definition registry_wellformed (lib : value) : bool :=
  match lib with
  | Obj props =>
      match assoc "entries" props with
      | Some (Arr es) =>
          forallb entry_wellformed es && bool_decide (NoDup (key_of <$> es))
      | _ => false
      end
  | _ => false
  end.

Definition classDoc_wellformed (doc : value) : bool :=
  match doc with
  | Obj props =>
      nonempty_string (assoc "class" props)
      && match assoc "entries" props with
         | Some (Arr es) =>
             forallb unit_wellformed es && bool_decide (NoDup (key_of <$> es))
         | _ => false
         end
  | _ => false
  end.

(** A file that cannot be used: it is missing or does not parse, or its
    content is not well-formed. *)
Definition unusable (wellformed : value -> bool) (f : file) : Prop :=
  match f with
  | Err _ => True
  | Ok v => wellformed v = false
  end.

(** The state a loop ends in, whether it fell through or threw. *)
Definition outcome_state {World} (r : step_result World) : State World :=
  match r with Continue st | Throw _ st => st end.

(** The order in which a comparator puts its first argument no later than
    its second. *)
Definition ascending {A} (cmp : A -> A -> Z) (a b : A) : Prop := (cmp a b <= 0)%Z.

Definition by_chunk (localeCompare : string -> string -> Z) (a b : Entry) : Z :=
  localeCompare (chunk a) (chunk b).

Definition is_save (ev : event) : bool :=
  match ev with Saved _ _ => true | _ => false end.

Definition is_creation (ev : event) : bool :=
  match ev with POST_cards _ => true | _ => false end.

(** The ways through one turn of the loop, with the state each leaves. *)
Inductive step_shape {World} (svc : Service World) (cfg : Config) (deckId : string)
    (i : nat) (st : State World) : step_result World -> Prop :=
  | shape_past_end :
      doc_entries (classDoc st) !! i = None ->
      step_shape svc cfg deckId i st (Continue st)
  | shape_conflict entry j le :
      doc_entries (classDoc st) !! i = Some entry ->
      lookup_lib st (chunk entry) = Some (j, le) ->
      id le <> "" -> trim (id entry) <> "" -> id entry <> id le ->
      step_shape svc cfg deckId i st
        (Throw (IdConflict (chunk entry) (id entry) (id le)) st)
  | shape_hit entry j le :
      doc_entries (classDoc st) !! i = Some entry ->
      lookup_lib st (chunk entry) = Some (j, le) ->
      trim (id le) <> "" ->
      trim (id entry) = "" \/ id entry = id le ->
      step_shape svc cfg deckId i st (Continue (skip_existing i entry j le st))
  | shape_failed entry e env' :
      doc_entries (classDoc st) !! i = Some entry ->
      has_id (lookup_lib st (chunk entry)) = false ->
      createVocabCard svc cfg deckId entry (env st) = (Err e, env') ->
      step_shape svc cfg deckId i st
        (Throw e (mkState (classDoc st) (lib st) (libMap st)
                    (skippedExisting st) (created st) env'))
  | shape_created entry cardId env' :
      doc_entries (classDoc st) !! i = Some entry ->
      has_id (lookup_lib st (chunk entry)) = false ->
      createVocabCard svc cfg deckId entry (env st) = (Ok cardId, env') ->
      step_shape svc cfg deckId i st
        (Continue (register_card cfg i entry (lookup_lib st (chunk entry)) cardId env' st)).

(** The map holds, for each chunk, the index of a library entry with that
    chunk. *)
Definition map_ok {World} (st : State World) : Prop :=
  forall c j, libMap st !! c = Some j ->
    exists e, lib_entries (lib st) !! j = Some e /\ chunk e = c.

(** The entries before index [k] carry the id of the library entry that the
    map holds for their chunk. *)
Definition synced {World} (k : nat) (st : State World) : Prop :=
  forall i u, i < k -> doc_entries (classDoc st) !! i = Some u ->
    exists j e, libMap st !! chunk u = Some j
      /\ lib_entries (lib st) !! j = Some e /\ id e = id u.

(** What [k] turns of the loop keep true of a run that started in [st0]. *)
Record run_inv {World} (st0 : State World) (k : nat) (sk : State World) : Prop := {
  inv_class : doc_class (classDoc sk) = doc_class (classDoc st0);
  inv_chunks : chunk <$> doc_entries (classDoc sk) = chunk <$> doc_entries (classDoc st0);
  inv_later : forall i, k <= i ->
    doc_entries (classDoc sk) !! i = doc_entries (classDoc st0) !! i;
  inv_version : lib_version (lib sk) = lib_version (lib st0);
  inv_map : map_ok sk;
  inv_synced : synced k sk;
  inv_keys : forall c, is_Some (libMap sk !! c) ->
    is_Some (libMap st0 !! c)
    \/ exists i u, i < k /\ doc_entries (classDoc st0) !! i = Some u /\ chunk u = c;
  inv_nonempty : Forall (fun e => chunk e <> "") (lib_entries (lib sk));
}.

(** What the loop keeps true of the ids it hands out and of the chunks of the
    library, for a run that started in [st0]. *)
Record clean_inv {World} (st0 : State World) (k : nat) (sk : State World) : Prop := {
  clean_ids : forall i u, i < k ->
    doc_entries (classDoc sk) !! i = Some u -> trim (id u) <> "";
  clean_keys : NoDup (trim <$> (chunk <$> lib_entries (lib sk)));
  clean_map : forall c, c ∈ chunk <$> lib_entries (lib sk) -> is_Some (libMap sk !! c);
  clean_origin : forall c, c ∈ chunk <$> lib_entries (lib sk) ->
    c ∈ chunk <$> lib_entries (lib st0)
    \/ exists i u, i < k /\ doc_entries (classDoc st0) !! i = Some u /\ chunk u = c;
}.

(** The provisioner never answers with a blank id. *)
Definition answers_with_ids {World} (svc : Service World) : Prop :=
  forall body w cardId w', post_card svc body w = (Ok cardId, w') -> trim cardId <> "".

(** No class chunk differs from a library chunk only by surrounding white
    space. *)
Definition no_whitespace_variants (doc : ClassDoc) (l : Library) : Prop :=
  forall u e, u ∈ doc_entries doc -> e ∈ lib_entries l ->
    trim (chunk u) = trim (chunk e) -> chunk u = chunk e.

(** The entries of a typed document that passes validation once written out:
    no empty chunk, no two chunks equal after trimming. *)
Definition chunks_valid (es : list Entry) : Prop :=
  Forall (fun e => chunk e <> "") es /\ NoDup ((fun e => trim (chunk e)) <$> es).

(** What the library assigns: each entry's chunk with its id. *)
Definition assignment (e : Entry) : string * string := (chunk e, id e).

(** ** Concrete instances

    A comparator by code units, a Mochi double that remembers its decks and
    hands out the card ids "A", "B", ... in turn, and two configurations. *)
Fixpoint codeunit_compare (a b : string) : Z :=
  match a, b with
  | EmptyString, EmptyString => 0
  | EmptyString, String _ _ => -1
  | String _ _, EmptyString => 1
  | String x a', String y b' =>
      match (N_of_ascii x ?= N_of_ascii y)%N with
      | Lt => -1
      | Gt => 1
      | Eq => codeunit_compare a' b'
      end
  end.

Record Mochi : Type := mkMochi { decks : list Deck; cards : nat }.

Definition no_decks : Mochi := mkMochi [] 0.

Definition counter_service : Service Mochi :=
  mkService Mochi
    (fun w => (Ok (decks w), w))
    (fun name parent w =>
       let d := mkDeck "D1" name in (Ok d, mkMochi (decks w ++ [d]) (cards w)))
    (fun body w =>
       (Ok (String (ascii_of_nat (65 + cards w)) ""), mkMochi (decks w) (S (cards w)))).

(** The world and the trace once the deck of class "001" has been created. *)
Definition deck_created : Env Mochi :=
  mkEnv (mkMochi [mkDeck "D1" "001_V"] 0) [GET_decks; POST_decks "001_V" None].

Definition live_config : Config :=
  mkConfig "tmpl" "term" "meaning" "" "" false "chunks_000.json" "chunk_library.json".

Definition dry_config : Config :=
  mkConfig "tmpl" "term" "meaning" "" "" true "chunks_000.json" "chunk_library.json".

Definition unit_of (c i : string) (vs : list string) : Entry := mkEntry c i vs None None.

Definition class_001 (es : list Entry) : file := Ok (json_of_classDoc (mkClassDoc "001" es)).

Definition library_v1 (es : list Entry) : file :=
  Ok (json_of_library (mkLibrary (Some (Num 1)) es)).

(** Scenario A of the spec, run to its end. *)
Definition scenario_A_start : State Mochi :=
  initial (mkClassDoc "001" [unit_of "casa" "" ["casa"]]) (mkLibrary (Some (Num 1)) [])
    deck_created.

Definition scenario_A_done : State Mochi :=
  finish codeunit_compare live_config
    (outcome_state (reconcile counter_service live_config "D1" scenario_A_start)).

(** Scenario C of the spec, at the start of the loop. *)
Definition scenario_C_start : State Mochi :=
  initial (mkClassDoc "001" [unit_of "casa" "X123" []])
    (mkLibrary (Some (Num 1)) [unit_of "casa" "Y999" []])
    deck_created.

(** A library that knows "casa" by the id "Y1" and by the meaning "house". *)
Definition casa_Y1 : Entry := mkEntry "casa" "Y1" ["casa"] (Some "house") None.

Definition scenario_hit_start : State Mochi :=
  initial (mkClassDoc "001" [mkEntry "casa" "" ["casas"] (Some "home") None])
    (mkLibrary (Some (Num 1)) [casa_Y1])
    deck_created.

(** The same library against a class entry that spells the chunk with a
    leading space. *)
Definition scenario_space_start : State Mochi :=
  initial (mkClassDoc "001" [unit_of " casa" "" []])
    (mkLibrary (Some (Num 1)) [casa_Y1])
    deck_created.

(** What a run reports: the cards it created, the ids of the class entries
    and the library's assignment; [None] when it did not end normally. *)
Definition summary {World} (o : outcome World)
  : option (nat * list string * list (string * string)) :=
  match o with
  | Done st =>
      Some (created st, id <$> doc_entries (classDoc st), assignment <$> lib_entries (lib st))
  | _ => None
  end.

(** * The rest of the script: definitions *)

(** ** What the properties of a whole run speak of *)

(** An entry without its id: what the loop must leave alone in the class
    document. *)
Definition erase_id (e : Entry) : Entry := set_id e "".

(** The world and trace an outcome ends with. *)
Definition outcome_env {World} (o : outcome World) : Env World :=
  match o with
  | Fatal _ env0 => env0
  | Failed _ st | Done st => env st
  end.

(** How many events of a kind a trace holds. *)
Definition count (kind : event -> bool) (tr : list event) : nat :=
  length (filter (fun ev => kind ev = true) tr).

Definition is_post (ev : event) : bool :=
  match ev with POST_decks _ _ | POST_cards _ => true | _ => false end.

Fixpoint no_white_space (s : string) : bool :=
  match s with
  | EmptyString => true
  | String c s' => negb (is_white_space c) && no_white_space s'
  end.

(** ** The files on disk

    A disk maps a path to the JSON document its text parses to; a path that
    is absent stands for a file that is missing or cannot be parsed, which
    [loadJson] does not tell apart.  [fs.writeFile] creates or replaces a
    file and [fs.rename] moves a file over its target; either call can
    reject (ENOENT, EACCES, ENOSPC ...), and which one does is up to the
    file system: it is the [fault] of a save. *)
Module Disk.

Inductive fault : Type :=
  | NoFault
  | WriteRejects (remains : option value)  (* what the rejected write leaves at its path *)
  | RenameRejects.

(** The disk after a call that fulfilled, or after one that rejected. *)
Inductive attempt : Type :=
  | Fulfilled (d : gmap string value)
  | Rejected (d : gmap string value).

(** A rejected write may leave its path absent or truncated ([None]) or
    with a document, such as the one it held ([Some]). *)
Definition writeFile (f : fault) (path : string) (content : value)
    (d : gmap string value) : attempt :=
  match f with
  | WriteRejects remains => Rejected (partial_alter (fun _ => remains) path d)
  | _ => Fulfilled (<[path := content]> d)
  end.

(** [rename] rejects when the source does not exist, and when the file
    system says so; a rejected [rename] changes nothing. *)
Definition rename (f : fault) (src dst : string) (d : gmap string value) : attempt :=
  match f, d !! src with
  | RenameRejects, _ => Rejected d
  | _, Some content => Fulfilled (<[dst := content]> (delete src d))
  | _, None => Rejected d
  end.

Definition tmp (filePath : string) : string := String.append filePath ".tmp".

(** The two awaits of [saveJsonAtomic]: a rejected write is thrown before
    the rename is tried. *)
Definition saveJsonAtomic (f : fault) (filePath : string) (obj : value)
    (d : gmap string value) : attempt :=
  match writeFile f (tmp filePath) obj d with
  | Fulfilled d1 => rename f (tmp filePath) filePath d1
  | Rejected d1 => Rejected d1
  end.

Definition loadJson (d : gmap string value) (filePath : string) : file :=
  match d !! filePath with
  | Some content => Ok content
  | None => Err LoadError
  end.

(** The writes of a trace, carried out in order, the n-th save under the
    n-th fault of [faults] (no fault once the list is used up).  A save that
    rejects is thrown out of [main]: the run ends there, and the writes after
    it are never made. *)
Fixpoint replay (faults : list fault) (tr : list event) (d : gmap string value)
  : attempt :=
  match tr with
  | [] => Fulfilled d
  | Saved path obj :: rest =>
      match saveJsonAtomic (hd NoFault faults) path obj d with
      | Fulfilled d' => replay (tl faults) rest d'
      | Rejected d' => Rejected d'
      end
  | _ :: rest => replay faults rest d
  end.

(** The disk an attempt leaves, however it ended. *)
Definition after (a : attempt) : gmap string value :=
  match a with Fulfilled d | Rejected d => d end.

End Disk.

(** The disk after a run that read its two files from [d], when the file
    system rejected none of its writes. *)
Definition disk_after_run {World} (svc : Service World)
    (localeCompare : string -> string -> Z) (cfg : Config)
    (d : gmap string value) (w : World) : gmap string value :=
  let first :=
    main svc localeCompare cfg
      (Disk.loadJson d (classPath cfg)) (Disk.loadJson d (libPath cfg)) w in
  Disk.after (Disk.replay [] (trace (outcome_env first)) d).

(** A run from the files of [d], then a second run from the files the first
    one left, in the world the first one left. *)
Definition run_twice_on_disk {World} (svc : Service World)
    (localeCompare : string -> string -> Z) (cfg : Config)
    (d : gmap string value) (w : World) :=
  let first :=
    main svc localeCompare cfg
      (Disk.loadJson d (classPath cfg)) (Disk.loadJson d (libPath cfg)) w in
  let d1 := disk_after_run svc localeCompare cfg d w in
  (summary first,
   summary (main svc localeCompare cfg
              (Disk.loadJson d1 (classPath cfg)) (Disk.loadJson d1 (libPath cfg))
              (world (outcome_env first)))).

(** The map and the library array tell the same story: the map is right
    ([map_ok]), no two entries have the same chunk, and every entry's chunk
    is a key of the map. *)
Definition map_exact {World} (st : State World) : Prop :=
  map_ok st
  /\ NoDup (chunk <$> lib_entries (lib st))
  /\ forall c, c ∈ chunk <$> lib_entries (lib st) -> is_Some (libMap st !! c).

(** ** The environment and the command line

    [process.env] is a finite map of strings; [path.resolve] depends on the
    working directory and is a parameter. *)
Inductive startup_error : Type :=
  | MissingEnvVar (name : string)     (* "Missing env var: name" *)
  | Usage.                            (* "Usage: node build_vocab_deck.js ..." *)

Definition mustEnv (env : gmap string string) (name : string)
  : startup_error + string :=
  match env !! name with
  | Some v => if truthy_str v then inr v else inl (MissingEnvVar name)
  | None => inl (MissingEnvVar name)
  end.

(** [process.env.NAME || fallback] *)
Definition env_or (env : gmap string string) (name fallback : string) : string :=
  match env !! name with
  | Some v => if truthy_str v then v else fallback
  | None => fallback
  end.

(** The constants at the top of the script, in the order they are
    evaluated, then the argument check and the two [path.resolve] of [main]. *)
Definition load_config (resolve : string -> string) (env : gmap string string)
    (classFileArg : option string) : startup_error + Config :=
  match mustEnv env "MOCHI_API_KEY" with
  | inl e => inl e
  | inr _ =>
  match mustEnv env "VOCAB_TEMPLATE_ID" with
  | inl e => inl e
  | inr template =>
  match mustEnv env "VOCAB_FIELD_TERM_ID" with
  | inl e => inl e
  | inr term =>
  match mustEnv env "VOCAB_FIELD_MEANING_ID" with
  | inl e => inl e
  | inr mean =>
  match classFileArg with
  | Some arg =>
      if truthy_str arg
      then inr (mkConfig template term mean
                  (env_or env "VOCAB_FIELD_OBS_ID" "")
                  (env_or env "MASTER_VOCAB_DECK_ID" "")
                  (bool_decide (env !! "DRY_RUN" = Some "1"))
                  (resolve arg)
                  (resolve (env_or env "CHUNK_LIBRARY_FILE" "chunk_library.json")))
      else inl Usage
  | None => inl Usage
  end end end end end.

Definition required_vars : list string :=
  ["MOCHI_API_KEY"; "VOCAB_TEMPLATE_ID"; "VOCAB_FIELD_TERM_ID"; "VOCAB_FIELD_MEANING_ID"].

Definition is_set (env : gmap string string) (name : string) : Prop :=
  exists v, env !! name = Some v /\ v <> "".

(** ** What a failed run leaves on disk *)

(** What the library file holds once the writes of the run so far have gone
    through, from the disk [d] to the disk [d']: the disk is untouched while
    no card was created, and from the first creation on the library file has
    the chunks and ids of the library in memory. *)
Definition progress_on_disk {World} (cfg : Config) (d d' : gmap string value)
    (st : State World) : Prop :=
  (created st = 0 /\ d' = d)
  \/ (0 < created st
      /\ exists l', Disk.loadJson d' (libPath cfg) = Ok (json_of_library l')
           /\ assignment <$> lib_entries l' = assignment <$> lib_entries (lib st)).

(** ** Validation errors *)

(** The index in the message of an error about one entry. *)
Definition entry_index (e : error) : option nat :=
  match e with
  | ChunkInvalid i | IdNotString i | VariantsNotArray i
  | ObsNotString i | MeaningNotString i => Some i
  | _ => None
  end.

(** ** More scenarios *)

(** The state a run that reached the loop ends in. *)
Definition final_state {World} (o : outcome World) : option (State World) :=
  match o with
  | Done st | Failed _ st => Some st
  | Fatal _ _ => None
  end.

(** A Mochi double that answers [n] card requests and refuses the rest. *)
Definition quota_service (n : nat) : Service Mochi :=
  mkService Mochi
    (fun w => (Ok (decks w), w))
    (fun name parent w =>
       let d := mkDeck "D1" name in (Ok d, mkMochi (decks w ++ [d]) (cards w)))
    (fun body w =>
       if (cards w <? n)%nat
       then (Ok (String (ascii_of_nat (65 + cards w)) ""), mkMochi (decks w) (S (cards w)))
       else (Err (ApiError "quota"), w)).

Definition casa_mesa : list Entry :=
  [unit_of "casa" "" ["casa"]; unit_of "mesa" "" ["mesa"]].

(** The loop over "casa" and "mesa" on an empty library, and where it stops
    when Mochi refuses the second card. *)
Definition scenario_quota_start : State Mochi :=
  initial (mkClassDoc "001" casa_mesa) (mkLibrary (Some (Num 1)) []) deck_created.

Definition scenario_quota_failed : State Mochi :=
  default scenario_quota_start
    (final_state (main (quota_service 1) codeunit_compare live_config
                    (class_001 casa_mesa) (Err LoadError) no_decks)).

(** Scenario B from the files, run to its end. *)
Definition scenario_hit_done : State Mochi :=
  default scenario_hit_start
    (final_state (main counter_service codeunit_compare live_config
                    (class_001 [mkEntry "casa" "" ["casas"] (Some "home") None])
                    (library_v1 [casa_Y1]) no_decks)).

(** The class file spells "casa" with a leading space; the library file
    knows "casa" by the id "Y1". *)
Definition space_disk : gmap string value :=
  <["chunk_library.json" := json_of_library (mkLibrary (Some (Num 1)) [casa_Y1])]>
    {["chunks_000.json" := json_of_classDoc (mkClassDoc "001" [unit_of " casa" "" []])]}.

(** A disk with the class file of Scenario A and no library file. *)
Definition casa_disk : gmap string value :=
  {["chunks_000.json" := json_of_classDoc (mkClassDoc "001" [unit_of "casa" "" ["casa"]])]}.

(** A Mochi double whose card ids are never blank: "c" and a letter. *)
Definition lettered_service : Service Mochi :=
  mkService Mochi
    (fun w => (Ok (decks w), w))
    (fun name parent w =>
       let d := mkDeck "D1" name in (Ok d, mkMochi (decks w ++ [d]) (cards w)))
    (fun body w =>
       (Ok (String "c" (String (ascii_of_nat (65 + cards w)) "")),
        mkMochi (decks w) (S (cards w)))).

(** The first run of [lettered_service] on [casa_disk]. *)
Definition casa_disk_done : State Mochi :=
  default scenario_A_start
    (final_state (main lettered_service codeunit_compare live_config
                    (Disk.loadJson casa_disk "chunks_000.json")
                    (Disk.loadJson casa_disk "chunk_library.json") no_decks)).

(** "mesa" before "casa", on an empty library: the loop leaves the library
    in class order, and the sort has something to do. *)
Definition scenario_unsorted_start : State Mochi :=
  initial (mkClassDoc "001" [unit_of "mesa" "" ["mesa"]; unit_of "casa" "" ["casa"]])
    (mkLibrary (Some (Num 1)) []) deck_created.

Definition scenario_unsorted_done : State Mochi :=
  default scenario_unsorted_start
    (final_state (main counter_service codeunit_compare live_config
                    (class_001 [unit_of "mesa" "" ["mesa"]; unit_of "casa" "" ["casa"]])
                    (Err LoadError) no_decks)).

(** A library that knows "casa" by an id and "sol" without one, against a
    class that has both and "mesa": a hit, a creation on the entry the library
    holds, and a creation that adds an entry. *)
Definition casa_sol_mesa : list Entry :=
  [mkEntry "casa" "" ["casas"] (Some "home") None; unit_of "sol" "" ["sol"];
   unit_of "mesa" "" ["mesa"]].

Definition scenario_three_done : State Mochi :=
  default scenario_hit_start
    (final_state (main counter_service codeunit_compare live_config
                    (class_001 casa_sol_mesa)
                    (library_v1 [casa_Y1; unit_of "sol" "" []]) no_decks)).

(** The library knows "mesa" by an id that is blank but not empty, and Mochi
    refuses the second card. *)
Definition scenario_blank_id_start : State Mochi :=
  initial (mkClassDoc "001" casa_mesa) (mkLibrary (Some (Num 1)) [unit_of "mesa" " " []])
    deck_created.

(** A configuration with an obs field. *)
Definition obs_config : Config :=
  mkConfig "tmpl" "term" "meaning" "obs" "" false "chunks_000.json" "chunk_library.json".

(** Mochi with three decks, two of them of the name "001_V". *)
Definition three_decks : Env Mochi :=
  mkEnv (mkMochi [mkDeck "D0" "000_V"; mkDeck "D1" "001_V"; mkDeck "D2" "001_V"] 0) [].

(** A class document whose second entry has no id. *)
Definition second_entry_without_id : value :=
  Obj [("class", Str "001");
       ("entries",
        Arr [Obj [("chunk", Str "casa"); ("id", Str ""); ("variants", Arr [])];
             Obj [("chunk", Str "mesa"); ("variants", Arr [])]])].

(** * The sentence script, build_sentence_deck.js

    The script reads a sentences file, finds or creates the deck
    [<class>_S] and posts one card per sentence.  It keeps no library and
    writes no file.  It has its own copies of [mochi], [listDecks],
    [findDeckByName], [createDeck] and [mustEnv]; the copies that read no
    constant of the script are shared with the vocabulary script here.

    The typed documents below cover the files whose [class], [en], [pt],
    [chunk], [id] and [gloss_pt] are strings where they are present.  An
    absent string property is held as the empty string, which the checks of
    the script do not tell apart from it; [None] for [sentences] and [hints]
    is whatever is not an array, and for [gloss_pt] an absent or null gloss. *)
Module Sentences.

Record Config : Type := mkConfig {
  SENT_TEMPLATE_ID : string;
  SENT_FIELD_EN_ID : string;
  SENT_FIELD_HINTS_ID : string;
  SENT_FIELD_PT_ID : string;
  MASTER_SENTENCE_DECK_ID : string;     (* "" when unset *)
  DRY_RUN : bool;
}.

Record Hint : Type := mkHint {
  hint_chunk : string;
  hint_id : string;
  gloss_pt : option string;
}.

Record Sentence : Type := mkSentence {
  en : string;
  pt : string;
  hints : option (list Hint);
}.

Record SentencesDoc : Type := mkSentencesDoc {
  sent_class : string;
  sentences : option (list Sentence);
}.

Inductive failure : Type :=
  | ReadError           (* readFile or JSON.parse threw *)
  | InvalidFile         (* 'Invalid sentences file. Expected { "class": ... }' *)
  | InvalidSentence     (* "Each sentence must have en, pt, and hints[]" *)
  | InvalidHint         (* "Hint items must have chunk and id" *)
  | Api (e : error).    (* what [mochi] threw *)

(** The constants at the top of the script, in the order they are
    evaluated. *)
Definition load_config (env : gmap string string) : startup_error + Config :=
  match mustEnv env "MOCHI_API_KEY" with
  | inl e => inl e
  | inr _ =>
  match mustEnv env "SENT_TEMPLATE_ID" with
  | inl e => inl e
  | inr template =>
  match mustEnv env "SENT_FIELD_EN_ID" with
  | inl e => inl e
  | inr fieldEn =>
  match mustEnv env "SENT_FIELD_HINTS_ID" with
  | inl e => inl e
  | inr fieldHints =>
  match mustEnv env "SENT_FIELD_PT_ID" with
  | inl e => inl e
  | inr fieldPt =>
      inr (mkConfig template fieldEn fieldHints fieldPt
             (env_or env "MASTER_SENTENCE_DECK_ID" "")
             (bool_decide (env !! "DRY_RUN" = Some "1")
              || bool_decide (env !! "DRY_RUN" = Some "true")))
  end end end end end.

Definition cloze (text : string) : string :=
  String.append "{{" (String.append text "}}").

(** [s.replaceAll(c, replacement)] for a pattern of one character and a
    replacement without [$]. *)
Fixpoint replaceAll (c : ascii) (replacement s : string) : string :=
  match s with
  | EmptyString => EmptyString
  | String a s' =>
      if Ascii.eqb a c then String.append replacement (replaceAll c replacement s')
      else String a (replaceAll c replacement s')
  end.

Definition escapeBraces (text : string) : string :=
  replaceAll "}" "\}" (replaceAll "{" "\{" text).

(** The callback of [.map] in [renderHints]. *)
Definition hint_line (h : Hint) : failure + string :=
  if negb (truthy_str (hint_chunk h)) || negb (truthy_str (hint_id h))
  then inl InvalidHint
  else
    let gloss := escapeBraces (default "" (gloss_pt h)) in
    inr (String.append "[["
          (String.append (hint_chunk h)
            (String.append "|"
              (String.append (hint_id h)
                (String.append "]]: " (cloze gloss)))))).

(** [.map] with a callback that may throw: the first throw ends it. *)
Fixpoint map_lines (hs : list Hint) : failure + list string :=
  match hs with
  | [] => inr []
  | h :: rest =>
      match hint_line h with
      | inl e => inl e
      | inr line =>
          match map_lines rest with
          | inl e => inl e
          | inr lines => inr (line :: lines)
          end
      end
  end.

Definition renderHints (hintsArray : option (list Hint)) : failure + string :=
  match map_lines (default [] hintsArray) with
  | inl e => inl e
  | inr lines => inr (String.concat (String "010" "") lines)
  end.

Section Engine.
Context {World : Type} (svc : Service World) (cfg : Config).

Definition createDeck (name parentId : string) (env : Env World)
  : result Deck * Env World :=
  if DRY_RUN cfg then (Ok (mkDeck (String.append "DRY_DECK_" name) name), env)
  else
    let parent := if truthy_str parentId then Some parentId else None in
    let (r, w) := post_deck svc name parent (world env) in
    (r, log (POST_decks name parent) w env).

(** A later field of the same id replaces an earlier one. *)
Definition card_body (deckId en hints pt : string) : CardBody :=
  mkCardBody "" deckId (SENT_TEMPLATE_ID cfg)
    (<[SENT_FIELD_PT_ID cfg := pt]>
       (<[SENT_FIELD_HINTS_ID cfg := hints]>
          (<[SENT_FIELD_EN_ID cfg := en]> ∅))).

(** Returns [card.id]. *)
Definition createSentenceCard (deckId en hints pt : string) (env : Env World)
  : result string * Env World :=
  let body := card_body deckId en hints pt in
  if DRY_RUN cfg
  then (Ok (String.append "DRY_CARD_" (replace_ws false (substring 0 24 en))), env)
  else
    let (r, w) := post_card svc body (world env) in
    (r, log (POST_cards body) w env).

(** [for (const s of doc.sentences)]: what was thrown, if anything, with
    the counter [created] and the world at that point. *)
Fixpoint for_each (deckId : string) (todo : list Sentence) (created : nat)
    (env : Env World) : option failure * nat * Env World :=
  match todo with
  | [] => (None, created, env)
  | s :: rest =>
      if negb (truthy_str (en s)) || negb (truthy_str (pt s))
         || negb (bool_decide (is_Some (hints s)))
      then (Some InvalidSentence, created, env)
      else
        match renderHints (hints s) with
        | inl e => (Some e, created, env)
        | inr hintsText =>
            match createSentenceCard deckId (en s) hintsText (pt s) env with
            | (Ok _, env') => for_each deckId rest (S created) env'
            | (Err e, env') => (Some (Api e), created, env')
            end
        end
  end.

Inductive outcome : Type :=
  | Fatal (e : failure) (env : Env World)               (* thrown before the loop *)
  | Failed (e : failure) (created : nat) (env : Env World)
  | Done (created : nat) (env : Env World).

(** [main], from the file as it is found ([None]: it cannot be read or
    parsed) and the world [w]. *)
Definition main (file : option SentencesDoc) (w : World) : outcome :=
  let env0 := mkEnv w [] in
  match file with
  | None => Fatal ReadError env0
  | Some doc =>
      match truthy_str (sent_class doc), sentences doc with
      | true, Some todo =>
          let deckName := String.append (sent_class doc) "_S" in
          let found :=
            match findDeckByName svc deckName env0 with
            | (Ok (Some deck), env') => (Ok deck, env')
            | (Ok None, env') => createDeck deckName (MASTER_SENTENCE_DECK_ID cfg) env'
            | (Err e, env') => (Err e, env')
            end in
          match found with
          | (Err e, env1) => Fatal (Api e) env1
          | (Ok deck, env1) =>
              match for_each (deck_id deck) todo 0 env1 with
              | (None, created, env2) => Done created env2
              | (Some e, created, env2) => Failed e created env2
              end
          end
      | _, _ => Fatal InvalidFile env0
      end
  end.

(** The world and trace an outcome ends with. *)
Definition outcome_env (o : outcome) : Env World :=
  match o with
  | Fatal _ env | Failed _ _ env | Done _ env => env
  end.

End Engine.

(** The body of the card of a sentence whose hints render. *)
Definition sentence_body (cfg : Config) (deckId : string) (s : Sentence) : CardBody :=
  card_body cfg deckId (en s)
    (match renderHints (hints s) with inr text => text | inl _ => "" end) (pt s).

Definition wellformed (s : Sentence) : Prop :=
  en s <> "" /\ pt s <> "" /\ is_Some (hints s).

Definition is_brace (c : ascii) : bool := Ascii.eqb c "{" || Ascii.eqb c "}".

(** Every brace of [s] comes right after a backslash; [after_backslash]
    tells whether the character before [s] is one. *)
Fixpoint braces_escaped (after_backslash : bool) (s : string) : bool :=
  match s with
  | EmptyString => true
  | String c s' =>
      (negb (is_brace c) || after_backslash) && braces_escaped (Ascii.eqb c "\") s'
  end.

Fixpoint no_brace (s : string) : bool :=
  match s with
  | EmptyString => true
  | String c s' => negb (is_brace c) && no_brace s'
  end.

End Sentences.

(** Two sentences, the second one without a translation. *)
Definition sentences_001 : Sentences.SentencesDoc :=
  Sentences.mkSentencesDoc "001"
    (Some [Sentences.mkSentence "Good morning" "Bom dia"
             (Some [Sentences.mkHint "bom dia" "A" (Some "good {morning}")]);
           Sentences.mkSentence "Thanks" "" (Some [])]).

(** One sentence, complete. *)
Definition sentences_002 : Sentences.SentencesDoc :=
  Sentences.mkSentencesDoc "002"
    (Some [Sentences.mkSentence "Good morning" "Bom dia"
             (Some [Sentences.mkHint "bom dia" "A" (Some "good {morning}")])]).

Definition sentence_config : Sentences.Config :=
  Sentences.mkConfig "tmpl" "en" "hints" "pt" "" false.

Definition vocab_and_sentence_env (dry : string) : gmap string string :=
  list_to_map
    [("MOCHI_API_KEY", "key"); ("VOCAB_TEMPLATE_ID", "vt"); ("VOCAB_FIELD_TERM_ID", "term");
     ("VOCAB_FIELD_MEANING_ID", "meaning"); ("SENT_TEMPLATE_ID", "st");
     ("SENT_FIELD_EN_ID", "en"); ("SENT_FIELD_HINTS_ID", "hints");
     ("SENT_FIELD_PT_ID", "pt"); ("DRY_RUN", dry)].

(** * Properties *)

(** ** The string primitives on small inputs *)

Example trim_both_ends : trim "  a b  " = "a b" ∧ trim "   " = "" ∧ trim "" = "".
Proof. repeat split. Qed.

Example replace_ws_runs : replace_ws false "um  dia de  sol" = "um_dia_de_sol".
Proof. reflexivity. Qed.

Example union_first_occurrences :
  union ["b"; ""; "a"] ["a"; "c"; "b"] = ["b"; "a"; "c"].
Proof. vm_compute. reflexivity. Qed.

Example sort_is_stable :
  sort (fun a b : string * nat => codeunit_compare a.1 b.1)
    [("b", 0); ("a", 1); ("b", 2); ("a", 3)]
  = [("a", 1); ("a", 3); ("b", 0); ("b", 2)].
Proof. reflexivity. Qed.

(** ** Variant union *)

Lemma truthy_str_true (s : string) : truthy_str s = true ↔ s ≠ "".
Proof. destruct s; simpl; split; intros; congruence. Qed.

Lemma truthy_str_false (s : string) : truthy_str s = false ↔ s = "".
Proof. destruct s; simpl; split; intros; congruence. Qed.

Lemma filter_Forall_id {A} (P : A → Prop) `{!∀ x, Decision (P x)} (l : list A) :
  Forall P l → filter P l = l.
Proof.
  induction 1 as [|x l Hx Hl IH]; [done|].
  by rewrite filter_cons_True, IH.
Qed.

Lemma set_from_app (acc l1 l2 : list string) :
  set_from acc (l1 ++ l2) = set_from (set_from acc l1) l2.
Proof. revert acc. induction l1 as [|x l1 IH]; intros acc; simpl; [done|apply IH]. Qed.

Lemma set_from_known (acc l : list string) :
  (∀ x, x ∈ l → x ∈ acc) → set_from acc l = acc.
Proof.
  induction l as [|x l IH]; intros Hin; simpl; [done|].
  rewrite bool_decide_eq_true_2 by (apply Hin; left).
  apply IH. intros y Hy. apply Hin. by right.
Qed.

Lemma set_from_elem (acc l : list string) (x : string) :
  x ∈ set_from acc l ↔ x ∈ acc ∨ x ∈ l.
Proof.
  revert acc. induction l as [|y l IH]; intros acc; simpl.
  - rewrite elem_of_nil. tauto.
  - rewrite IH, elem_of_cons. case_bool_decide.
    + split; [tauto|]. intros [?|[->|?]]; auto.
    + rewrite elem_of_app, list_elem_of_singleton. tauto.
Qed.

Lemma set_from_NoDup (acc l : list string) :
  NoDup acc → NoDup (set_from acc l).
Proof.
  revert acc. induction l as [|y l IH]; intros acc Hacc; simpl; [done|].
  apply IH. case_bool_decide; [done|].
  apply NoDup_app. split_and!; [done| |apply NoDup_singleton].
  intros z Hz ->%list_elem_of_singleton. done.
Qed.

Lemma dedup_filter (P : string → Prop) `{!∀ x, Decision (P x)} (l : list string) :
  dedup (filter P l) = filter P (dedup l).
Proof.
  induction l as [|x l IH]; [done|].
  rewrite filter_cons. destruct (decide (P x)) as [HP|HP]; simpl.
  - rewrite filter_cons, decide_True by done. f_equal.
    rewrite IH, !list_filter_filter.
    apply list_filter_iff. intros y. tauto.
  - rewrite filter_cons, decide_False by done. rewrite IH.
    rewrite list_filter_filter. apply list_filter_iff.
    intros y. split; [|tauto]. intros Hy. split; [done|]. by intros ->.
Qed.

Lemma set_from_dedup (acc l : list string) :
  set_from acc l = acc ++ dedup (filter (fun x => x ∉ acc) l).
Proof.
  revert acc. induction l as [|x l IH]; intros acc; simpl.
  - by rewrite app_nil_r.
  - rewrite filter_cons. case_bool_decide as Hx.
    + rewrite decide_False by tauto. apply IH.
    + rewrite decide_True by done. rewrite IH. simpl.
      rewrite <- app_assoc. simpl. do 2 f_equal.
      rewrite <- dedup_filter. f_equal.
      rewrite list_filter_filter. apply list_filter_iff.
      intros y. rewrite elem_of_app, list_elem_of_singleton. tauto.
Qed.

Lemma dedup_elem (l : list string) (x : string) : x ∈ dedup l ↔ x ∈ l.
Proof.
  induction l as [|y l IH]; simpl; [done|].
  rewrite !elem_of_cons, list_elem_of_filter, IH.
  destruct (decide (x = y)); tauto.
Qed.

Lemma dedup_NoDup (l : list string) : NoDup (dedup l).
Proof.
  induction l as [|y l IH]; simpl; constructor.
  - rewrite list_elem_of_filter. tauto.
  - by apply NoDup_filter.
Qed.

Lemma dedup_sublist (l : list string) : sublist (dedup l) l.
Proof.
  induction l as [|y l IH]; simpl; [done|].
  apply sublist_skip. etrans; [apply sublist_filter|done].
Qed.

Lemma dedup_id (l : list string) : NoDup l → dedup l = l.
Proof.
  induction 1 as [|x l Hx Hl IH]; simpl; [done|].
  rewrite IH. f_equal. apply filter_Forall_id.
  apply Forall_forall. intros y Hy ->. done.
Qed.

Lemma union_dedup (a b : list string) :
  union a b = dedup (filter (fun x => truthy_str x = true) (a ++ b)).
Proof.
  unfold union. rewrite set_from_dedup. simpl.
  f_equal. rewrite filter_Forall_id; [done|].
  apply Forall_forall. intros x _. apply not_elem_of_nil.
Qed.

Lemma union_elem (a b : list string) (x : string) :
  x ∈ union a b ↔ (x ∈ a ∨ x ∈ b) ∧ x ≠ "".
Proof.
  rewrite union_dedup, dedup_elem, list_elem_of_filter, elem_of_app.
  rewrite truthy_str_true. tauto.
Qed.

Lemma union_NoDup (a b : list string) : NoDup (union a b).
Proof. rewrite union_dedup. apply dedup_NoDup. Qed.

(** C8. Read as sets, [union] is commutative and idempotent; on its own
    results it is idempotent even as a list.  The union of the empty list
    with [l] is [l] without its empty strings and without its repeated
    elements, each kept at its first occurrence; a list that has neither
    comes back unchanged. *)
Theorem union_laws (a b l : list string) :
  (∀ x, x ∈ union a b ↔ x ∈ union b a)
  ∧ (∀ x, x ∈ union a a ↔ x ∈ a ∧ x ≠ "")
  ∧ union (union a b) (union a b) = union a b
  ∧ union [] l = dedup (filter (fun x => x ≠ "") l)
  ∧ union l [] = union [] l
  ∧ NoDup (union [] l)
  ∧ (∀ x, x ∈ union [] l ↔ x ∈ l ∧ x ≠ "")
  ∧ sublist (union [] l) l
  ∧ (NoDup l → "" ∉ l → union [] l = l).
Proof.
  assert (Hne : ∀ l' : list string, filter (fun x => truthy_str x = true) l' = filter (fun x => x ≠ "") l').
  { intros l'. apply list_filter_iff. intros x. apply truthy_str_true. }
  assert (Hid : ∀ l', NoDup l' → "" ∉ l' → union [] l' = l').
  { intros l' Hnd Hemp. rewrite union_dedup. simpl.
    rewrite filter_Forall_id, dedup_id; [done..|].
    apply Forall_forall. intros x Hx. apply truthy_str_true. by intros ->. }
  split_and!.
  - intros x. rewrite !union_elem. tauto.
  - intros x. rewrite union_elem. tauto.
  - set (u := union a b).
    assert (Hu : NoDup u) by apply union_NoDup.
    assert (He : "" ∉ u) by (unfold u; rewrite union_elem; tauto).
    unfold union at 1. rewrite filter_app.
    rewrite set_from_app.
    rewrite (filter_Forall_id _ u).
    2:{ apply Forall_forall. intros x Hx. apply truthy_str_true. by intros ->. }
    pose proof (Hid u Hu He) as Hid'. unfold union in Hid'. simpl in Hid'.
    rewrite (filter_Forall_id _ u) in Hid'.
    2:{ apply Forall_forall. intros x Hx. apply truthy_str_true. by intros ->. }
    rewrite Hid'. by apply set_from_known.
  - rewrite union_dedup. simpl. by rewrite Hne.
  - unfold union. by rewrite app_nil_r.
  - apply union_NoDup.
  - intros x. rewrite union_elem, elem_of_nil. tauto.
  - rewrite union_dedup. simpl. etrans; [apply dedup_sublist|apply sublist_filter].
  - apply Hid.
Qed.

(** ** Validation *)

Lemma validateLibraryEntries_ok (i : nat) (seen : gset string) (es : list value) :
  validateLibraryEntries i seen es = Ok tt ↔
  forallb entry_wellformed es = true ∧ NoDup (key_of <$> es)
  ∧ ∀ k, k ∈ key_of <$> es → k ∉ seen.
Proof.
  revert i seen. induction es as [|e es IH]; intros i seen; simpl.
  - split; [|done]. intros _. split_and!; [done|constructor|].
    intros k Hk. by apply elem_of_nil in Hk.
  - rewrite NoDup_cons.
    destruct e as [| | | | |props]; simpl;
      try (split; [discriminate|intros [? _]; discriminate]).
    destruct (nonempty_string (assoc "chunk" props)); simpl;
      [|split; [discriminate|intros [? _]; discriminate]].
    destruct (is_string (assoc "id" props)); simpl;
      [|split; [discriminate|intros [? _]; discriminate]].
    destruct (is_array (assoc "variants" props)); simpl;
      [|split; [discriminate|intros [? _]; discriminate]].
    case_bool_decide as Hseen.
    + split; [discriminate|]. intros (_ & _ & Hk). exfalso.
      apply (Hk _ (list_elem_of_here _ _)), Hseen.
    + rewrite IH. split.
      * intros (Hwf & Hnd & Hk). split_and!; [done| |done|].
        -- intros Hin. apply (Hk _ Hin). set_solver.
        -- intros k [->|Hin]%elem_of_cons; [done|].
           specialize (Hk _ Hin). set_solver.
      * intros (Hwf & [Hnin Hnd] & Hk). split_and!; [done..|].
        intros k Hin. specialize (Hk k (list_elem_of_further _ _ _ Hin)).
        assert (k ≠ trim (str_of (assoc "chunk" props))) by (by intros ->).
        set_solver.
Qed.

Lemma validateClassEntries_ok (i : nat) (seen : gset string) (es : list value) :
  validateClassEntries i seen es = Ok tt ↔
  forallb unit_wellformed es = true ∧ NoDup (key_of <$> es)
  ∧ ∀ k, k ∈ key_of <$> es → k ∉ seen.
Proof.
  revert i seen. induction es as [|e es IH]; intros i seen; simpl.
  - split; [|done]. intros _. split_and!; [done|constructor|].
    intros k Hk. by apply elem_of_nil in Hk.
  - rewrite NoDup_cons.
    destruct e as [| | | | |props]; simpl;
      try (split; [discriminate|intros [? _]; discriminate]).
    destruct (nonempty_string (assoc "chunk" props)); simpl;
      [|split; [discriminate|intros [? _]; discriminate]].
    destruct (is_string (assoc "id" props)); simpl;
      [|split; [discriminate|intros [? _]; discriminate]].
    destruct (is_array (assoc "variants" props)); simpl;
      [|split; [discriminate|intros [? _]; discriminate]].
    destruct (absent_or_string (assoc "obs" props)); simpl;
      [|split; [discriminate|intros [? _]; discriminate]].
    destruct (absent_or_string (assoc "meaning" props)); simpl;
      [|split; [discriminate|intros [? _]; discriminate]].
    case_bool_decide as Hseen.
    + split; [discriminate|]. intros (_ & _ & Hk). exfalso.
      apply (Hk _ (list_elem_of_here _ _)), Hseen.
    + rewrite IH. split.
      * intros (Hwf & Hnd & Hk). split_and!; [done| |done|].
        -- intros Hin. apply (Hk _ Hin). set_solver.
        -- intros k [->|Hin]%elem_of_cons; [done|].
           specialize (Hk _ Hin). set_solver.
      * intros (Hwf & [Hnin Hnd] & Hk). split_and!; [done..|].
        intros k Hin. specialize (Hk k (list_elem_of_further _ _ _ Hin)).
        assert (k ≠ trim (str_of (assoc "chunk" props))) by (by intros ->).
        set_solver.
Qed.

Lemma result_unit_cases (r : result unit) : r = Ok tt ∨ ∃ e, r = Err e.
Proof. destruct r as [[]|e]; eauto. Qed.

Lemma validateClassDoc_ok (doc : value) :
  validateClassDoc doc = Ok tt ↔ classDoc_wellformed doc = true.
Proof.
  unfold validateClassDoc, classDoc_wellformed.
  destruct doc as [|b|n|s|items|props]; simpl; try (split; discriminate).
  - destruct b; split; discriminate.
  - destruct (negb _); split; discriminate.
  - destruct (truthy_str s); split; discriminate.
  - destruct (nonempty_string (assoc "class" props)); simpl; [|split; discriminate].
    destruct (assoc "entries" props) as [[| | | |es|]|]; try (split; discriminate).
    rewrite validateClassEntries_ok, andb_true_iff, bool_decide_eq_true.
    split; [tauto|]. intros [? ?]. split_and!; [done..|].
    intros k _. apply not_elem_of_empty.
Qed.

Lemma validateLibrary_cases (lib : value) :
  (registry_wellformed lib = true ∧ validateLibrary lib = Ok lib)
  ∨ (registry_wellformed lib = false
     ∧ (validateLibrary lib = Ok emptyLibrary ∨ ∃ e, validateLibrary lib = Err e)).
Proof.
  unfold validateLibrary, registry_wellformed.
  destruct lib as [|b|n|s|items|props]; simpl; try (right; split; [done|by left]).
  - destruct b; right; split; done || by left.
  - destruct (negb _); right; split; done || by left.
  - destruct (truthy_str s); right; split; done || by left.
  - destruct (assoc "entries" props) as [[| | | |es|]|];
      try (right; split; [done|by left]).
    destruct (result_unit_cases (validateLibraryEntries 0 ∅ es)) as [Hok|[e He]].
    + left. rewrite Hok. split; [|done].
      apply validateLibraryEntries_ok in Hok as (? & ? & _).
      rewrite andb_true_iff, bool_decide_eq_true. done.
    + right. rewrite He. simpl. split; [|right; eauto].
      apply not_true_is_false. rewrite andb_true_iff, bool_decide_eq_true.
      intros [? ?].
      assert (validateLibraryEntries 0 ∅ es = Ok tt) as Hok; [|congruence].
      apply validateLibraryEntries_ok. split_and!; [done..|].
      intros k _. apply not_elem_of_empty.
Qed.

Lemma load_library_wellformed (lib : value) :
  registry_wellformed lib = true → load_library (Ok lib) = lib.
Proof.
  intros Hwf. unfold load_library. simpl.
  destruct (validateLibrary_cases lib) as [[_ ->]|[? _]]; [done|congruence].
Qed.

Lemma load_library_unusable (libFile : file) :
  unusable registry_wellformed libFile → load_library libFile = emptyLibrary.
Proof.
  destruct libFile as [lib|e]; simpl; [|done].
  intros Hwf. unfold load_library. simpl.
  destruct (validateLibrary_cases lib) as [[? _]|[_ [->|[e ->]]]]; [congruence|done..].
Qed.

(** ** The loop, one entry at a time *)

Section Steps.
Context {World : Type} (svc : Service World) (cfg : Config) (deckId : string).

Local Abbreviation body := (step svc cfg deckId).
Local Abbreviation loop := (for_each svc cfg deckId).
Local Abbreviation run := (reconcile svc cfg deckId).

Lemma for_each_app (l1 l2 : list nat) (st : State World) :
  loop (l1 ++ l2) st =
  match loop l1 st with
  | Continue st' => loop l2 st'
  | Throw e st' => Throw e st'
  end.
Proof.
  revert st. induction l1 as [|i l1 IH]; intros st; simpl; [done|].
  destruct (body i st); [apply IH|done].
Qed.

Lemma for_each_snoc (k : nat) (st0 sk : State World) :
  loop (seq 0 k) st0 = Continue sk →
  loop (seq 0 (S k)) st0 = body k sk.
Proof.
  intros Hk. rewrite seq_S, for_each_app, Hk. simpl.
  by destruct (body k sk).
Qed.

Lemma lookup_lib_Some (st : State World) (c : string) (j : nat) (le : Entry) :
  lookup_lib st c = Some (j, le) ↔
  libMap st !! c = Some j ∧ lib_entries (lib st) !! j = Some le.
Proof.
  unfold lookup_lib. destruct (libMap st !! c) as [j'|]; simpl; [|naive_solver].
  destruct (lib_entries (lib st) !! j') as [e|] eqn:He; simpl; naive_solver.
Qed.

Lemma persist_classDoc (st : State World) : classDoc (persist cfg st) = classDoc st.
Proof. unfold persist. by destruct (DRY_RUN cfg). Qed.

Lemma persist_lib (st : State World) : lib (persist cfg st) = lib st.
Proof. unfold persist. by destruct (DRY_RUN cfg). Qed.

Lemma persist_libMap (st : State World) : libMap (persist cfg st) = libMap st.
Proof. unfold persist. by destruct (DRY_RUN cfg). Qed.

Lemma persist_created (st : State World) : created (persist cfg st) = created st.
Proof. unfold persist. by destruct (DRY_RUN cfg). Qed.

Lemma persist_skipped (st : State World) :
  skippedExisting (persist cfg st) = skippedExisting st.
Proof. unfold persist. by destruct (DRY_RUN cfg). Qed.

Lemma persist_world (st : State World) : world (env (persist cfg st)) = world (env st).
Proof. unfold persist. by destruct (DRY_RUN cfg). Qed.

Lemma persist_trace (st : State World) :
  trace (env (persist cfg st)) =
  trace (env st) ++
    (if DRY_RUN cfg then []
     else [Saved (classPath cfg) (json_of_classDoc (classDoc st));
           Saved (libPath cfg) (json_of_library (lib st))]).
Proof.
  unfold persist. destruct (DRY_RUN cfg); simpl; [by rewrite app_nil_r|].
  by rewrite <- app_assoc.
Qed.

Lemma trim_empty_id (s : string) : trim s ≠ "" → s ≠ "".
Proof. by intros H ->. Qed.

Lemma has_id_true (j : nat) (le : Entry) :
  has_id (Some (j, le)) = true ↔ trim (id le) ≠ "".
Proof.
  unfold has_id. rewrite andb_true_iff, !truthy_str_true.
  split; [tauto|]. intros H. split; [by apply trim_empty_id|done].
Qed.

Lemma has_id_false (j : nat) (le : Entry) :
  has_id (Some (j, le)) = false ↔ trim (id le) = "".
Proof.
  rewrite <- not_true_iff_false, has_id_true.
  destruct (decide (trim (id le) = "")); tauto.
Qed.

Lemma id_conflict_true (j : nat) (le entry : Entry) :
  id_conflict (Some (j, le)) entry = true ↔
  id le ≠ "" ∧ trim (id entry) ≠ "" ∧ id entry ≠ id le.
Proof.
  unfold id_conflict.
  rewrite !andb_true_iff, negb_true_iff, bool_decide_eq_false, !truthy_str_true.
  split; [tauto|]. intros (? & ? & ?). split_and!; auto using trim_empty_id.
Qed.

Lemma registered_chunk (le entry : Entry) (cardId : string) :
  chunk (registered le entry cardId) = chunk le.
Proof. unfold registered. by destruct (meaning entry), (obs entry). Qed.

Lemma registered_id (le entry : Entry) (cardId : string) :
  id (registered le entry cardId) = cardId.
Proof. unfold registered. by destruct (meaning entry), (obs entry). Qed.

Lemma registered_variants (le entry : Entry) (cardId : string) :
  variants (registered le entry cardId) = union (variants le) (variants entry).
Proof. unfold registered. by destruct (meaning entry), (obs entry). Qed.

Lemma registered_meaning (le entry : Entry) (cardId : string) :
  meaning (registered le entry cardId) = from_option Some (meaning le) (meaning entry).
Proof. unfold registered. by destruct (meaning entry), (obs entry). Qed.

Lemma registered_obs (le entry : Entry) (cardId : string) :
  obs (registered le entry cardId) = from_option Some (obs le) (obs entry).
Proof. unfold registered. by destruct (meaning entry), (obs entry). Qed.

(** The three ways through the loop body. *)
Lemma step_conflict (i j : nat) (st : State World) (entry le : Entry) :
  doc_entries (classDoc st) !! i = Some entry →
  lookup_lib st (chunk entry) = Some (j, le) →
  id le ≠ "" → trim (id entry) ≠ "" → id entry ≠ id le →
  body i st = Throw (IdConflict (chunk entry) (id entry) (id le)) st.
Proof.
  intros Hi Hl H1 H2 H3. unfold step. rewrite Hi. cbv zeta. rewrite Hl.
  by rewrite (proj2 (id_conflict_true j le entry)).
Qed.

Lemma step_hit (i j : nat) (st : State World) (entry le : Entry) :
  doc_entries (classDoc st) !! i = Some entry →
  lookup_lib st (chunk entry) = Some (j, le) →
  trim (id le) ≠ "" →
  trim (id entry) = "" ∨ id entry = id le →
  body i st = Continue (skip_existing i entry j le st).
Proof.
  intros Hi Hl H1 H2. unfold step. rewrite Hi. cbv zeta. rewrite Hl.
  destruct (id_conflict (Some (j, le)) entry) eqn:Hc.
  { apply id_conflict_true in Hc. naive_solver. }
  by rewrite (proj2 (has_id_true j le)).
Qed.

Lemma step_miss (i : nat) (st : State World) (entry : Entry) :
  doc_entries (classDoc st) !! i = Some entry →
  has_id (lookup_lib st (chunk entry)) = false →
  id_conflict (lookup_lib st (chunk entry)) entry = false →
  body i st =
  match createVocabCard svc cfg deckId entry (env st) with
  | (Ok cardId, env') =>
      Continue (register_card cfg i entry (lookup_lib st (chunk entry)) cardId env' st)
  | (Err e, env') =>
      Throw e (mkState (classDoc st) (lib st) (libMap st)
                 (skippedExisting st) (created st) env')
  end.
Proof.
  intros Hi Hh Hc. unfold step. rewrite Hi. cbv zeta. by rewrite Hc, Hh.
Qed.

Lemma step_length (i : nat) (st : State World) :
  match body i st with
  | Continue st' | Throw _ st' =>
      length (doc_entries (classDoc st')) = length (doc_entries (classDoc st))
  end.
Proof.
  unfold step. destruct (doc_entries (classDoc st) !! i) as [entry|]; [|done].
  cbv zeta. destruct (id_conflict _ _); [done|].
  destruct (has_id _).
  { destruct (lookup_lib _ _) as [[j le]|]; [|done].
    simpl. by rewrite length_insert. }
  destruct (createVocabCard _ _ _ _ _) as [[cardId|e] env']; [|done].
  unfold register_card. destruct (lookup_lib _ _) as [[j le]|];
    rewrite persist_classDoc; simpl; by rewrite length_insert.
Qed.

Lemma for_each_length (todo : list nat) (st : State World) :
  match loop todo st with
  | Continue st' | Throw _ st' =>
      length (doc_entries (classDoc st')) = length (doc_entries (classDoc st))
  end.
Proof.
  revert st. induction todo as [|i todo IH]; intros st; simpl; [done|].
  pose proof (step_length i st) as Hs. destruct (body i st) as [st'|e st']; [|done].
  specialize (IH st'). destruct (loop todo st'); congruence.
Qed.

Lemma reconcile_split (k : nat) (st0 sk : State World) :
  loop (seq 0 k) st0 = Continue sk →
  k < length (doc_entries (classDoc sk)) →
  run st0 =
  match body k sk with
  | Continue st' => loop (seq (S k) (length (doc_entries (classDoc st0)) - S k)) st'
  | Throw e st' => Throw e st'
  end.
Proof.
  intros Hk Hlt. pose proof (for_each_length (seq 0 k) st0) as Hlen.
  rewrite Hk in Hlen. unfold reconcile.
  replace (length (doc_entries (classDoc st0)))
    with (k + S (length (doc_entries (classDoc st0)) - S k)) at 1 by lia.
  rewrite seq_app, for_each_app, Hk. simpl. done.
Qed.

(** C1 (amended). When the loop reaches an entry whose chunk the library
    holds with a non-empty id, and the entry's own id is non-empty after
    trimming and differs from it, the run throws the conflict error with
    the state exactly as the earlier entries left it: nothing is created or
    written for this entry, no later entry is visited, and what the earlier
    entries did to the documents, to the files and to Mochi stands. *)
Theorem conflict_aborts_run (st0 sk : State World) (k j : nat) (entry le : Entry) :
  loop (seq 0 k) st0 = Continue sk →
  doc_entries (classDoc sk) !! k = Some entry →
  lookup_lib sk (chunk entry) = Some (j, le) →
  id le ≠ "" → trim (id entry) ≠ "" → id entry ≠ id le →
  run st0 = Throw (IdConflict (chunk entry) (id entry) (id le)) sk.
Proof.
  intros Hk Hi Hl H1 H2 H3.
  rewrite (reconcile_split k st0 sk Hk); [|by eapply lookup_lt_Some].
  by rewrite (step_conflict k j sk entry le).
Qed.

(** C3 (amended). When the loop reaches an entry whose chunk the library
    holds with an id that is non-empty after trimming, and there is no
    conflict, the entry's id becomes the library's, the library entry's
    variants become the union of its own with the entry's, the chunk is
    appended to the skipped list, and nothing else changes: no call to
    Mochi, no file written, no card counted. *)
Theorem cache_hit_backfills (st0 sk : State World) (k j : nat) (entry le : Entry) :
  loop (seq 0 k) st0 = Continue sk →
  doc_entries (classDoc sk) !! k = Some entry →
  lookup_lib sk (chunk entry) = Some (j, le) →
  trim (id le) ≠ "" →
  trim (id entry) = "" ∨ id entry = id le →
  ∃ sk', loop (seq 0 (S k)) st0 = Continue sk'
    ∧ doc_entries (classDoc sk') = <[k := set_id entry (id le)]> (doc_entries (classDoc sk))
    ∧ lib_entries (lib sk') =
        <[j := set_variants le (union (variants le) (variants entry))]>
          (lib_entries (lib sk))
    ∧ skippedExisting sk' = skippedExisting sk ++ [chunk entry]
    ∧ env sk' = env sk
    ∧ created sk' = created sk
    ∧ libMap sk' = libMap sk.
Proof.
  intros Hk Hi Hl H1 H2. eexists. split_and!.
  - rewrite (for_each_snoc k st0 sk Hk). by apply step_hit.
  - done.
  - done.
  - done.
  - done.
  - done.
  - done.
Qed.

(** C4 (amended). When the loop reaches an entry whose chunk the library
    does not hold, or holds with the empty id, [createVocabCard] is called
    and, when it returns an id, that id becomes the entry's; a missing
    library entry is created with no variants and pushed (and entered in
    the map); the library entry gets the id and the union of its variants
    with the entry's; the created counter goes up by one.  Unless DRY_RUN
    is set, the call is a [POST /cards] and both documents are then
    written, the class file first; under DRY_RUN nothing is posted and
    nothing is written. *)
Theorem cache_miss_registers (st0 sk : State World) (k : nat) (entry : Entry)
    (cardId : string) (env' : Env World) :
  loop (seq 0 k) st0 = Continue sk →
  doc_entries (classDoc sk) !! k = Some entry →
  (lookup_lib sk (chunk entry) = None
   ∨ ∃ j le, lookup_lib sk (chunk entry) = Some (j, le) ∧ id le = "") →
  createVocabCard svc cfg deckId entry (env sk) = (Ok cardId, env') →
  ∃ sk', loop (seq 0 (S k)) st0 = Continue sk'
    ∧ doc_entries (classDoc sk') = <[k := set_id entry cardId]> (doc_entries (classDoc sk))
    ∧ match lookup_lib sk (chunk entry) with
      | None =>
          ∃ new, lib_entries (lib sk') = lib_entries (lib sk) ++ [new]
            ∧ chunk new = chunk entry ∧ id new = cardId
            ∧ variants new = union [] (variants entry)
            ∧ libMap sk' = <[chunk entry := length (lib_entries (lib sk))]> (libMap sk)
      | Some (j, le) =>
          ∃ le', lib_entries (lib sk') = <[j := le']> (lib_entries (lib sk))
            ∧ chunk le' = chunk le ∧ id le' = cardId
            ∧ variants le' = union (variants le) (variants entry)
            ∧ libMap sk' = libMap sk
      end
    ∧ created sk' = S (created sk)
    ∧ skippedExisting sk' = skippedExisting sk
    ∧ world (env sk') = world env'
    ∧ trace (env sk') =
        trace env' ++
          (if DRY_RUN cfg then []
           else [Saved (classPath cfg) (json_of_classDoc (classDoc sk'));
                 Saved (libPath cfg) (json_of_library (lib sk'))])
    ∧ trace env' =
        trace (env sk) ++
          (if DRY_RUN cfg then [] else [POST_cards (card_body cfg deckId entry)]).
Proof.
  intros Hk Hi Hl Hc.
  assert (Hh : has_id (lookup_lib sk (chunk entry)) = false).
  { destruct Hl as [->|(j & le & -> & Hid)]; [done|].
    apply has_id_false. by rewrite Hid. }
  assert (Hn : id_conflict (lookup_lib sk (chunk entry)) entry = false).
  { destruct Hl as [->|(j & le & -> & Hid)]; [done|].
    apply not_true_is_false. rewrite id_conflict_true. tauto. }
  eexists. split.
  { rewrite (for_each_snoc k st0 sk Hk), (step_miss _ _ _ Hi Hh Hn), Hc. done. }
  assert (Htr : trace env' =
    trace (env sk) ++
      (if DRY_RUN cfg then [] else [POST_cards (card_body cfg deckId entry)])).
  { unfold createVocabCard in Hc. destruct (DRY_RUN cfg).
    - injection Hc as _ <-. by rewrite app_nil_r.
    - destruct (post_card svc _ _) as [r w']. by injection Hc as _ <-. }
  unfold register_card.
  destruct (lookup_lib sk (chunk entry)) as [[j le]|];
    rewrite persist_classDoc, persist_lib, persist_libMap, persist_created,
      persist_skipped, persist_world, persist_trace; simpl.
  - split_and!; try done. eexists. split_and!; try done;
      by rewrite ?registered_chunk, ?registered_id, ?registered_variants.
  - split_and!; try done. eexists. split_and!; try done;
      by rewrite ?registered_chunk, ?registered_id, ?registered_variants.
Qed.

(** C6 (amended). Whenever the loop gets past an entry whose chunk
    already has a library entry, that library entry's variants have become
    the union of its own with the entry's.  Its meaning and obs are
    refreshed from the entry (each only when the entry has it) on the
    creating path, that is when the library id was blank; on a cache hit
    they are left as they were. *)
Theorem encounter_updates_registry (st0 sk sk' : State World) (k j : nat)
    (entry le : Entry) :
  loop (seq 0 k) st0 = Continue sk →
  doc_entries (classDoc sk) !! k = Some entry →
  lookup_lib sk (chunk entry) = Some (j, le) →
  loop (seq 0 (S k)) st0 = Continue sk' →
  ∃ le', lib_entries (lib sk') !! j = Some le'
    ∧ variants le' = union (variants le) (variants entry)
    ∧ if decide (trim (id le) = "")
      then meaning le' = from_option Some (meaning le) (meaning entry)
           ∧ obs le' = from_option Some (obs le) (obs entry)
      else meaning le' = meaning le ∧ obs le' = obs le.
Proof.
  intros Hk Hi Hl Hk'. rewrite (for_each_snoc k st0 sk Hk) in Hk'.
  pose proof (proj1 (lookup_lib_Some _ _ _ _) Hl) as [_ Hj].
  pose proof (lookup_lt_Some _ _ _ Hj) as Hlt.
  destruct (id_conflict (lookup_lib sk (chunk entry)) entry) eqn:Hc.
  { rewrite Hl in Hc. apply id_conflict_true in Hc as (? & ? & ?).
    by rewrite (step_conflict k j sk entry le) in Hk'. }
  destruct (decide (trim (id le) = "")) as [Hblank|Hid].
  - rewrite (step_miss k sk entry Hi) in Hk'; [|rewrite Hl; by apply has_id_false|done].
    destruct (createVocabCard _ _ _ _ _) as [[cardId|e] env']; [|done].
    injection Hk' as <-. rewrite Hl. unfold register_card.
    rewrite persist_lib. simpl. rewrite list_lookup_insert_eq by done.
    eexists. split; [done|].
    by rewrite registered_variants, registered_meaning, registered_obs.
  - rewrite Hl in Hc.
    rewrite (step_hit k j sk entry le Hi Hl Hid) in Hk'.
    2:{ destruct (decide (trim (id entry) = "")); [by left|right].
        destruct (decide (id entry = id le)); [done|].
        apply not_true_iff_false in Hc. exfalso. apply Hc, id_conflict_true.
        split_and!; [by apply trim_empty_id|done..]. }
    injection Hk' as <-. simpl. rewrite list_lookup_insert_eq by done.
    eexists. done.
Qed.

(** What the loop leaves of a library entry that has an id. *)
Lemma step_keeps_chunks (i j : nat) (st : State World) (e : Entry) :
  lib_entries (lib st) !! j = Some e →
  ∃ e', lib_entries (lib (outcome_state (body i st))) !! j = Some e'
    ∧ chunk e' = chunk e
    ∧ (trim (id e) ≠ "" → id e' = id e).
Proof.
  intros Hj. unfold step.
  destruct (doc_entries (classDoc st) !! i) as [entry|]; [|by eexists].
  cbv zeta. destruct (id_conflict _ _); [by eexists|].
  destruct (lookup_lib st (chunk entry)) as [[j' le]|] eqn:Hl.
  - apply lookup_lib_Some in Hl as [_ Hj'].
    destruct (has_id _) eqn:Hh; simpl.
    + destruct (decide (j' = j)) as [->|Hne].
      * rewrite list_lookup_insert_eq by (by eapply lookup_lt_Some).
        eexists. split; [done|]. simpl. by simplify_eq.
      * rewrite list_lookup_insert_ne by done. by eexists.
    + destruct (createVocabCard _ _ _ _ _) as [[cardId|err] env']; [|by eexists].
      simpl. unfold register_card. rewrite persist_lib. simpl.
      destruct (decide (j' = j)) as [->|Hne].
      * rewrite list_lookup_insert_eq by (by eapply lookup_lt_Some).
        eexists. split; [done|]. simplify_eq. split.
        -- apply registered_chunk.
        -- intros Hid. by apply has_id_false in Hh.
      * rewrite list_lookup_insert_ne by done. by eexists.
  - simpl. destruct (createVocabCard _ _ _ _ _) as [[cardId|err] env']; [|by eexists].
    simpl. unfold register_card. rewrite persist_lib. simpl.
    rewrite lookup_app_l by (by eapply lookup_lt_Some). by eexists.
Qed.

Lemma for_each_keeps_chunks (todo : list nat) (j : nat) (st : State World) (e : Entry) :
  lib_entries (lib st) !! j = Some e →
  ∃ e', lib_entries (lib (outcome_state (loop todo st))) !! j = Some e'
    ∧ chunk e' = chunk e
    ∧ (trim (id e) ≠ "" → id e' = id e).
Proof.
  revert st e. induction todo as [|i todo IH]; intros st e Hj; simpl; [by eexists|].
  destruct (step_keeps_chunks i j st e Hj) as (e1 & H1 & Hc1 & Hi1).
  destruct (body i st) as [st1|err st1]; simpl in *; [|by eexists].
  destruct (IH st1 e1 H1) as (e2 & H2 & Hc2 & Hi2).
  exists e2. split_and!; [done|congruence|].
  intros Hid. rewrite Hi2, Hi1; [done..|]. by rewrite Hi1.
Qed.
End Steps.

(** ** The sort and the final write *)

Section SortFacts.
Context {A : Type} (cmp : A -> A -> Z).
Hypothesis cmp_total : ∀ a b, (cmp a b <= 0 ∨ cmp b a <= 0)%Z.
Hypothesis cmp_trans : ∀ a b c, (cmp a b <= 0 → cmp b c <= 0 → cmp a c <= 0)%Z.

Lemma sort_insert_perm (x : A) (l : list A) : sort_insert cmp x l ≡ₚ x :: l.
Proof.
  induction l as [|y l IH]; simpl; [done|].
  destruct (cmp x y <=? 0)%Z; [done|].
  rewrite IH. apply Permutation_swap.
Qed.

Lemma sort_perm (l : list A) : sort cmp l ≡ₚ l.
Proof.
  induction l as [|x l IH]; simpl; [done|].
  by rewrite sort_insert_perm, IH.
Qed.

Lemma sort_insert_sorted (x : A) (l : list A) :
  StronglySorted (ascending cmp) l → StronglySorted (ascending cmp) (sort_insert cmp x l).
Proof.
  induction 1 as [|y l Hl IH Hy]; simpl.
  - repeat constructor.
  - destruct (cmp x y <=? 0)%Z eqn:Hxy.
    + apply Z.leb_le in Hxy. constructor; [by constructor|].
      constructor; [done|].
      eapply Forall_impl; [exact Hy|]. intros z Hz. by eapply cmp_trans.
    + apply Z.leb_gt in Hxy. constructor; [done|].
      rewrite sort_insert_perm. constructor; [|done].
      destruct (cmp_total y x); [done|lia].
Qed.

Lemma sort_sorted (l : list A) : StronglySorted (ascending cmp) (sort cmp l).
Proof.
  induction l as [|x l IH]; simpl; [constructor|by apply sort_insert_sorted].
Qed.
End SortFacts.

Section Finish.
Context {World : Type} (svc : Service World).
Context (localeCompare : string -> string -> Z) (cfg : Config).

Lemma finish_classDoc (st : State World) :
  classDoc (finish localeCompare cfg st) = classDoc st.
Proof. unfold finish. by rewrite persist_classDoc. Qed.

Lemma finish_lib_entries (st : State World) :
  lib_entries (lib (finish localeCompare cfg st)) =
  sort (fun a b => localeCompare (chunk a) (chunk b)) (lib_entries (lib st)).
Proof. unfold finish. by rewrite persist_lib. Qed.

Lemma finish_lib_version (st : State World) :
  lib_version (lib (finish localeCompare cfg st)) = lib_version (lib st).
Proof. unfold finish. by rewrite persist_lib. Qed.

Lemma finish_created (st : State World) :
  created (finish localeCompare cfg st) = created st.
Proof. unfold finish. by rewrite persist_created. Qed.

Lemma finish_skipped (st : State World) :
  skippedExisting (finish localeCompare cfg st) = skippedExisting st.
Proof. unfold finish. by rewrite persist_skipped. Qed.

Lemma finish_perm (st : State World) :
  lib_entries (lib (finish localeCompare cfg st)) ≡ₚ lib_entries (lib st).
Proof. rewrite finish_lib_entries. apply sort_perm. Qed.

Lemma finish_trace (st : State World) :
  trace (env (finish localeCompare cfg st)) =
  trace (env st) ++
    (if DRY_RUN cfg then []
     else [Saved (classPath cfg) (json_of_classDoc (classDoc (finish localeCompare cfg st)));
           Saved (libPath cfg) (json_of_library (lib (finish localeCompare cfg st)))]).
Proof.
  unfold finish. rewrite persist_trace, persist_classDoc, persist_lib. done.
Qed.

(** How a run that ends normally went. *)
Lemma main_Done_inv (classFile libFile : file) (w : World) (st : State World) :
  main svc localeCompare cfg classFile libFile w = Done st →
  ∃ classJson doc l deck env1 stL,
    classFile = Ok classJson
    ∧ validateClassDoc classJson = Ok tt
    ∧ classDoc_of_json classJson = Some doc
    ∧ library_of_json (load_library libFile) = Some l
    ∧ resolve_deck svc cfg (String.append (doc_class doc) "_V") (mkEnv w []) = (Ok deck, env1)
    ∧ reconcile svc cfg (deck_id deck) (initial doc l env1) = Continue stL
    ∧ st = finish localeCompare cfg stL.
Proof.
  unfold main. intros H.
  destruct classFile as [classJson|]; [|done].
  destruct (validateClassDoc classJson) as [[]|] eqn:Hv; [|done].
  destruct (classDoc_of_json classJson) as [doc|] eqn:Hd; [|done].
  destruct (library_of_json (load_library libFile)) as [l|] eqn:Hl; [|done].
  destruct (resolve_deck _ _ _ _) as [[deck|] env1] eqn:Hr; [|done].
  destruct (reconcile _ _ _ _) as [stL|] eqn:Hrec; [|done].
  injection H as <-. by exists classJson, doc, l, deck, env1, stL.
Qed.

(** Under DRY_RUN the loop leaves the trace alone. *)
Lemma step_dry_trace (deckId : string) (i : nat) (st : State World) :
  DRY_RUN cfg = true →
  trace (env (outcome_state (step svc cfg deckId i st))) = trace (env st).
Proof.
  intros Hdry. unfold step.
  destruct (doc_entries (classDoc st) !! i) as [entry|]; [|done].
  cbv zeta. destruct (id_conflict _ _); [done|].
  destruct (has_id _).
  { by destruct (lookup_lib _ _) as [[j le]|]. }
  unfold createVocabCard. rewrite Hdry. simpl.
  unfold register_card. destruct (lookup_lib _ _) as [[j le]|];
    rewrite persist_trace, Hdry; simpl; by rewrite app_nil_r.
Qed.

Lemma for_each_dry_trace (deckId : string) (todo : list nat) (st : State World) :
  DRY_RUN cfg = true →
  trace (env (outcome_state (for_each svc cfg deckId todo st))) = trace (env st).
Proof.
  intros Hdry. revert st. induction todo as [|i todo IH]; intros st; simpl; [done|].
  pose proof (step_dry_trace deckId i st Hdry) as Hs.
  destruct (step svc cfg deckId i st) as [st'|e st']; simpl in *; [|done].
  by rewrite IH.
Qed.

Lemma resolve_deck_dry_trace (name : string) (env0 env1 : Env World) (r : result Deck) :
  DRY_RUN cfg = true →
  resolve_deck svc cfg name env0 = (r, env1) →
  trace env1 = trace env0 ++ [GET_decks].
Proof.
  intros Hdry. unfold resolve_deck, findDeckByName, listDecks, createDeck.
  destruct (get_decks svc (world env0)) as [[decks|e] w1]; simpl.
  - destruct (List.find _ decks); [by intros [= _ <-]|].
    rewrite Hdry. by intros [= _ <-].
  - by intros [= _ <-].
Qed.

(** C7 (amended). For a comparator that is total and transitive, a run
    that ends normally leaves the library entries in ascending order of
    chunk: they are the entries the loop left, none lost and none added,
    reordered by the sort.  Unless DRY_RUN is set, the last two things the
    run does are the writes of the class document and of the sorted library,
    in that order; under DRY_RUN the run writes nothing at all. *)
Theorem library_sorted_then_saved (classFile libFile : file) (w : World)
    (st : State World) :
  (∀ a b, (localeCompare a b <= 0 ∨ localeCompare b a <= 0)%Z) →
  (∀ a b c, (localeCompare a b <= 0 → localeCompare b c <= 0 → localeCompare a c <= 0)%Z) →
  main svc localeCompare cfg classFile libFile w = Done st →
  StronglySorted (ascending (by_chunk localeCompare)) (lib_entries (lib st))
  ∧ (∃ deckId st0 stL,
       reconcile svc cfg deckId st0 = Continue stL
       ∧ st = finish localeCompare cfg stL
       ∧ lib_entries (lib st) ≡ₚ lib_entries (lib stL))
  ∧ if DRY_RUN cfg
    then forallb (fun ev => negb (is_save ev)) (trace (env st)) = true
    else ∃ before,
      trace (env st) =
      before ++ [Saved (classPath cfg) (json_of_classDoc (classDoc st));
                 Saved (libPath cfg) (json_of_library (lib st))].
Proof.
  intros Htotal Htrans Hmain.
  apply main_Done_inv in Hmain
    as (classJson & doc & l & deck & env1 & stL & -> & _ & _ & _ & Hdeck & Hrec & ->).
  split_and!.
  - rewrite finish_lib_entries.
    apply (sort_sorted (by_chunk localeCompare)).
    + intros a b. apply Htotal.
    + intros a b c. apply Htrans.
  - exists (deck_id deck), (initial doc l env1), stL.
    split_and!; [done|done|apply finish_perm].
  - rewrite finish_trace. destruct (DRY_RUN cfg) eqn:Hdry; [|by eexists].
    rewrite app_nil_r.
    pose proof (for_each_dry_trace (deck_id deck)
      (seq 0 (length (doc_entries doc))) (initial doc l env1) Hdry) as Htr.
    unfold reconcile in Hrec. simpl in Hrec. rewrite Hrec in Htr. simpl in Htr.
    rewrite Htr, (resolve_deck_dry_trace _ _ _ _ Hdry Hdeck). done.
Qed.

(** C5 (amended). A library entry whose id is non-empty after trimming
    keeps that id (and its chunk, and its place) through any stretch of
    the loop, whether the stretch falls through or throws; the final sort
    moves the entry but does not touch it. *)
Theorem assigned_ids_are_kept (deckId : string) (todo : list nat) (st : State World)
    (j : nat) (e : Entry) :
  lib_entries (lib st) !! j = Some e →
  trim (id e) ≠ "" →
  ∃ e', lib_entries (lib (outcome_state (for_each svc cfg deckId todo st))) !! j = Some e'
    ∧ chunk e' = chunk e ∧ id e' = id e
    ∧ e' ∈ lib_entries
             (lib (finish localeCompare cfg
                     (outcome_state (for_each svc cfg deckId todo st)))).
Proof.
  intros Hj Hid.
  destruct (for_each_keeps_chunks svc cfg deckId todo j st e Hj) as (e' & He' & Hc & Hi).
  exists e'. split_and!; [done|done|by apply Hi|].
  rewrite finish_perm. by eapply list_elem_of_lookup_2.
Qed.
End Finish.

(** ** Loading the two documents *)

Lemma emptyLibrary_wellformed : registry_wellformed emptyLibrary = true.
Proof. vm_compute. reflexivity. Qed.

Lemma load_library_is_wellformed (libFile : file) :
  registry_wellformed (load_library libFile) = true.
Proof.
  destruct libFile as [lib|e]; [|apply emptyLibrary_wellformed].
  unfold load_library. simpl.
  destruct (validateLibrary_cases lib) as [[? ->]|[_ [->|[e ->]]]];
    [done|apply emptyLibrary_wellformed..].
Qed.

Lemma validateClassDoc_unusable (classFile : file) :
  unusable classDoc_wellformed classFile →
  ∃ e, (v <- classFile ; validateClassDoc v) = Err e.
Proof.
  destruct classFile as [doc|e]; simpl; [|by eexists].
  intros Hwf. destruct (result_unit_cases (validateClassDoc doc)) as [Hok|[e He]].
  - apply validateClassDoc_ok in Hok. congruence.
  - by exists e.
Qed.

Lemma NoDup_fmap_lookup {A B} (f : A → B) (l : list A) (i j : nat) (x y : A) :
  NoDup (f <$> l) → l !! i = Some x → l !! j = Some y → f x = f y → i = j.
Proof.
  intros Hnd Hi Hj Hf. eapply NoDup_lookup; [exact Hnd| |].
  - rewrite list_lookup_fmap, Hi. done.
  - rewrite list_lookup_fmap, Hj. simpl. by rewrite Hf.
Qed.

(** The first half of C10: two entries of a class document whose chunks
    agree after trimming make validation throw. *)
Lemma trimmed_duplicates_rejected (doc : value) (es : list value) (i j : nat)
    (ei ej : value) (ci cj : string) :
  get doc "entries" = Ok (Some (Arr es)) →
  es !! i = Some ei → es !! j = Some ej → i ≠ j →
  get ei "chunk" = Ok (Some (Str ci)) →
  get ej "chunk" = Ok (Some (Str cj)) →
  trim ci = trim cj →
  ∃ e, validateClassDoc doc = Err e.
Proof.
  intros Hes Hi Hj Hne Hci Hcj Htrim.
  destruct (result_unit_cases (validateClassDoc doc)) as [Hok|?]; [exfalso|done].
  apply validateClassDoc_ok in Hok. unfold classDoc_wellformed in Hok.
  destruct doc as [| | | | |props]; try done. simpl in Hes.
  injection Hes as Hes. rewrite Hes in Hok.
  apply andb_true_iff in Hok as [_ Hok].
  apply andb_true_iff in Hok as [_ Hnd]. apply bool_decide_eq_true in Hnd.
  apply Hne. eapply (NoDup_fmap_lookup key_of); [done..|].
  destruct ei as [| | | | |pi]; try done. destruct ej as [| | | | |pj]; try done.
  simpl in *. injection Hci as ->. injection Hcj as ->. done.
Qed.

Section Load.
Context {World : Type} (svc : Service World).
Context (localeCompare : string -> string -> Z) (cfg : Config).

(** C9. A library file that is missing, does not parse, or holds a
    document that is not well-formed is replaced by the empty library
    (version 1, no entries), and the run goes on exactly as it would from
    that; a well-formed library is taken as it is.  A class file in any of
    these conditions ends the run before anything is called or written. *)
Theorem library_falls_back_class_is_fatal (classFile libFile : file) (w : World) :
  (unusable registry_wellformed libFile →
     load_library libFile = emptyLibrary
     ∧ emptyLibrary = Obj [("version", Num 1); ("entries", Arr [])]
     ∧ main svc localeCompare cfg classFile libFile w =
       main svc localeCompare cfg classFile (Ok emptyLibrary) w)
  ∧ (∀ lib, libFile = Ok lib → registry_wellformed lib = true →
       load_library libFile = lib)
  ∧ (unusable classDoc_wellformed classFile →
       ∃ e, main svc localeCompare cfg classFile libFile w = Fatal e (mkEnv w [])).
Proof.
  split_and!.
  - intros Hlib. split_and!; [by apply load_library_unusable|done|].
    unfold main. rewrite (load_library_unusable _ Hlib).
    by rewrite (load_library_wellformed _ emptyLibrary_wellformed).
  - intros lib -> Hwf. by apply load_library_wellformed.
  - intros Hdoc. apply validateClassDoc_unusable in Hdoc as [e He].
    unfold main. destruct classFile as [doc|e']; simpl in He.
    + rewrite He. by exists e.
    + by exists e'.
Qed.
End Load.

(** ** indexByChunk *)

Lemma indexByChunk_from_notin (i : nat) (es : list Entry) (m : gmap string nat) (c : string) :
  c ∉ chunk <$> es → indexByChunk_from i es m !! c = m !! c.
Proof.
  revert i m. induction es as [|e es IH]; intros i m Hc; simpl; [done|].
  rewrite fmap_cons, not_elem_of_cons in Hc. destruct Hc as [Hne Hc].
  rewrite IH by done. by rewrite lookup_insert_ne.
Qed.

Lemma indexByChunk_from_Some (i : nat) (es : list Entry) (m : gmap string nat)
    (c : string) (j : nat) :
  indexByChunk_from i es m !! c = Some j →
  m !! c = Some j ∨ ∃ e, (i ≤ j)%nat ∧ es !! (j - i) = Some e ∧ chunk e = c.
Proof.
  revert i m. induction es as [|e es IH]; intros i m; simpl; [by left|].
  intros [Hm|(e' & Hle & He' & Hc)]%IH.
  - destruct (decide (chunk e = c)) as [<-|Hne].
    + rewrite lookup_insert_eq in Hm. injection Hm as <-.
      right. exists e. rewrite Nat.sub_diag. done.
    + rewrite lookup_insert_ne in Hm by done. by left.
  - right. exists e'. split_and!; [lia| |done].
    replace (j - i) with (S (j - S i)) by lia. done.
Qed.

Lemma indexByChunk_from_NoDup (i k : nat) (es : list Entry) (m : gmap string nat) (e : Entry) :
  NoDup (chunk <$> es) → es !! k = Some e →
  indexByChunk_from i es m !! chunk e = Some (i + k).
Proof.
  revert i k m. induction es as [|e0 es IH]; intros i k m Hnd Hk; [done|].
  rewrite fmap_cons in Hnd. apply NoDup_cons in Hnd as [Hnin Hnd]. simpl.
  destruct k as [|k]; simpl in Hk.
  - injection Hk as ->. rewrite indexByChunk_from_notin by done.
    rewrite lookup_insert_eq. f_equal. lia.
  - rewrite (IH (S i) k) by done. f_equal. lia.
Qed.

Lemma indexByChunk_Some (es : list Entry) (c : string) (j : nat) :
  indexByChunk es !! c = Some j → ∃ e, es !! j = Some e ∧ chunk e = c.
Proof.
  intros [Hm|(e & _ & He & Hc)]%indexByChunk_from_Some; [done|].
  rewrite Nat.sub_0_r in He. by exists e.
Qed.

Lemma indexByChunk_from_None (i : nat) (es : list Entry) (m : gmap string nat) (c : string) :
  indexByChunk_from i es m !! c = None → c ∉ chunk <$> es.
Proof.
  revert i m. induction es as [|e es IH]; intros i m Hn; simpl in *.
  - apply not_elem_of_nil.
  - pose proof (IH _ _ Hn) as Hc.
    rewrite indexByChunk_from_notin in Hn by done.
    apply not_elem_of_cons. split; [|done].
    intros ->. by rewrite lookup_insert_eq in Hn.
Qed.

Lemma indexByChunk_None (es : list Entry) (c : string) :
  indexByChunk es !! c = None ↔ c ∉ chunk <$> es.
Proof.
  split; [apply indexByChunk_from_None|].
  intros Hc. unfold indexByChunk. by rewrite indexByChunk_from_notin.
Qed.

Lemma indexByChunk_NoDup (es : list Entry) (k : nat) (e : Entry) :
  NoDup (chunk <$> es) → es !! k = Some e → indexByChunk es !! chunk e = Some k.
Proof. intros Hnd Hk. unfold indexByChunk. by rewrite (indexByChunk_from_NoDup 0 k). Qed.

Lemma NoDup_trimmed (es : list Entry) :
  NoDup ((fun e => trim (chunk e)) <$> es) → NoDup (chunk <$> es).
Proof.
  intros H. apply (NoDup_fmap_1 trim). by rewrite <- list_fmap_compose.
Qed.

(** ** What the loop keeps true *)

Section Invariant.
Context {World : Type} (svc : Service World) (cfg : Config) (deckId : string).

Local Abbreviation body := (step svc cfg deckId).
Local Abbreviation loop := (for_each svc cfg deckId).

Lemma step_has_shape (i : nat) (st : State World) :
  step_shape svc cfg deckId i st (body i st).
Proof.
  unfold step. destruct (doc_entries (classDoc st) !! i) as [entry|] eqn:Hi;
    [|by constructor].
  cbv zeta. destruct (id_conflict _ _) eqn:Hc.
  { destruct (lookup_lib st (chunk entry)) as [[j le]|] eqn:Hl; [|done].
    apply id_conflict_true in Hc as (? & ? & ?).
    simpl. by eapply shape_conflict. }
  destruct (has_id _) eqn:Hh.
  { destruct (lookup_lib st (chunk entry)) as [[j le]|] eqn:Hl; [|done].
    apply has_id_true in Hh. eapply shape_hit; [done..|].
    destruct (decide (trim (id entry) = "")); [by left|right].
    destruct (decide (id entry = id le)); [done|].
    apply not_true_iff_false in Hc. exfalso. apply Hc, id_conflict_true.
    split_and!; [by apply trim_empty_id|done..]. }
  destruct (createVocabCard _ _ _ _ _) as [[cardId|e] env'] eqn:Hcard.
  - by apply shape_created.
  - by eapply shape_failed.
Qed.

Lemma for_each_snoc_inv (k : nat) (st0 s' : State World) :
  loop (seq 0 (S k)) st0 = Continue s' →
  ∃ sk, loop (seq 0 k) st0 = Continue sk ∧ body k sk = Continue s'.
Proof.
  rewrite seq_S, for_each_app. simpl.
  destruct (loop (seq 0 k) st0) as [sk|]; [|done].
  intros H. exists sk. split; [done|]. by destruct (body k sk).
Qed.

Lemma insert_same_chunk (l : list Entry) (i : nat) (e e' : Entry) :
  l !! i = Some e → chunk e' = chunk e → chunk <$> <[i := e']> l = chunk <$> l.
Proof.
  intros Hi Hc. rewrite list_fmap_insert, Hc.
  apply list_insert_id. by rewrite list_lookup_fmap, Hi.
Qed.

Lemma Forall_insert_chunk (l : list Entry) (j : nat) (e e' : Entry) :
  l !! j = Some e → chunk e' = chunk e →
  Forall (fun e => chunk e ≠ "") l → Forall (fun e => chunk e ≠ "") (<[j := e']> l).
Proof.
  intros Hj Hc Hl. apply Forall_insert; [done|].
  rewrite Hc. by apply (Forall_lookup_1 (fun e => chunk e ≠ "") l j e).
Qed.

Lemma run_inv_start (st0 : State World) :
  map_ok st0 → Forall (fun e => chunk e ≠ "") (lib_entries (lib st0)) →
  run_inv st0 0 st0.
Proof.
  intros Hmap Hne. split; try done.
  - intros i u Hi. lia.
  - intros c Hc. by left.
Qed.

Lemma run_inv_step (st0 sk s' : State World) (k : nat) :
  NoDup (chunk <$> doc_entries (classDoc st0)) →
  Forall (fun e => chunk e ≠ "") (doc_entries (classDoc st0)) →
  run_inv st0 k sk → body k sk = Continue s' → run_inv st0 (S k) s'.
Proof.
  intros Hnd Hne [Hclass Hchunks Hlater Hver Hmap Hsync Hkeys Hlne] Hstep.
  unfold synced, map_ok in Hmap, Hsync.
  assert (Hndk : NoDup (chunk <$> doc_entries (classDoc sk))) by (by rewrite Hchunks).
  assert (Hdiff : ∀ i u entry, i < k → doc_entries (classDoc sk) !! i = Some u →
            doc_entries (classDoc sk) !! k = Some entry → chunk u ≠ chunk entry).
  { intros i u entry Hlt Hu He Heq.
    pose proof (NoDup_fmap_lookup chunk _ _ _ _ _ Hndk Hu He Heq). lia. }
  pose proof (step_has_shape k sk) as Hshape. rewrite Hstep in Hshape.
  inversion Hshape as [Hend| |entry j le Hk Hl Hid Hno|
                       |entry cardId env' Hk Hh Hcard]; subst; clear Hshape.
  - (* past the end *)
    split; try done.
    + intros i Hi. apply Hlater. lia.
    + intros i u Hi Hu. destruct (decide (i = k)) as [->|]; [congruence|].
      apply (Hsync i u); [lia|done].
    + intros c Hc. destruct (Hkeys c Hc) as [?|(i & u & ? & ? & ?)]; [by left|].
      right. exists i, u. split_and!; [lia|done..].
  - (* cache hit *)
    apply lookup_lib_Some in Hl as [Hm Hj].
    split; simpl.
    + done.
    + rewrite <- Hchunks. by eapply insert_same_chunk.
    + intros i Hi. rewrite list_lookup_insert_ne by lia. apply Hlater. lia.
    + done.
    + intros c j0 Hc. destruct (Hmap c j0 Hc) as (e & He & Hce). simpl.
      destruct (decide (j = j0)) as [->|Hjj].
      * rewrite list_lookup_insert_eq by (by eapply lookup_lt_Some).
        eexists. split; [done|]. simpl. congruence.
      * rewrite list_lookup_insert_ne by done. by exists e.
    + intros i u Hi. simpl. destruct (decide (i = k)) as [->|Hik].
      * rewrite list_lookup_insert_eq by (by eapply lookup_lt_Some).
        intros [= <-]. simpl. exists j. eexists. split; [done|].
        rewrite list_lookup_insert_eq by (by eapply lookup_lt_Some). done.
      * rewrite list_lookup_insert_ne by done. intros Hu.
        destruct (Hsync i u ltac:(lia) Hu) as (j0 & e0 & Hm0 & Hj0 & Hid0).
        exists j0. destruct (decide (j = j0)) as [->|Hjj].
        -- rewrite list_lookup_insert_eq by (by eapply lookup_lt_Some).
           eexists. split_and!; [done..|]. simpl. congruence.
        -- rewrite list_lookup_insert_ne by done. by exists e0.
    + intros c Hc. destruct (Hkeys c Hc) as [?|(i & u & ? & ? & ?)]; [by left|].
      right. exists i, u. split_and!; [lia|done..].
    + by eapply Forall_insert_chunk.
  - (* a card was created *)
    assert (Hk0 : doc_entries (classDoc st0) !! k = Some entry).
    { rewrite <- Hlater by lia. done. }
    assert (Hce : chunk entry ≠ "").
    { by apply (Forall_lookup_1 (fun e => chunk e ≠ "") _ k entry Hne). }
    unfold register_card.
    destruct (lookup_lib sk (chunk entry)) as [[j le]|] eqn:Hl.
    + apply lookup_lib_Some in Hl as [Hm Hj].
      destruct (Hmap _ _ Hm) as (le' & Hj' & Hcle). simplify_eq.
      split; rewrite ?persist_classDoc, ?persist_lib, ?persist_libMap; simpl.
      * done.
      * rewrite <- Hchunks. by eapply insert_same_chunk.
      * intros i Hi. rewrite list_lookup_insert_ne by lia. apply Hlater. lia.
      * done.
      * intros c j0 Hc. rewrite ?persist_libMap in Hc; simpl in Hc.
        destruct (Hmap c j0 Hc) as (e & He & Hce').
        rewrite ?persist_lib; simpl.
        destruct (decide (j = j0)) as [->|Hjj].
        -- rewrite list_lookup_insert_eq by (by eapply lookup_lt_Some).
           eexists. split; [done|]. rewrite registered_chunk. congruence.
        -- rewrite list_lookup_insert_ne by done. by exists e.
      * intros i u Hi. rewrite ?persist_classDoc, ?persist_lib, ?persist_libMap; simpl.
        destruct (decide (i = k)) as [->|Hik].
        -- rewrite list_lookup_insert_eq by (by eapply lookup_lt_Some).
           intros [= <-]. simpl. exists j. eexists. split; [done|].
           rewrite list_lookup_insert_eq by (by eapply lookup_lt_Some).
           split; [done|]. by rewrite registered_id.
        -- rewrite list_lookup_insert_ne by done. intros Hu.
           destruct (Hsync i u ltac:(lia) Hu) as (j0 & e0 & Hm0 & Hj0 & Hid0).
           exists j0, e0. split_and!; [done| |done].
           rewrite list_lookup_insert_ne; [done|]. intros ->.
           destruct (Hmap _ _ Hm0) as (e1 & He1 & Hc1).
           apply (Hdiff i u entry); [lia|done|done|congruence].
      * intros c Hc. rewrite ?persist_libMap in Hc; simpl in Hc.
        destruct (Hkeys c Hc) as [?|(i & u & ? & ? & ?)]; [by left|].
        right. exists i, u. split_and!; [lia|done..].
      * eapply Forall_insert_chunk; [done| |done]. by rewrite registered_chunk.
    + split; rewrite ?persist_classDoc, ?persist_lib, ?persist_libMap; simpl.
      * done.
      * rewrite <- Hchunks. by eapply insert_same_chunk.
      * intros i Hi. rewrite list_lookup_insert_ne by lia. apply Hlater. lia.
      * done.
      * intros c j0 Hc. rewrite ?persist_libMap in Hc; simpl in Hc.
        rewrite ?persist_lib; simpl.
        destruct (decide (chunk entry = c)) as [<-|Hcc].
        -- rewrite lookup_insert_eq in Hc. injection Hc as <-.
           rewrite lookup_app_r, Nat.sub_diag by lia. simpl.
           eexists. split; [done|]. by rewrite registered_chunk.
        -- rewrite lookup_insert_ne in Hc by done.
           destruct (Hmap c j0 Hc) as (e & He & Hce').
           rewrite lookup_app_l by (by eapply lookup_lt_Some). by exists e.
      * intros i u Hi. rewrite ?persist_classDoc, ?persist_lib, ?persist_libMap; simpl.
        destruct (decide (i = k)) as [->|Hik].
        -- rewrite list_lookup_insert_eq by (by eapply lookup_lt_Some).
           intros [= <-]. simpl. rewrite lookup_insert_eq.
           eexists. eexists. split; [done|].
           rewrite lookup_app_r, Nat.sub_diag by lia. simpl.
           split; [done|]. by rewrite registered_id.
        -- rewrite list_lookup_insert_ne by done. intros Hu.
           destruct (Hsync i u ltac:(lia) Hu) as (j0 & e0 & Hm0 & Hj0 & Hid0).
           exists j0, e0. split_and!; [|by rewrite lookup_app_l by (by eapply lookup_lt_Some)|done].
           rewrite lookup_insert_ne; [done|]. intros Heq.
           apply (Hdiff i u entry); [lia|done..].
      * intros c Hc. rewrite ?persist_libMap in Hc; simpl in Hc.
        destruct (decide (chunk entry = c)) as [<-|Hcc].
        -- right. exists k, entry. split_and!; [lia|done..].
        -- rewrite lookup_insert_ne in Hc by done.
           destruct (Hkeys c Hc) as [?|(i & u & ? & ? & ?)]; [by left|].
           right. exists i, u. split_and!; [lia|done..].
      * apply Forall_app. split; [done|]. constructor; [|done].
        by rewrite registered_chunk.
Qed.

Lemma run_inv_prefix (st0 sk : State World) (k : nat) :
  NoDup (chunk <$> doc_entries (classDoc st0)) →
  Forall (fun e => chunk e ≠ "") (doc_entries (classDoc st0)) →
  map_ok st0 → Forall (fun e => chunk e ≠ "") (lib_entries (lib st0)) →
  loop (seq 0 k) st0 = Continue sk → run_inv st0 k sk.
Proof.
  intros Hnd Hne Hmap Hlne. revert sk. induction k as [|k IH]; intros sk Hk.
  - injection Hk as <-. by apply run_inv_start.
  - apply for_each_snoc_inv in Hk as (s & Hs & Hstep).
    eapply run_inv_step; eauto.
Qed.
End Invariant.

(** ** The documents, written and read back *)

Lemma forallb_Forall {A} (f : A → bool) (l : list A) :
  forallb f l = true ↔ Forall (fun x => f x = true) l.
Proof.
  induction l as [|x l IH]; simpl; [done|].
  rewrite andb_true_iff, Forall_cons, IH. done.
Qed.

Lemma as_strings_Str (vs : list string) : as_strings (Some (Arr (Str <$> vs))) = Some vs.
Proof.
  simpl. apply mapM_fmap_Forall_Some, Forall_forall. done.
Qed.

Lemma assoc_props (e : Entry) :
  let props := [("chunk", Str (chunk e)); ("id", Str (id e));
                ("variants", Arr (Str <$> variants e))]
               ++ json_of_opt "meaning" (meaning e) ++ json_of_opt "obs" (obs e) in
  assoc "chunk" props = Some (Str (chunk e))
  ∧ assoc "id" props = Some (Str (id e))
  ∧ assoc "variants" props = Some (Arr (Str <$> variants e))
  ∧ assoc "meaning" props = Str <$> meaning e
  ∧ assoc "obs" props = Str <$> obs e.
Proof. destruct e as [c i vs [m|] [o|]]; simpl; done. Qed.

Lemma entry_roundtrip (e : Entry) : entry_of_json (json_of_entry e) = Some e.
Proof.
  unfold json_of_entry, entry_of_json.
  destruct (assoc_props e) as (-> & -> & -> & -> & ->). simpl.
  pose proof (as_strings_Str (variants e)) as Hvs. simpl in Hvs. rewrite Hvs. simpl.
  by destruct e as [c i vs [m|] [o|]].
Qed.

Lemma entries_roundtrip (es : list Entry) :
  entries_of_json (Some (Arr (json_of_entry <$> es))) = Some es.
Proof.
  simpl. apply mapM_fmap_Forall_Some, Forall_forall. intros e _. apply entry_roundtrip.
Qed.

Lemma classDoc_roundtrip (d : ClassDoc) : classDoc_of_json (json_of_classDoc d) = Some d.
Proof.
  unfold json_of_classDoc, classDoc_of_json. simpl assoc.
  rewrite entries_roundtrip. by destruct d.
Qed.

Lemma library_roundtrip (l : Library) : library_of_json (json_of_library l) = Some l.
Proof.
  unfold json_of_library, library_of_json.
  destruct l as [[v|] es]; simpl assoc; rewrite entries_roundtrip; done.
Qed.

Lemma key_of_json (e : Entry) : key_of (json_of_entry e) = trim (chunk e).
Proof.
  unfold json_of_entry, key_of. by destruct (assoc_props e) as (-> & _).
Qed.

Lemma unit_wellformed_json (e : Entry) :
  chunk e ≠ "" → unit_wellformed (json_of_entry e) = true.
Proof.
  intros Hc. unfold json_of_entry, unit_wellformed, entry_wellformed.
  destruct (assoc_props e) as (-> & -> & -> & -> & ->). simpl.
  apply truthy_str_true in Hc. rewrite Hc. by destruct (obs e), (meaning e).
Qed.

Lemma entry_wellformed_json (e : Entry) :
  chunk e ≠ "" → entry_wellformed (json_of_entry e) = true.
Proof.
  intros Hc. unfold json_of_entry, entry_wellformed.
  destruct (assoc_props e) as (-> & -> & -> & _). simpl.
  apply truthy_str_true in Hc. by rewrite Hc.
Qed.

Lemma keys_of_json (es : list Entry) :
  key_of <$> (json_of_entry <$> es) = (fun e => trim (chunk e)) <$> es.
Proof.
  rewrite <- list_fmap_compose. apply list_fmap_ext. intros _ e _. apply key_of_json.
Qed.

Lemma classDoc_wellformed_json (d : ClassDoc) :
  doc_class d ≠ "" → chunks_valid (doc_entries d) →
  classDoc_wellformed (json_of_classDoc d) = true.
Proof.
  intros Hc [Hne Hnd]. unfold json_of_classDoc, classDoc_wellformed. simpl.
  apply truthy_str_true in Hc. rewrite Hc. simpl.
  rewrite keys_of_json, bool_decide_eq_true_2, andb_true_r by done.
  apply forallb_Forall, Forall_fmap, Forall_forall. intros e He. simpl.
  apply unit_wellformed_json.
  by apply (proj1 (Forall_forall _ _) Hne).
Qed.

Lemma registry_wellformed_json (l : Library) :
  chunks_valid (lib_entries l) → registry_wellformed (json_of_library l) = true.
Proof.
  intros [Hne Hnd]. unfold json_of_library, registry_wellformed.
  assert (Hes : forallb entry_wellformed (json_of_entry <$> lib_entries l)
                && bool_decide (NoDup (key_of <$> (json_of_entry <$> lib_entries l))) = true).
  { rewrite keys_of_json, bool_decide_eq_true_2, andb_true_r by done.
    apply forallb_Forall, Forall_fmap, Forall_forall. intros e He. simpl.
    apply entry_wellformed_json.
    by apply (proj1 (Forall_forall _ _) Hne). }
  destruct (lib_version l); simpl; done.
Qed.

Lemma entry_of_json_key (v : value) (e : Entry) :
  entry_of_json v = Some e →
  key_of v = trim (chunk e) ∧ (entry_wellformed v = true → chunk e ≠ "").
Proof.
  unfold entry_of_json, key_of, entry_wellformed.
  destruct v as [| | | | |props]; try done.
  destruct (assoc "chunk" props) as [[| | |c| |]|]; try done. simpl.
  destruct (as_string (assoc "id" props)); [|done]. simpl.
  destruct (as_strings (assoc "variants" props)); [|done]. simpl.
  destruct (as_opt_string (assoc "meaning" props)); [|done]. simpl.
  destruct (as_opt_string (assoc "obs" props)); [|done]. simpl.
  intros [= <-]. simpl. split; [done|].
  rewrite !andb_true_iff, truthy_str_true. tauto.
Qed.

Lemma entries_of_json_valid (items : list value) (es : list Entry) :
  entries_of_json (Some (Arr items)) = Some es →
  forallb entry_wellformed items = true →
  NoDup (key_of <$> items) →
  chunks_valid es.
Proof.
  simpl. intros HF%mapM_Some_1 Hwf Hnd.
  apply forallb_Forall in Hwf.
  assert (Hkeys : key_of <$> items = (fun e => trim (chunk e)) <$> es).
  { induction HF as [|v e items es Hv _ IH]; [done|].
    apply Forall_cons in Hwf as [_ Hwf]. apply NoDup_cons in Hnd as [_ Hnd].
    rewrite !fmap_cons, IH by done. f_equal. by apply entry_of_json_key. }
  split; [|by rewrite <- Hkeys].
  clear Hnd Hkeys. induction HF as [|v e items es Hv _ IH]; [done|].
  apply Forall_cons in Hwf as [Hw Hwf]. constructor; [|by apply IH].
  by apply (entry_of_json_key v e Hv).
Qed.

Lemma unit_is_entry_wellformed (items : list value) :
  forallb unit_wellformed items = true → forallb entry_wellformed items = true.
Proof.
  rewrite !forallb_Forall. intros H.
  eapply Forall_impl; [exact H|]. intros [| | | | |props]; try done. simpl.
  rewrite !andb_true_iff. tauto.
Qed.

Lemma classDoc_of_json_valid (cj : value) (d : ClassDoc) :
  classDoc_wellformed cj = true → classDoc_of_json cj = Some d →
  doc_class d ≠ "" ∧ chunks_valid (doc_entries d).
Proof.
  unfold classDoc_wellformed, classDoc_of_json.
  destruct cj as [| | | | |props]; try done.
  destruct (assoc "class" props) as [[| | |c| |]|]; try done. simpl.
  destruct (assoc "entries" props) as [[| | | |items|]|] eqn:Hes;
    rewrite ?andb_false_r; try done.
  rewrite !andb_true_iff, bool_decide_eq_true. intros (Hc & Hwf & Hnd).
  destruct (entries_of_json (Some (Arr items))) as [es|] eqn:Hd; [|done].
  simpl. intros [= <-]. simpl. split.
  - by apply truthy_str_true.
  - eapply entries_of_json_valid; [exact Hd| |done]. by apply unit_is_entry_wellformed.
Qed.

Lemma library_of_json_valid (lj : value) (l : Library) :
  registry_wellformed lj = true → library_of_json lj = Some l →
  chunks_valid (lib_entries l).
Proof.
  unfold registry_wellformed, library_of_json.
  destruct lj as [| | | | |props]; try done.
  destruct (assoc "entries" props) as [[| | | |items|]|] eqn:Hes; try done.
  rewrite !andb_true_iff, bool_decide_eq_true. intros (Hwf & Hnd).
  destruct (entries_of_json (Some (Arr items))) as [es|] eqn:Hd; [|done].
  simpl. intros [= <-]. simpl.
  by eapply entries_of_json_valid.
Qed.

(** ** Lookup by the raw chunk *)

Section RawLookup.
Context {World : Type} (svc : Service World) (cfg : Config) (deckId : string).

Local Abbreviation body := (step svc cfg deckId).
Local Abbreviation loop := (for_each svc cfg deckId).

Lemma initial_map_ok (doc : ClassDoc) (l : Library) (env0 : Env World) :
  map_ok (initial doc l env0).
Proof. intros c j Hc. by apply indexByChunk_Some. Qed.

Lemma chunks_valid_NoDup (es : list Entry) : chunks_valid es → NoDup (chunk <$> es).
Proof. intros [_ Hnd]. by apply NoDup_trimmed. Qed.

Lemma initial_run_inv (doc : ClassDoc) (l : Library) (env0 : Env World)
    (k : nat) (sk : State World) :
  chunks_valid (doc_entries doc) → chunks_valid (lib_entries l) →
  loop (seq 0 k) (initial doc l env0) = Continue sk →
  run_inv (initial doc l env0) k sk.
Proof.
  intros Hd Hl Hk. eapply run_inv_prefix; [| | | |exact Hk]; simpl.
  - by apply chunks_valid_NoDup.
  - apply Hd.
  - apply initial_map_ok.
  - apply Hl.
Qed.

(** The second half of C10: an entry whose chunk differs from a library
    chunk but agrees with it after trimming finds nothing in the map, and
    the loop goes on to create a card for it. *)
Lemma whitespace_variant_is_created (doc : ClassDoc) (l : Library) (env0 : Env World)
    (k : nat) (sk : State World) (u le : Entry) :
  chunks_valid (doc_entries doc) → chunks_valid (lib_entries l) →
  loop (seq 0 k) (initial doc l env0) = Continue sk →
  doc_entries doc !! k = Some u →
  le ∈ lib_entries l → chunk u ≠ chunk le → trim (chunk u) = trim (chunk le) →
  doc_entries (classDoc sk) !! k = Some u
  ∧ lookup_lib sk (chunk u) = None
  ∧ loop (seq 0 (S k)) (initial doc l env0) =
      match createVocabCard svc cfg deckId u (env sk) with
      | (Ok cardId, env') => Continue (register_card cfg k u None cardId env' sk)
      | (Err e, env') =>
          Throw e (mkState (classDoc sk) (lib sk) (libMap sk)
                     (skippedExisting sk) (created sk) env')
      end.
Proof.
  intros Hd Hl Hk Hu Hle Hne Htrim.
  pose proof (initial_run_inv doc l env0 k sk Hd Hl Hk) as Hinv.
  assert (Huk : doc_entries (classDoc sk) !! k = Some u).
  { rewrite (inv_later _ _ _ Hinv) by lia. done. }
  assert (Hnone : libMap sk !! chunk u = None).
  { apply eq_None_not_Some. intros Hsome.
    destruct (inv_keys _ _ _ Hinv _ Hsome) as [[j Hj]|(i & u' & Hi & Hu' & Hc)]; simpl in *.
    - apply indexByChunk_Some in Hj as (e & He & Hce).
      apply list_elem_of_lookup in Hle as [j' Hj'].
      assert (j = j') as ->.
      { apply (NoDup_fmap_lookup (fun e => trim (chunk e)) (lib_entries l) j j' e le);
          [apply Hl|done..|]. simpl. congruence. }
      congruence.
    - assert (i = k); [|lia].
      apply (NoDup_fmap_lookup chunk (doc_entries doc) i k u' u);
        [by apply chunks_valid_NoDup|done..]. }
  assert (Hlk : lookup_lib sk (chunk u) = None).
  { unfold lookup_lib. by rewrite Hnone. }
  split_and!; [done..|].
  rewrite (for_each_snoc svc cfg deckId k _ sk Hk).
  rewrite (step_miss svc cfg deckId k sk u Huk); rewrite Hlk; done.
Qed.

(** C10. Validation compares chunks after trimming; the loop looks them
    up as they are.  A class document with two entries whose chunks differ
    but agree after trimming is rejected; and against a validated library,
    an entry whose chunk differs from a library chunk only by surrounding
    white space is not found: it takes the creating path, not the cache
    hit. *)
Theorem trimmed_validation_raw_lookup :
  (∀ (doc : value) (es : list value) (i j : nat) (ei ej : value) (ci cj : string),
     get doc "entries" = Ok (Some (Arr es)) →
     es !! i = Some ei → es !! j = Some ej →
     get ei "chunk" = Ok (Some (Str ci)) →
     get ej "chunk" = Ok (Some (Str cj)) →
     ci ≠ cj → trim ci = trim cj →
     ∃ e, validateClassDoc doc = Err e)
  ∧ (∀ (doc : ClassDoc) (l : Library) (env0 : Env World) (k : nat)
       (sk : State World) (u le : Entry),
     chunks_valid (doc_entries doc) → chunks_valid (lib_entries l) →
     loop (seq 0 k) (initial doc l env0) = Continue sk →
     doc_entries doc !! k = Some u →
     le ∈ lib_entries l → chunk u ≠ chunk le → trim (chunk u) = trim (chunk le) →
     doc_entries (classDoc sk) !! k = Some u
     ∧ lookup_lib sk (chunk u) = None
     ∧ has_id (lookup_lib sk (chunk u)) = false
     ∧ loop (seq 0 (S k)) (initial doc l env0) =
         match createVocabCard svc cfg deckId u (env sk) with
         | (Ok cardId, env') => Continue (register_card cfg k u None cardId env' sk)
         | (Err e, env') =>
             Throw e (mkState (classDoc sk) (lib sk) (libMap sk)
                        (skippedExisting sk) (created sk) env')
         end).
Proof.
  split.
  - intros doc es i j ei ej ci cj Hes Hi Hj Hci Hcj Hne Htrim.
    eapply (trimmed_duplicates_rejected doc es i j); eauto.
    intros ->. congruence.
  - intros doc l env0 k sk u le Hd Hl Hk Hu Hle Hne Htrim.
    destruct (whitespace_variant_is_created doc l env0 k sk u le) as (H1 & H2 & H3);
      [done..|].
    split_and!; [done|done| |done]. by rewrite H2.
Qed.
End RawLookup.

(** ** Running again on what a run has written *)

Section Rerun.
Context {World : Type} (svc : Service World).
Context (localeCompare : string -> string -> Z) (cfg : Config).

Lemma set_id_same (u : Entry) : set_id u (id u) = u.
Proof. by destruct u. Qed.

(** Against a library that holds every class entry's chunk under the
    entry's own id, the loop skips every entry and changes no id. *)
Lemma rerun_loop (deckId : string) (d : ClassDoc) (l : Library) (env0 : Env World) (k : nat) :
  NoDup (chunk <$> lib_entries l) →
  (∀ u, u ∈ doc_entries d →
     trim (id u) ≠ "" ∧ ∃ e, e ∈ lib_entries l ∧ chunk e = chunk u ∧ id e = id u) →
  (k ≤ length (doc_entries d))%nat →
  ∃ sk, for_each svc cfg deckId (seq 0 k) (initial d l env0) = Continue sk
    ∧ classDoc sk = d
    ∧ libMap sk = indexByChunk (lib_entries l)
    ∧ assignment <$> lib_entries (lib sk) = assignment <$> lib_entries l
    ∧ lib_version (lib sk) = lib_version l
    ∧ created sk = 0
    ∧ env sk = env0
    ∧ skippedExisting sk = chunk <$> take k (doc_entries d).
Proof.
  intros Hnd Hall. induction k as [|k IH]; intros Hk.
  { eexists. split; [done|]. by rewrite take_0. }
  destruct IH as (sk & Hloop & Hdoc & Hmap & Hasg & Hver & Hcr & Henv & Hskip); [lia|].
  destruct (lookup_lt_is_Some_2 (doc_entries d) k) as [u Hu]; [lia|].
  destruct (Hall u) as (Hid & e & He & Hce & Hie); [by eapply list_elem_of_lookup_2|].
  apply list_elem_of_lookup in He as [j Hj].
  assert (Hle : ∃ le, lib_entries (lib sk) !! j = Some le ∧ chunk le = chunk e ∧ id le = id e).
  { assert (Hlk : (assignment <$> lib_entries (lib sk)) !! j = Some (assignment e)).
    { by rewrite Hasg, list_lookup_fmap, Hj. }
    rewrite list_lookup_fmap in Hlk.
    destruct (lib_entries (lib sk) !! j) as [le|]; [|done].
    exists le. injection Hlk as Hc Hi. done. }
  destruct Hle as (le & Hjle & Hcle & Hile).
  assert (Hl : lookup_lib sk (chunk u) = Some (j, le)).
  { apply lookup_lib_Some. split; [|done].
    rewrite Hmap, <- Hce. by apply indexByChunk_NoDup. }
  exists (skip_existing k u j le sk). split_and!.
  - rewrite (for_each_snoc svc cfg deckId k _ sk Hloop).
    apply step_hit; [by rewrite Hdoc|done|congruence|right; congruence].
  - simpl. rewrite Hdoc. unfold put_class_entry.
    replace (id le) with (id u) by congruence. rewrite set_id_same.
    rewrite list_insert_id by done. by destruct d.
  - done.
  - simpl. rewrite list_fmap_insert. rewrite list_insert_id; [done|].
    rewrite list_lookup_fmap, Hjle. done.
  - done.
  - done.
  - done.
  - simpl. rewrite Hskip. erewrite take_S_r by done. by rewrite fmap_app.
Qed.

Lemma trimmed_of_chunks (es : list Entry) :
  (fun e => trim (chunk e)) <$> es = trim <$> (chunk <$> es).
Proof. by rewrite <- list_fmap_compose. Qed.

Lemma chunks_valid_same (es es' : list Entry) :
  chunk <$> es' = chunk <$> es → chunks_valid es → chunks_valid es'.
Proof.
  intros Heq [Hne Hnd]. split.
  - apply (Forall_fmap chunk (fun c => c ≠ "")). rewrite Heq.
    by apply (Forall_fmap chunk (fun c => c ≠ "")).
  - by rewrite trimmed_of_chunks, Heq, <- trimmed_of_chunks.
Qed.

(** What a run that ended normally leaves in its two documents. *)
Lemma main_Done_documents (classFile libFile : file) (w : World) (st : State World) :
  main svc localeCompare cfg classFile libFile w = Done st →
  doc_class (classDoc st) ≠ ""
  ∧ chunks_valid (doc_entries (classDoc st))
  ∧ Forall (fun e => chunk e ≠ "") (lib_entries (lib st))
  ∧ ∀ u, u ∈ doc_entries (classDoc st) →
      ∃ e, e ∈ lib_entries (lib st) ∧ chunk e = chunk u ∧ id e = id u.
Proof.
  intros Hmain.
  apply main_Done_inv in Hmain
    as (classJson & doc & l & deck & env1 & stL & -> & Hv & Hd & Hl & Hdeck & Hrec & ->).
  apply validateClassDoc_ok in Hv.
  destruct (classDoc_of_json_valid _ _ Hv Hd) as [Hclass Hdv].
  pose proof (library_of_json_valid _ _ (load_library_is_wellformed libFile) Hl) as Hlv.
  unfold reconcile in Hrec. simpl in Hrec.
  pose proof (initial_run_inv svc cfg (deck_id deck) doc l env1 _ stL Hdv Hlv Hrec) as Hinv.
  rewrite finish_classDoc. split_and!.
  - by rewrite (inv_class _ _ _ Hinv).
  - eapply chunks_valid_same; [apply (inv_chunks _ _ _ Hinv)|done].
  - rewrite finish_perm. apply (inv_nonempty _ _ _ Hinv).
  - intros u [i Hi]%list_elem_of_lookup.
    assert (Hlt : i < length (doc_entries doc)).
    { apply lookup_lt_Some in Hi.
      rewrite <- (length_fmap chunk), (inv_chunks _ _ _ Hinv), length_fmap in Hi. done. }
    destruct (inv_synced _ _ _ Hinv i u Hlt Hi) as (j & e & Hm & Hj & Hid).
    destruct (inv_map _ _ _ Hinv _ _ Hm) as (e' & Hj' & Hc).
    assert (e' = e) as -> by congruence.
    exists e. split_and!; [|done..].
    rewrite finish_perm. by eapply list_elem_of_lookup_2.
Qed.

(** Running again on the documents a run left.  Take a run that ended
    normally, in which every class entry came out with an id that is
    non-empty after trimming and whose library still has no two chunks that
    agree after trimming.  Run [main] again on the two documents it left, in
    any world: once the deck is resolved, the run ends normally, skips every
    entry, creates no card (the trace holds the deck calls and, unless
    DRY_RUN is set, the two final writes, nothing else), and leaves the class
    document, hence every entry's id, and the library's chunk-to-id
    assignment as they were. *)
Lemma rerun_on_documents (classFile libFile : file) (w w2 : World)
    (st1 : State World) :
  main svc localeCompare cfg classFile libFile w = Done st1 →
  (∀ u, u ∈ doc_entries (classDoc st1) → trim (id u) ≠ "") →
  NoDup ((fun e => trim (chunk e)) <$> lib_entries (lib st1)) →
  let rerun :=
    main svc localeCompare cfg
      (Ok (json_of_classDoc (classDoc st1))) (Ok (json_of_library (lib st1))) w2 in
  match resolve_deck svc cfg (String.append (doc_class (classDoc st1)) "_V") (mkEnv w2 []) with
  | (Err e, env2) => rerun = Fatal e env2
  | (Ok deck, env2) =>
      ∃ st2, rerun = Done st2
        ∧ created st2 = 0
        ∧ skippedExisting st2 = chunk <$> doc_entries (classDoc st1)
        ∧ classDoc st2 = classDoc st1
        ∧ assignment <$> lib_entries (lib st2) ≡ₚ assignment <$> lib_entries (lib st1)
        ∧ world (env st2) = world env2
        ∧ trace (env st2) =
            trace env2 ++
              (if DRY_RUN cfg then []
               else [Saved (classPath cfg) (json_of_classDoc (classDoc st2));
                     Saved (libPath cfg) (json_of_library (lib st2))])
  end.
Proof.
  intros Hmain Hids Hnd rerun.
  destruct (main_Done_documents _ _ _ _ Hmain) as (Hclass & Hdv & Hlne & Hsync).
  assert (Hlv : chunks_valid (lib_entries (lib st1))) by done.
  assert (Hrerun : rerun =
    match resolve_deck svc cfg (String.append (doc_class (classDoc st1)) "_V") (mkEnv w2 []) with
    | (Err e, env2) => Fatal e env2
    | (Ok deck, env2) =>
        match reconcile svc cfg (deck_id deck) (initial (classDoc st1) (lib st1) env2) with
        | Throw e st => Failed e st
        | Continue st => Done (finish localeCompare cfg st)
        end
    end).
  { unfold rerun, main.
    rewrite (proj2 (validateClassDoc_ok _) (classDoc_wellformed_json _ Hclass Hdv)).
    rewrite (load_library_wellformed _ (registry_wellformed_json _ Hlv)).
    by rewrite classDoc_roundtrip, library_roundtrip. }
  rewrite Hrerun. clear Hrerun rerun.
  destruct (resolve_deck _ _ _ _) as [[deck|e] env2]; [|done].
  destruct (rerun_loop (deck_id deck) (classDoc st1) (lib st1) env2
              (length (doc_entries (classDoc st1))))
    as (st & Hloop & Hdoc & Hmap & Hasg & Hver & Hcr & Henv & Hskip).
  - by apply chunks_valid_NoDup.
  - intros u Hu. split; [by apply Hids|by apply Hsync].
  - done.
  - unfold reconcile. simpl. rewrite Hloop.
    exists (finish localeCompare cfg st). split_and!.
    + done.
    + by rewrite finish_created.
    + by rewrite finish_skipped, Hskip, firstn_all.
    + by rewrite finish_classDoc.
    + rewrite finish_perm. by rewrite Hasg.
    + unfold finish. by rewrite persist_world, <- Henv.
    + by rewrite finish_trace, Henv.
Qed.
End Rerun.

(** ** When a run leaves documents that can be run again *)

Lemma trim_nonspace (c : ascii) (s : string) :
  is_white_space c = false → trim (String c s) ≠ "".
Proof.
  intros Hc. unfold trim. simpl. rewrite Hc. simpl.
  destruct (trimEnd s); [by rewrite Hc|done].
Qed.

Section Clean.
Context {World : Type} (svc : Service World) (cfg : Config) (deckId : string).

Local Abbreviation body := (step svc cfg deckId).
Local Abbreviation loop := (for_each svc cfg deckId).

Lemma createVocabCard_nonblank (entry : Entry) (env0 env' : Env World) (cardId : string) :
  answers_with_ids svc →
  createVocabCard svc cfg deckId entry env0 = (Ok cardId, env') →
  trim cardId ≠ "".
Proof.
  intros Hsvc. unfold createVocabCard. destruct (DRY_RUN cfg).
  - intros [= <- _]. by apply trim_nonspace.
  - destruct (post_card svc _ _) as [r w'] eqn:Hpost. intros [= -> _].
    by eapply Hsvc.
Qed.

Lemma lookup_lib_None (st : State World) (c : string) :
  map_ok st → lookup_lib st c = None → libMap st !! c = None.
Proof.
  intros Hmap Hl. destruct (libMap st !! c) as [j|] eqn:Hj; [|done].
  destruct (Hmap c j Hj) as (e & He & _).
  unfold lookup_lib in Hl. rewrite Hj in Hl. simpl in Hl. by rewrite He in Hl.
Qed.

Lemma clean_inv_start (st0 : State World) :
  NoDup ((fun e => trim (chunk e)) <$> lib_entries (lib st0)) →
  (∀ c, c ∈ chunk <$> lib_entries (lib st0) → is_Some (libMap st0 !! c)) →
  clean_inv st0 0 st0.
Proof.
  intros Hnd Hmap. split.
  - intros i u Hi. lia.
  - by rewrite <- trimmed_of_chunks.
  - done.
  - intros c Hc. by left.
Qed.

Lemma clean_inv_step (st0 sk s' : State World) (k : nat) :
  answers_with_ids svc →
  NoDup ((fun e => trim (chunk e)) <$> doc_entries (classDoc st0)) →
  no_whitespace_variants (classDoc st0) (lib st0) →
  run_inv st0 k sk → clean_inv st0 k sk →
  body k sk = Continue s' → clean_inv st0 (S k) s'.
Proof.
  intros Hsvc Hnd Hvar Hinv [Hids Hkeys Hmapc Horig] Hstep.
  pose proof (inv_map _ _ _ Hinv) as Hmap.
  pose proof (inv_later _ _ _ Hinv) as Hlater.
  assert (Hwiden : ∀ c,
    c ∈ chunk <$> lib_entries (lib st0)
    ∨ (∃ i u, i < k ∧ doc_entries (classDoc st0) !! i = Some u ∧ chunk u = c) →
    c ∈ chunk <$> lib_entries (lib st0)
    ∨ (∃ i u, i < S k ∧ doc_entries (classDoc st0) !! i = Some u ∧ chunk u = c)).
  { intros c [?|(i & u & ? & ? & ?)]; [by left|].
    right. exists i, u. split_and!; [lia|done..]. }
  pose proof (step_has_shape svc cfg deckId k sk) as Hshape. rewrite Hstep in Hshape.
  inversion Hshape as [Hend| |entry j le Hk Hl Hid Hno|
                       |entry cardId env' Hk Hh Hcard]; subst; clear Hshape.
  - (* past the end *)
    split; [|done|done|by intros c Hc; apply Hwiden, Horig].
    intros i u Hi Hu. destruct (decide (i = k)) as [->|]; [congruence|].
    apply (Hids i u); [lia|done].
  - (* cache hit *)
    apply lookup_lib_Some in Hl as [Hm Hj].
    assert (Hcs : chunk <$> lib_entries (lib (skip_existing k entry j le sk))
                  = chunk <$> lib_entries (lib sk)).
    { simpl. by eapply insert_same_chunk. }
    split; rewrite ?Hcs; [|done|done|by intros c Hc; apply Hwiden, Horig].
    intros i u Hi. simpl. destruct (decide (i = k)) as [->|Hik].
    + rewrite list_lookup_insert_eq by (by eapply lookup_lt_Some).
      by intros [= <-].
    + rewrite list_lookup_insert_ne by done. intros Hu.
      apply (Hids i u); [lia|done].
  - (* a card was created *)
    pose proof (createVocabCard_nonblank _ _ _ _ Hsvc Hcard) as Hcid.
    assert (Hk0 : doc_entries (classDoc st0) !! k = Some entry).
    { rewrite <- Hlater by lia. done. }
    assert (Hnew : ∀ i u, i < S k →
      doc_entries (classDoc (register_card cfg k entry (lookup_lib sk (chunk entry))
                                cardId env' sk)) !! i = Some u → trim (id u) ≠ "").
    { intros i u Hi. unfold register_card.
      destruct (lookup_lib sk (chunk entry)) as [[j le]|];
        rewrite persist_classDoc; simpl;
        (destruct (decide (i = k)) as [->|Hik];
         [rewrite list_lookup_insert_eq by (by eapply lookup_lt_Some); by intros [= <-]
         |rewrite list_lookup_insert_ne by done; intros Hu;
          apply (Hids i u); [lia|done]]). }
    destruct (lookup_lib sk (chunk entry)) as [[j le]|] eqn:Hl.
    + apply lookup_lib_Some in Hl as [Hm Hj].
      assert (Hcs : chunk <$> lib_entries
                      (lib (register_card cfg k entry (Some (j, le)) cardId env' sk))
                    = chunk <$> lib_entries (lib sk)).
      { unfold register_card. rewrite persist_lib. simpl.
        eapply insert_same_chunk; [done|]. by rewrite registered_chunk. }
      split; rewrite ?Hcs; [done|done| |by intros c Hc; apply Hwiden, Horig].
      unfold register_card. rewrite persist_libMap. done.
    + apply (lookup_lib_None _ _ Hmap) in Hl.
      assert (Hcs : chunk <$> lib_entries
                      (lib (register_card cfg k entry None cardId env' sk))
                    = (chunk <$> lib_entries (lib sk)) ++ [chunk entry]).
      { unfold register_card, push_lib_entry. rewrite persist_lib.
        cbn [lib lib_entries]. rewrite fmap_app. f_equal.
        cbn [fmap list_fmap]. by rewrite registered_chunk. }
      assert (Hmap' : libMap (register_card cfg k entry None cardId env' sk)
                      = <[chunk entry := length (lib_entries (lib sk))]> (libMap sk)).
      { unfold register_card. by rewrite persist_libMap. }
      split; rewrite ?Hcs, ?Hmap'; [done| | |].
      * rewrite fmap_app. apply NoDup_app. split_and!; [done| |apply NoDup_singleton].
        intros t Ht ->%list_elem_of_singleton.
        apply list_elem_of_fmap in Ht as (c & Htc & Hc).
        destruct (Horig c Hc) as [Hin0|(i & u & Hi & Hu & Hcu)].
        -- apply list_elem_of_fmap in Hin0 as (e & -> & He).
           assert (chunk entry = chunk e) as Heq.
           { apply Hvar; [by eapply list_elem_of_lookup_2|done..]. }
           destruct (Hmapc (chunk e) Hc) as [j' Hj']. congruence.
        -- assert (i = k); [|lia].
           apply (NoDup_fmap_lookup (fun e => trim (chunk e)) _ i k u entry Hnd Hu Hk0).
           simpl. congruence.
      * intros c [Hc| ->%list_elem_of_singleton]%elem_of_app.
        -- destruct (decide (chunk entry = c)) as [<-|Hne].
           ++ rewrite lookup_insert_eq. by eexists.
           ++ rewrite lookup_insert_ne by done. by apply Hmapc.
        -- rewrite lookup_insert_eq. by eexists.
      * intros c [Hc| ->%list_elem_of_singleton]%elem_of_app.
        -- by apply Hwiden, Horig.
        -- right. exists k, entry. split_and!; [lia|done..].
Qed.

Lemma clean_inv_prefix (doc : ClassDoc) (l : Library) (env0 : Env World)
    (k : nat) (sk : State World) :
  answers_with_ids svc →
  chunks_valid (doc_entries doc) → chunks_valid (lib_entries l) →
  no_whitespace_variants doc l →
  loop (seq 0 k) (initial doc l env0) = Continue sk →
  clean_inv (initial doc l env0) k sk.
Proof.
  intros Hsvc Hd Hl Hvar. revert sk. induction k as [|k IH]; intros sk Hk.
  - injection Hk as <-. apply clean_inv_start; simpl; [apply Hl|].
    intros c Hc. apply not_eq_None_Some. by intros Hn%indexByChunk_None.
  - apply for_each_snoc_inv in Hk as (s & Hs & Hstep).
    eapply clean_inv_step; [done|apply Hd|done| |by apply IH|done].
    by apply (initial_run_inv svc cfg deckId).
Qed.
End Clean.

Section CleanRun.
Context {World : Type} (svc : Service World).
Context (localeCompare : string -> string -> Z) (cfg : Config).

(** The two conditions under which a run can be repeated hold of every run
    that ends normally, when Mochi never answers with a blank card id and no
    class chunk differs from a library chunk only by surrounding white
    space. *)
Lemma first_run_leaves_clean_documents (classJson : value) (libFile : file) (w : World)
    (doc : ClassDoc) (l : Library) (st1 : State World) :
  answers_with_ids svc →
  classDoc_of_json classJson = Some doc →
  library_of_json (load_library libFile) = Some l →
  no_whitespace_variants doc l →
  main svc localeCompare cfg (Ok classJson) libFile w = Done st1 →
  (∀ u, u ∈ doc_entries (classDoc st1) → trim (id u) ≠ "")
  ∧ NoDup ((fun e => trim (chunk e)) <$> lib_entries (lib st1)).
Proof.
  intros Hsvc Hdoc Hlib Hvar Hmain.
  apply main_Done_inv in Hmain
    as (classJson' & doc' & l' & deck & env1 & stL & [= <-] & Hv & Hd & Hl & Hdeck & Hrec & ->).
  assert (doc' = doc) as -> by congruence. assert (l' = l) as -> by congruence.
  apply validateClassDoc_ok in Hv.
  destruct (classDoc_of_json_valid _ _ Hv Hd) as [_ Hdv].
  pose proof (library_of_json_valid _ _ (load_library_is_wellformed libFile) Hl) as Hlv.
  unfold reconcile in Hrec. simpl in Hrec.
  pose proof (initial_run_inv svc cfg (deck_id deck) doc l env1 _ stL Hdv Hlv Hrec) as Hinv.
  pose proof (clean_inv_prefix svc cfg (deck_id deck) doc l env1 _ stL
                Hsvc Hdv Hlv Hvar Hrec) as Hclean.
  split.
  - rewrite finish_classDoc. intros u [i Hi]%list_elem_of_lookup.
    apply (clean_ids _ _ _ Hclean i u); [|done].
    apply lookup_lt_Some in Hi.
    rewrite <- (length_fmap chunk), (inv_chunks _ _ _ Hinv), length_fmap in Hi. done.
  - rewrite finish_perm, trimmed_of_chunks. apply (clean_keys _ _ _ Hclean).
Qed.
End CleanRun.

(** ** The comparator by code units *)

Lemma codeunit_compare_total (a b : string) :
  (codeunit_compare a b <= 0 ∨ codeunit_compare b a <= 0)%Z.
Proof.
  revert b. induction a as [|x a IH]; intros [|y b]; simpl; try lia.
  rewrite (N.compare_antisym (N_of_ascii x) (N_of_ascii y)).
  destruct (N_of_ascii x ?= N_of_ascii y)%N; simpl; try lia. apply IH.
Qed.

Lemma codeunit_compare_trans (a b c : string) :
  (codeunit_compare a b <= 0 → codeunit_compare b c <= 0 → codeunit_compare a c <= 0)%Z.
Proof.
  revert b c. induction a as [|x a IH]; intros [|y b] [|z c]; simpl; try lia.
  destruct (N.compare_spec (N_of_ascii x) (N_of_ascii y)) as [Hxy|Hxy|Hxy];
    destruct (N.compare_spec (N_of_ascii y) (N_of_ascii z)) as [Hyz|Hyz|Hyz];
    destruct (N.compare_spec (N_of_ascii x) (N_of_ascii z)) as [Hxz|Hxz|Hxz];
    try lia.
  apply IH.
Qed.

(** ** The properties on concrete runs *)

(** Scenario A of the spec: one creation; the library gains "casa" under the
    new id, and the class entry carries it. *)
Example scenario_A :
  summary (main counter_service codeunit_compare live_config
             (class_001 [unit_of "casa" "" ["casa"]]) (Err LoadError) no_decks)
  = Some (1, ["A"], [("casa", "A")])
  ∧ lib_entries (lib scenario_A_done) = [unit_of "casa" "A" ["casa"]].
Proof. split; vm_compute; reflexivity. Qed.

(** Scenario C: the run fails on the conflict, and no card was posted. *)
Example scenario_C :
  ∃ st, main counter_service codeunit_compare live_config
          (class_001 [unit_of "casa" "X123" []])
          (library_v1 [unit_of "casa" "Y999" []]) no_decks
        = Failed (IdConflict "casa" "X123" "Y999") st
    ∧ trace (env st) = [GET_decks; POST_decks "001_V" None].
Proof. eexists. split; vm_compute; reflexivity. Qed.

(** Scenario D: a second class brings other variants of a known chunk; the
    library entry ends with the union. *)
Example scenario_D :
  ∃ st, main counter_service codeunit_compare live_config
          (class_001 [unit_of "casa" "" ["casas"; "casa"; "casinha"]])
          (library_v1 [unit_of "casa" "A" ["casa"]]) (mkMochi [mkDeck "D1" "001_V"] 1)
        = Done st
    ∧ lib_entries (lib st) = [unit_of "casa" "A" ["casa"; "casas"; "casinha"]]
    ∧ created st = 0.
Proof. eexists. split_and!; vm_compute; reflexivity. Qed.

(** Scenario C: the run stops at the conflict, with nothing done. *)
Lemma conflict_aborts_run_witness :
  reconcile counter_service live_config "D1" scenario_C_start =
  Throw (IdConflict "casa" "X123" "Y999") scenario_C_start.
Proof.
  apply (conflict_aborts_run counter_service live_config "D1"
           scenario_C_start scenario_C_start 0 0
           (unit_of "casa" "X123" []) (unit_of "casa" "Y999" [])).
  - reflexivity.
  - reflexivity.
  - vm_compute. reflexivity.
  - vm_compute. discriminate.
  - vm_compute. discriminate.
  - vm_compute. discriminate.
Defined.

(** C1 as stated fails: the class id " " is not empty and differs from the
    library's "Y999", yet the run ends normally, with the id overwritten. *)
Lemma blank_class_id_is_not_a_conflict :
  " " ≠ "" ∧ " " ≠ "Y999"
  ∧ ∃ st, main counter_service codeunit_compare live_config
            (class_001 [unit_of "casa" " " []])
            (library_v1 [unit_of "casa" "Y999" []]) no_decks = Done st
      ∧ id <$> doc_entries (classDoc st) = ["Y999"]
      ∧ skippedExisting st = ["casa"].
Proof.
  split_and!; [discriminate..|].
  eexists. split_and!; vm_compute; reflexivity.
Qed.

(** Scenario B: the cache hit on "casa". *)
Lemma cache_hit_backfills_witness :
  ∃ sk', for_each counter_service live_config "D1" (seq 0 1) scenario_hit_start = Continue sk'
    ∧ id <$> doc_entries (classDoc sk') = ["Y1"]
    ∧ variants <$> lib_entries (lib sk') = [["casa"; "casas"]]
    ∧ skippedExisting sk' = ["casa"]
    ∧ env sk' = env scenario_hit_start.
Proof.
  destruct (cache_hit_backfills counter_service live_config "D1"
              scenario_hit_start scenario_hit_start 0 0
              (mkEntry "casa" "" ["casas"] (Some "home") None) casa_Y1)
    as (sk' & Hloop & Hdoc & Hlib & Hskip & Henv & _).
  - reflexivity.
  - reflexivity.
  - vm_compute. reflexivity.
  - vm_compute. discriminate.
  - left. vm_compute. reflexivity.
  - exists sk'. rewrite Hdoc, Hlib, Hskip, Henv. split_and!; [done|reflexivity..].
Defined.

(** C3 as stated fails: the library id " " is not empty and there is no
    conflict, yet a card is created and the chunk is not skipped. *)
Lemma blank_library_id_is_no_hit :
  " " ≠ ""
  ∧ ∃ st, main counter_service codeunit_compare live_config
            (class_001 [unit_of "casa" "" []])
            (library_v1 [unit_of "casa" " " []]) no_decks = Done st
      ∧ created st = 1
      ∧ skippedExisting st = []
      ∧ id <$> doc_entries (classDoc st) = ["A"]
      ∧ length (filter (fun ev => is_creation ev = true) (trace (env st))) = 1.
Proof.
  split; [discriminate|].
  eexists. split_and!; vm_compute; reflexivity.
Qed.

(** Scenario A: the creation of "casa". *)
Lemma cache_miss_registers_witness :
  ∃ sk', for_each counter_service live_config "D1" (seq 0 1) scenario_A_start = Continue sk'
    ∧ id <$> doc_entries (classDoc sk') = ["A"]
    ∧ created sk' = 1.
Proof.
  destruct (cache_miss_registers counter_service live_config "D1"
              scenario_A_start scenario_A_start 0 (unit_of "casa" "" ["casa"]) "A"
              (mkEnv (mkMochi [mkDeck "D1" "001_V"] 1)
                 [GET_decks; POST_decks "001_V" None;
                  POST_cards (card_body live_config "D1" (unit_of "casa" "" ["casa"]))]))
    as (sk' & Hloop & Hdoc & _ & Hcr & _).
  - reflexivity.
  - reflexivity.
  - left. vm_compute. reflexivity.
  - reflexivity.
  - exists sk'. rewrite Hdoc, Hcr. split_and!; [done|reflexivity..].
Defined.

(** C4 as stated fails: under DRY_RUN a card is counted as created and
    nothing is written. *)
Lemma dry_run_creation_is_not_saved :
  ∃ st, main counter_service codeunit_compare dry_config
          (class_001 [unit_of "casa" "" ["casa"]]) (Err LoadError) no_decks = Done st
    ∧ created st = 1
    ∧ trace (env st) = [GET_decks].
Proof. eexists. split_and!; vm_compute; reflexivity. Qed.

(** The id "Y1" of "casa" stays through the loop and the sort. *)
Lemma assigned_ids_are_kept_witness :
  ∃ e', lib_entries (lib (outcome_state
            (for_each counter_service live_config "D1" (seq 0 1) scenario_hit_start)))
          !! 0 = Some e'
    ∧ chunk e' = "casa" ∧ id e' = "Y1".
Proof.
  destruct (assigned_ids_are_kept counter_service codeunit_compare live_config "D1"
              (seq 0 1) scenario_hit_start 0 casa_Y1)
    as (e' & He' & Hc & Hi & _).
  - reflexivity.
  - vm_compute. discriminate.
  - by exists e'.
Defined.

(** C5 as stated fails: the library id " " is not empty, and the run
    replaces it. *)
Lemma blank_library_id_is_replaced :
  " " ≠ ""
  ∧ ∃ st, main counter_service codeunit_compare live_config
            (class_001 [unit_of "mesa" "" []])
            (library_v1 [unit_of "mesa" " " []]) no_decks = Done st
      ∧ assignment <$> lib_entries (lib st) = [("mesa", "A")].
Proof.
  split; [discriminate|].
  eexists. split_and!; vm_compute; reflexivity.
Qed.

(** On the cache hit the variants grow and the meaning stays. *)
Lemma encounter_updates_registry_witness :
  ∃ le', lib_entries (lib (skip_existing 0 (mkEntry "casa" "" ["casas"] (Some "home") None)
                             0 casa_Y1 scenario_hit_start)) !! 0 = Some le'
    ∧ variants le' = ["casa"; "casas"]
    ∧ meaning le' = Some "house".
Proof.
  destruct (encounter_updates_registry counter_service live_config "D1"
              scenario_hit_start scenario_hit_start
              (skip_existing 0 (mkEntry "casa" "" ["casas"] (Some "home") None)
                 0 casa_Y1 scenario_hit_start)
              0 0 (mkEntry "casa" "" ["casas"] (Some "home") None) casa_Y1)
    as (le' & Hle & Hv & Hm).
  - reflexivity.
  - reflexivity.
  - vm_compute. reflexivity.
  - vm_compute. reflexivity.
  - exists le'. split_and!; [done|by rewrite Hv|].
    destruct (decide (trim (id casa_Y1) = "")) as [Hblank|_]; [|apply Hm].
    vm_compute in Hblank. discriminate.
Defined.

(** C6 as stated fails: on a cache hit the library keeps the meaning
    "house" although the class entry says "home". *)
Lemma cache_hit_keeps_meaning :
  ∃ st, main counter_service codeunit_compare live_config
          (class_001 [mkEntry "casa" "" ["casas"] (Some "home") None])
          (library_v1 [casa_Y1]) no_decks = Done st
    ∧ meaning <$> doc_entries (classDoc st) = [Some "home"]
    ∧ lib_entries (lib st) = [mkEntry "casa" "Y1" ["casa"; "casas"] (Some "house") None].
Proof. eexists. split_and!; vm_compute; reflexivity. Qed.

(** "mesa" before "casa": the loop leaves the library in that order, the
    sort turns it round, and the sorted library is the last thing written. *)
Lemma library_sorted_then_saved_witness :
  chunk <$> lib_entries
              (lib (outcome_state
                      (reconcile counter_service live_config "D1" scenario_unsorted_start)))
  = ["mesa"; "casa"]
  ∧ chunk <$> lib_entries (lib scenario_unsorted_done) = ["casa"; "mesa"]
  ∧ StronglySorted (ascending (by_chunk codeunit_compare))
      (lib_entries (lib scenario_unsorted_done))
  ∧ ∃ before,
      trace (env scenario_unsorted_done) =
      before ++ [Saved "chunks_000.json" (json_of_classDoc (classDoc scenario_unsorted_done));
                 Saved "chunk_library.json" (json_of_library (lib scenario_unsorted_done))].
Proof.
  destruct (library_sorted_then_saved counter_service codeunit_compare live_config
              (class_001 [unit_of "mesa" "" ["mesa"]; unit_of "casa" "" ["casa"]])
              (Err LoadError) no_decks scenario_unsorted_done)
    as (Hsorted & _ & Hsaved).
  - apply codeunit_compare_total.
  - apply codeunit_compare_trans.
  - vm_compute. reflexivity.
  - split_and!; [vm_compute; reflexivity|vm_compute; reflexivity|exact Hsorted|exact Hsaved].
Defined.

(** C7 as stated fails: under DRY_RUN the run ends normally without the
    final write. *)
Lemma dry_run_final_write_is_skipped :
  ∃ st, main counter_service codeunit_compare dry_config
          (class_001 [unit_of "casa" "" []]) (library_v1 [casa_Y1]) no_decks = Done st
    ∧ skippedExisting st = ["casa"]
    ∧ trace (env st) = [GET_decks].
Proof. eexists. split_and!; vm_compute; reflexivity. Qed.

(** The union of ["b"; ""; "a"; "b"] with nothing, and of a clean list. *)
Lemma union_laws_witness :
  union [] ["b"; ""; "a"; "b"] = ["b"; "a"] ∧ union [] ["b"; "a"] = ["b"; "a"].
Proof.
  destruct (union_laws [] [] ["b"; "a"]) as (_ & _ & _ & _ & _ & _ & _ & _ & Hid).
  split; [vm_compute; reflexivity|].
  apply Hid.
  - apply NoDup_cons. split; [|apply NoDup_singleton].
    apply not_elem_of_cons. split; [discriminate|apply not_elem_of_nil].
  - repeat (apply not_elem_of_cons; split; [discriminate|]). apply not_elem_of_nil.
Defined.

(** A missing library, and a class file that holds a number. *)
Lemma library_falls_back_class_is_fatal_witness :
  load_library (Err LoadError) = emptyLibrary
  ∧ ∃ e, main counter_service codeunit_compare live_config (Ok (Num 3)) (Err LoadError) no_decks =
         Fatal e (mkEnv no_decks []).
Proof.
  destruct (library_falls_back_class_is_fatal counter_service codeunit_compare live_config
              (Ok (Num 3)) (Err LoadError) no_decks) as (Hlib & _ & Hclass).
  split.
  - apply Hlib. exact I.
  - apply Hclass. vm_compute. reflexivity.
Defined.

(** "casa" and " casa" in one class document; " casa" against a library
    that has "casa". *)
Lemma trimmed_validation_raw_lookup_witness :
  (∃ e, validateClassDoc
          (json_of_classDoc (mkClassDoc "001" [unit_of "casa" "" []; unit_of " casa" "" []]))
        = Err e)
  ∧ lookup_lib scenario_space_start " casa" = None.
Proof.
  destruct (trimmed_validation_raw_lookup counter_service live_config "D1") as [Ha Hb].
  split.
  - apply (Ha (json_of_classDoc (mkClassDoc "001" [unit_of "casa" "" []; unit_of " casa" "" []]))
             [json_of_entry (unit_of "casa" "" []); json_of_entry (unit_of " casa" "" [])]
             0 1 (json_of_entry (unit_of "casa" "" [])) (json_of_entry (unit_of " casa" "" []))
             "casa" " casa"); try reflexivity.
    discriminate.
  - destruct (Hb (mkClassDoc "001" [unit_of " casa" "" []])
                (mkLibrary (Some (Num 1)) [casa_Y1])
                deck_created
                0 scenario_space_start (unit_of " casa" "" []) casa_Y1)
      as (_ & Hnone & _).
    + split; [repeat constructor; discriminate|]. apply NoDup_singleton.
    + split; [repeat constructor; discriminate|]. apply NoDup_singleton.
    + reflexivity.
    + reflexivity.
    + apply list_elem_of_here.
    + discriminate.
    + vm_compute. reflexivity.
    + exact Hnone.
Defined.

(** * The rest of the script: properties *)

(** ** What a whole run keeps *)

Section WholeRun.
Context {World : Type} (svc : Service World).
Context (localeCompare : string -> string -> Z) (cfg : Config).

Lemma erase_id_set_id (e : Entry) (i : string) : erase_id (set_id e i) = erase_id e.
Proof. by destruct e. Qed.

Lemma insert_same_erased (l : list Entry) (i : nat) (e : Entry) (x : string) :
  l !! i = Some e → erase_id <$> <[i := set_id e x]> l = erase_id <$> l.
Proof.
  intros Hi. rewrite list_fmap_insert, erase_id_set_id.
  apply list_insert_id. by rewrite list_lookup_fmap, Hi.
Qed.

Lemma step_class_frame (deckId : string) (i : nat) (st : State World) :
  doc_class (classDoc (outcome_state (step svc cfg deckId i st))) = doc_class (classDoc st)
  ∧ erase_id <$> doc_entries (classDoc (outcome_state (step svc cfg deckId i st)))
    = erase_id <$> doc_entries (classDoc st).
Proof.
  destruct (step_has_shape svc cfg deckId i st)
    as [Hend|entry j le Hi Hl|entry j le Hi Hl|entry e env' Hi Hh Hc|entry cardId env' Hi Hh Hc];
    simpl; try done.
  - split; [done|]. by apply insert_same_erased.
  - unfold register_card. destruct (lookup_lib st (chunk entry)) as [[j le]|];
      rewrite persist_classDoc; simpl; (split; [done|]); by apply insert_same_erased.
Qed.

Lemma for_each_class_frame (deckId : string) (todo : list nat) (st : State World) :
  doc_class (classDoc (outcome_state (for_each svc cfg deckId todo st)))
  = doc_class (classDoc st)
  ∧ erase_id <$> doc_entries (classDoc (outcome_state (for_each svc cfg deckId todo st)))
    = erase_id <$> doc_entries (classDoc st).
Proof.
  revert st. induction todo as [|i todo IH]; intros st; simpl; [done|].
  pose proof (step_class_frame deckId i st) as [Hc He].
  destruct (step svc cfg deckId i st) as [st'|e st']; simpl in *; [|done].
  destruct (IH st') as [Hc' He']. split; congruence.
Qed.

(** How a run that reached the loop went: the state it ends in is what the
    loop left, sorted and written when the loop fell through. *)
Lemma main_loop_inv (classFile libFile : file) (w : World) (st : State World) :
  main svc localeCompare cfg classFile libFile w = Done st
  ∨ (∃ e, main svc localeCompare cfg classFile libFile w = Failed e st) →
  ∃ classJson doc l deck env1,
    classFile = Ok classJson
    ∧ validateClassDoc classJson = Ok tt
    ∧ classDoc_of_json classJson = Some doc
    ∧ library_of_json (load_library libFile) = Some l
    ∧ resolve_deck svc cfg (String.append (doc_class doc) "_V") (mkEnv w []) = (Ok deck, env1)
    ∧ match reconcile svc cfg (deck_id deck) (initial doc l env1) with
      | Continue stL =>
          st = finish localeCompare cfg stL
          ∧ main svc localeCompare cfg classFile libFile w = Done st
      | Throw e stT =>
          st = stT ∧ main svc localeCompare cfg classFile libFile w = Failed e st
      end.
Proof.
  unfold main. intros H.
  destruct classFile as [classJson|]; [|by destruct H as [?|[? ?]]].
  destruct (validateClassDoc classJson) as [[]|] eqn:Hv; [|by destruct H as [?|[? ?]]].
  destruct (classDoc_of_json classJson) as [doc|] eqn:Hd; [|by destruct H as [?|[? ?]]].
  destruct (library_of_json (load_library libFile)) as [l|] eqn:Hl;
    [|by destruct H as [?|[? ?]]].
  destruct (resolve_deck _ _ _ _) as [[deck|] env1] eqn:Hr; [|by destruct H as [?|[? ?]]].
  exists classJson, doc, l, deck, env1. split_and!; try done.
  destruct (reconcile _ _ _ _) as [stL|e stT] eqn:Hrec.
  - destruct H as [[= <-]|[? [=]]]. done.
  - destruct H as [[=]|[? [= _ <-]]]. done.
Qed.

(** X1. A run changes nothing of the class document but ids: whether it
    ends normally or fails inside the loop, the class name is the one it
    read, and the entries are the ones it read, in their order, with their
    chunk, variants, meaning and obs. *)
Theorem class_document_changes_only_ids (classJson : value) (libFile : file) (w : World)
    (doc : ClassDoc) (st : State World) :
  classDoc_of_json classJson = Some doc →
  main svc localeCompare cfg (Ok classJson) libFile w = Done st
  ∨ (∃ e, main svc localeCompare cfg (Ok classJson) libFile w = Failed e st) →
  doc_class (classDoc st) = doc_class doc
  ∧ erase_id <$> doc_entries (classDoc st) = erase_id <$> doc_entries doc.
Proof.
  intros Hdoc Hmain.
  apply main_loop_inv in Hmain
    as (classJson' & doc' & l & deck & env1 & [= <-] & _ & Hd & _ & _ & Hrec).
  assert (doc' = doc) as -> by congruence.
  pose proof (for_each_class_frame (deck_id deck)
                (seq 0 (length (doc_entries doc))) (initial doc l env1)) as [Hc He].
  unfold reconcile in Hrec. simpl in Hrec.
  destruct (for_each _ _ _ _ _) as [stL|e stT]; simpl in *.
  - destruct Hrec as [-> _]. by rewrite finish_classDoc.
  - by destruct Hrec as [-> _].
Qed.


(** *** The library only grows *)

Lemma step_keeps_variants (deckId : string) (i j : nat) (st : State World) (e : Entry) :
  lib_entries (lib st) !! j = Some e →
  ∃ e', lib_entries (lib (outcome_state (step svc cfg deckId i st))) !! j = Some e'
    ∧ chunk e' = chunk e
    ∧ ∀ v, v ∈ variants e → v ≠ "" → v ∈ variants e'.
Proof.
  intros Hj.
  destruct (step_has_shape svc cfg deckId i st)
    as [Hend|entry j' le Hi Hl|entry j' le Hi Hl|entry err env' Hi Hh Hc|entry cardId env' Hi Hh Hc];
    simpl; try (by exists e).
  - apply lookup_lib_Some in Hl as [_ Hj'].
    destruct (decide (j' = j)) as [->|Hne].
    + rewrite list_lookup_insert_eq by (by eapply lookup_lt_Some).
      eexists. split; [done|]. simplify_eq. split; [done|].
      intros v Hv Hne. simpl. apply union_elem. tauto.
    + rewrite list_lookup_insert_ne by done. by exists e.
  - unfold register_card.
    destruct (lookup_lib st (chunk entry)) as [[j' le]|] eqn:Hl; rewrite persist_lib; simpl.
    + apply lookup_lib_Some in Hl as [_ Hj'].
      destruct (decide (j' = j)) as [->|Hne].
      * rewrite list_lookup_insert_eq by (by eapply lookup_lt_Some).
        eexists. split; [done|]. simplify_eq. rewrite registered_chunk. split; [done|].
        intros v Hv Hne. rewrite registered_variants. apply union_elem. tauto.
      * rewrite list_lookup_insert_ne by done. by exists e.
    + rewrite lookup_app_l by (by eapply lookup_lt_Some). by exists e.
Qed.

Lemma for_each_keeps_variants (deckId : string) (todo : list nat) (j : nat)
    (st : State World) (e : Entry) :
  lib_entries (lib st) !! j = Some e →
  ∃ e', lib_entries (lib (outcome_state (for_each svc cfg deckId todo st))) !! j = Some e'
    ∧ chunk e' = chunk e
    ∧ ∀ v, v ∈ variants e → v ≠ "" → v ∈ variants e'.
Proof.
  revert st e. induction todo as [|i todo IH]; intros st e Hj; simpl; [by exists e|].
  destruct (step_keeps_variants deckId i j st e Hj) as (e1 & H1 & Hc1 & Hv1).
  destruct (step svc cfg deckId i st) as [st1|err st1]; simpl in *; [|by exists e1].
  destruct (IH st1 e1 H1) as (e2 & H2 & Hc2 & Hv2).
  exists e2. split_and!; [done|congruence|].
  intros v Hv Hne. apply Hv2; [|done]. by apply Hv1.
Qed.

(** X2. A run never removes or renames a library entry and never drops one
    of its variants: every entry of the library the run started from is
    still there when the run ends, normally or inside the loop, under the
    same chunk and with every non-empty variant it had. *)
Theorem library_only_grows (classFile libFile : file) (w : World) (l : Library)
    (st : State World) (e : Entry) :
  library_of_json (load_library libFile) = Some l →
  main svc localeCompare cfg classFile libFile w = Done st
  ∨ (∃ err, main svc localeCompare cfg classFile libFile w = Failed err st) →
  e ∈ lib_entries l →
  ∃ e', e' ∈ lib_entries (lib st)
    ∧ chunk e' = chunk e
    ∧ ∀ v, v ∈ variants e → v ≠ "" → v ∈ variants e'.
Proof.
  intros Hlib Hmain [j Hj]%list_elem_of_lookup.
  apply main_loop_inv in Hmain
    as (classJson & doc & l' & deck & env1 & _ & _ & _ & Hl & _ & Hrec).
  assert (l' = l) as -> by congruence.
  destruct (for_each_keeps_variants (deck_id deck)
              (seq 0 (length (doc_entries doc))) j (initial doc l env1) e Hj)
    as (e' & He' & Hc & Hv).
  unfold reconcile in Hrec. simpl in Hrec.
  exists e'. split; [|done].
  destruct (for_each _ _ _ _ _) as [stL|err stT]; simpl in *; destruct Hrec as [-> _].
  - rewrite finish_perm. by eapply list_elem_of_lookup_2.
  - by eapply list_elem_of_lookup_2.
Qed.


(** *** Every entry is accounted for *)

Lemma count_app (kind : event → bool) (tr1 tr2 : list event) :
  count kind (tr1 ++ tr2) = count kind tr1 + count kind tr2.
Proof. unfold count. by rewrite filter_app, length_app. Qed.

Lemma createVocabCard_trace (deckId : string) (entry : Entry) (env0 env' : Env World)
    (r : result string) :
  createVocabCard svc cfg deckId entry env0 = (r, env') →
  trace env' =
  trace env0 ++ (if DRY_RUN cfg then [] else [POST_cards (card_body cfg deckId entry)])
  ∧ (DRY_RUN cfg = true → env' = env0 ∧ ∃ cardId, r = Ok cardId).
Proof using svc cfg.
  unfold createVocabCard. destruct (DRY_RUN cfg).
  - intros [= <- <-]. rewrite app_nil_r. eauto.
  - destruct (post_card svc _ _) as [r' w']. intros [= <- <-]. done.
Qed.

Lemma resolve_deck_trace (name : string) (env0 env1 : Env World) (r : result Deck) :
  resolve_deck svc cfg name env0 = (r, env1) →
  ∃ extra, trace env1 = trace env0 ++ GET_decks :: extra
    ∧ (extra = [] ∨ (DRY_RUN cfg = false ∧ ∃ parent, extra = [POST_decks name parent])).
Proof.
  unfold resolve_deck, findDeckByName, listDecks, createDeck.
  destruct (get_decks svc (world env0)) as [[ds|e] w1]; simpl.
  - destruct (List.find _ ds).
    + intros [= _ <-]. exists []. eauto.
    + destruct (DRY_RUN cfg).
      * intros [= _ <-]. exists []. eauto.
      * destruct (post_deck svc _ _ _) as [r' w2]. intros [= _ <-]. simpl.
        eexists. rewrite <- app_assoc. split; [done|]. right. eauto.
  - intros [= _ <-]. exists []. eauto.
Qed.

Lemma step_counts (deckId : string) (i : nat) (st st' : State World) (entry : Entry) :
  doc_entries (classDoc st) !! i = Some entry →
  step svc cfg deckId i st = Continue st' →
  (created st' = S (created st)
   ∧ skippedExisting st' = skippedExisting st
   ∧ ∃ saved, trace (env st') =
       trace (env st) ++
         (if DRY_RUN cfg then []
          else [POST_cards (card_body cfg deckId entry);
                Saved (classPath cfg) saved.1; Saved (libPath cfg) saved.2]))
  ∨ (created st' = created st
     ∧ skippedExisting st' = skippedExisting st ++ [chunk entry]
     ∧ env st' = env st).
Proof.
  intros Hi Hstep.
  pose proof (step_has_shape svc cfg deckId i st) as Hshape. rewrite Hstep in Hshape.
  inversion Hshape as [Hend| |entry' j le Hi' Hl Hid Hno|
                       |entry' cardId env' Hi' Hh Hc]; subst; clear Hshape.
  - congruence.
  - right. assert (entry' = entry) as -> by congruence. done.
  - left. assert (entry' = entry) as -> by congruence.
    apply createVocabCard_trace in Hc as [Htr _].
    unfold register_card.
    destruct (lookup_lib st (chunk entry)) as [[j le]|];
      rewrite persist_created, persist_skipped, persist_trace; simpl;
      (split_and!; [done..|]); eexists (_, _); rewrite Htr;
      destruct (DRY_RUN cfg); simpl; by rewrite <- ?app_assoc.
Qed.

Lemma chunk_erase_id (es es' : list Entry) :
  erase_id <$> es = erase_id <$> es' → chunk <$> es = chunk <$> es'.
Proof.
  intros H. apply (f_equal (fmap chunk)) in H.
  by rewrite <- !list_fmap_compose in H.
Qed.

(** [k] turns of the loop, each for an entry that is there. *)
Lemma for_each_counts (deckId : string) (st0 sk : State World) (k : nat) :
  (k ≤ length (doc_entries (classDoc st0)))%nat →
  for_each svc cfg deckId (seq 0 k) st0 = Continue sk →
  ∃ made new,
    created sk = created st0 + made
    ∧ skippedExisting sk = skippedExisting st0 ++ new
    ∧ made + length new = k
    ∧ sublist new (take k (chunk <$> doc_entries (classDoc st0)))
    ∧ count is_creation (trace (env sk)) =
        count is_creation (trace (env st0)) + (if DRY_RUN cfg then 0 else made)
    ∧ count is_save (trace (env sk)) =
        count is_save (trace (env st0)) + (if DRY_RUN cfg then 0 else 2 * made).
Proof.
  revert sk. induction k as [|k IH]; intros sk Hk Hloop.
  { injection Hloop as <-. exists 0, []. rewrite app_nil_r.
    destruct (DRY_RUN cfg); split_and!; done || lia. }
  apply for_each_snoc_inv in Hloop as (s & Hs & Hstep).
  destruct (IH s) as (made & new & Hcr & Hsk & Hsum & Hsub & Hpost & Hsave); [lia|done|].
  pose proof (for_each_length svc cfg deckId (seq 0 k) st0) as Hlen. rewrite Hs in Hlen.
  pose proof (for_each_class_frame deckId (seq 0 k) st0) as [_ Hframe].
  rewrite Hs in Hframe. simpl in Hframe. apply chunk_erase_id in Hframe.
  destruct (lookup_lt_is_Some_2 (doc_entries (classDoc s)) k) as [entry Hentry]; [lia|].
  assert (Hck : (chunk <$> doc_entries (classDoc st0)) !! k = Some (chunk entry)).
  { rewrite <- Hframe, list_lookup_fmap, Hentry. done. }
  destruct (step_counts deckId k s sk entry Hentry Hstep)
    as [(Hcr' & Hsk' & saved & Htr)|(Hcr' & Hsk' & Henv)].
  - exists (S made), new. rewrite Hcr', Hsk', Hcr, Hsk, Htr, !count_app, Hpost, Hsave.
    split_and!; [lia|done|lia| | |].
    + rewrite (take_S_r _ _ _ Hck). by apply sublist_inserts_r.
    + destruct (DRY_RUN cfg); unfold count; simpl; lia.
    + destruct (DRY_RUN cfg); unfold count; simpl; lia.
  - exists made, (new ++ [chunk entry]).
    rewrite Hcr', Hsk', Hcr, Hsk, Henv, Hpost, Hsave, length_app. simpl.
    split_and!; [done|by rewrite app_assoc|lia| |done|done].
    rewrite (take_S_r _ _ _ Hck). by apply sublist_app.
Qed.

(** X3. A run that ends normally has handled every class entry exactly
    once: the cards created and the chunks skipped add up to the number of
    entries, and the skipped chunks are class chunks in class order.  Unless
    DRY_RUN is set, the trace holds one [POST /cards] per card created, and
    two writes per card created plus the two final ones. *)
Theorem run_accounts_for_every_entry (classFile libFile : file) (w : World)
    (st : State World) :
  main svc localeCompare cfg classFile libFile w = Done st →
  created st + length (skippedExisting st) = length (doc_entries (classDoc st))
  ∧ sublist (skippedExisting st) (chunk <$> doc_entries (classDoc st))
  ∧ (DRY_RUN cfg = false →
       count is_creation (trace (env st)) = created st
       ∧ count is_save (trace (env st)) = 2 * created st + 2).
Proof.
  intros Hmain.
  apply main_Done_inv in Hmain
    as (classJson & doc & l & deck & env1 & stL & -> & _ & _ & _ & Hdeck & Hrec & ->).
  unfold reconcile in Hrec. simpl in Hrec.
  destruct (for_each_counts (deck_id deck) (initial doc l env1) stL
              (length (doc_entries doc)))
    as (made & new & Hcr & Hsk & Hsum & Hsub & Hpost & Hsave); [done..|].
  simpl in *.
  pose proof (for_each_length svc cfg (deck_id deck) (seq 0 (length (doc_entries doc)))
                (initial doc l env1)) as Hlen.
  rewrite Hrec in Hlen. simpl in Hlen.
  pose proof (for_each_class_frame (deck_id deck) (seq 0 (length (doc_entries doc)))
                (initial doc l env1)) as [_ Hframe].
  rewrite Hrec in Hframe. simpl in Hframe. apply chunk_erase_id in Hframe.
  rewrite finish_created, finish_skipped, finish_classDoc, finish_trace.
  rewrite Hcr, Hsk, Hlen, Hframe. split_and!.
  - lia.
  - rewrite take_ge in Hsub by (by rewrite length_fmap). done.
  - intros Hlive. rewrite Hlive in *. rewrite !count_app, Hpost, Hsave.
    apply resolve_deck_trace in Hdeck as (extra & -> & Hextra). simpl.
    assert (count is_creation (GET_decks :: extra) = 0
            ∧ count is_save (GET_decks :: extra) = 0) as [-> ->].
    { destruct Hextra as [->|(_ & parent & ->)]; done. }
    unfold count. simpl. lia.
Qed.


(** *** A creation that fails *)

(** X4. An entry reaches [createVocabCard] when it passes the conflict
    check and misses the cache-hit test: its chunk has no library entry, or
    one whose id is empty or blank.  When [createVocabCard] then fails, the
    run throws that error.  The class document, the library, the skipped
    list and the created counter are as the earlier entries left them, no
    later entry is visited, and nothing is written after the failed request.
    This can only happen when DRY_RUN is not set: under DRY_RUN
    [createVocabCard] always returns an id. *)
Theorem provisioning_failure_aborts (deckId : string) (st0 sk : State World) (k : nat)
    (entry : Entry) (e : error) (env' : Env World) :
  for_each svc cfg deckId (seq 0 k) st0 = Continue sk →
  doc_entries (classDoc sk) !! k = Some entry →
  id_conflict (lookup_lib sk (chunk entry)) entry = false →
  has_id (lookup_lib sk (chunk entry)) = false →
  createVocabCard svc cfg deckId entry (env sk) = (Err e, env') →
  reconcile svc cfg deckId st0 =
    Throw e (mkState (classDoc sk) (lib sk) (libMap sk)
               (skippedExisting sk) (created sk) env')
  ∧ DRY_RUN cfg = false
  ∧ trace env' = trace (env sk) ++ [POST_cards (card_body cfg deckId entry)].
Proof.
  clear localeCompare. intros Hk Hi Hn Hh Hc.
  split.
  { rewrite (reconcile_split svc cfg deckId k st0 sk Hk); [|by eapply lookup_lt_Some].
    by rewrite (step_miss svc cfg deckId k sk entry Hi Hh Hn), Hc. }
  pose proof (createVocabCard_trace deckId entry _ _ _ Hc) as [Htr Hdry].
  destruct (DRY_RUN cfg); [|done].
  destruct (Hdry eq_refl) as (_ & cardId & [=]).
Qed.

(** *** DRY_RUN *)

(** X5. Under DRY_RUN a run sends at most the one [GET /decks] that looks
    for the deck: whatever the two files hold and however the run ends, it
    posts no deck and no card and writes no file. *)
Theorem dry_run_only_lists_decks (classFile libFile : file) (w : World) :
  DRY_RUN cfg = true →
  trace (outcome_env (main svc localeCompare cfg classFile libFile w)) = []
  ∨ trace (outcome_env (main svc localeCompare cfg classFile libFile w)) = [GET_decks].
Proof.
  intros Hdry. unfold main.
  destruct classFile as [classJson|]; [|by left].
  destruct (validateClassDoc classJson) as [[]|]; [|by left].
  destruct (classDoc_of_json classJson) as [doc|]; [|by left].
  destruct (library_of_json (load_library libFile)) as [l|]; [|by left].
  destruct (resolve_deck _ _ _ _) as [r env1] eqn:Hr.
  pose proof (resolve_deck_dry_trace svc cfg _ _ _ _ Hdry Hr) as Htr. simpl in Htr.
  right. destruct r as [deck|e]; [|done].
  pose proof (for_each_dry_trace svc cfg (deck_id deck)
                (seq 0 (length (doc_entries doc))) (initial doc l env1) Hdry) as Hloop.
  unfold reconcile. simpl in *.
  destruct (for_each _ _ _ _ _) as [stL|e stT]; simpl in *.
  - by rewrite finish_trace, Hdry, app_nil_r, Hloop.
  - by rewrite Hloop.
Qed.


(** *** The class document and the library after a run *)

(** X6. After a run that ends normally the class document and the library
    agree: every class entry's chunk is a chunk of the library, under the
    very id the class entry now carries. *)
Theorem class_and_library_agree (classFile libFile : file) (w : World)
    (st : State World) (u : Entry) :
  main svc localeCompare cfg classFile libFile w = Done st →
  u ∈ doc_entries (classDoc st) →
  ∃ e, e ∈ lib_entries (lib st) ∧ chunk e = chunk u ∧ id e = id u.
Proof.
  intros Hmain Hu.
  destruct (main_Done_documents svc localeCompare cfg _ _ _ _ Hmain) as (_ & _ & _ & Hsync).
  by apply Hsync.
Qed.

Lemma step_map_exact (deckId : string) (i : nat) (st : State World) :
  map_exact st → map_exact (outcome_state (step svc cfg deckId i st)).
Proof.
  intros (Hmap & Hnd & Hall).
  destruct (step_has_shape svc cfg deckId i st)
    as [Hend|entry j le Hi Hl|entry j le Hi Hl|entry err env' Hi Hh Hc|entry cardId env' Hi Hh Hc];
    simpl; try done.
  - (* cache hit *)
    apply lookup_lib_Some in Hl as [Hm Hj].
    assert (Hcs : chunk <$> lib_entries (lib (skip_existing i entry j le st))
                  = chunk <$> lib_entries (lib st)).
    { simpl. by eapply insert_same_chunk. }
    split_and!; rewrite ?Hcs; [|done|done].
    intros c j0 Hc. destruct (Hmap c j0 Hc) as (e & He & Hce). simpl.
    destruct (decide (j = j0)) as [->|Hjj].
    + rewrite list_lookup_insert_eq by (by eapply lookup_lt_Some).
      eexists. split; [done|]. simpl. congruence.
    + rewrite list_lookup_insert_ne by done. by exists e.
  - (* a card was created *)
    destruct (lookup_lib st (chunk entry)) as [[j le]|] eqn:Hl.
    + apply lookup_lib_Some in Hl as [Hm Hj].
      assert (Hcs : chunk <$> lib_entries
                      (lib (register_card cfg i entry (Some (j, le)) cardId env' st))
                    = chunk <$> lib_entries (lib st)).
      { unfold register_card. rewrite persist_lib. simpl.
        eapply insert_same_chunk; [done|]. by rewrite registered_chunk. }
      split_and!; rewrite ?Hcs; unfold register_card; rewrite ?persist_libMap; [|done|done].
      intros c j0 Hc'. rewrite persist_libMap in Hc'. simpl in Hc'.
      destruct (Hmap c j0 Hc') as (e & He & Hce). rewrite persist_lib. simpl.
      destruct (decide (j = j0)) as [->|Hjj].
      * rewrite list_lookup_insert_eq by (by eapply lookup_lt_Some).
        eexists. split; [done|]. rewrite registered_chunk. congruence.
      * rewrite list_lookup_insert_ne by done. by exists e.
    + apply (lookup_lib_None _ _ Hmap) in Hl.
      assert (Hcs : chunk <$> lib_entries
                      (lib (register_card cfg i entry None cardId env' st))
                    = (chunk <$> lib_entries (lib st)) ++ [chunk entry]).
      { unfold register_card, push_lib_entry. rewrite persist_lib.
        cbn [lib lib_entries]. rewrite fmap_app. f_equal.
        cbn [fmap list_fmap]. by rewrite registered_chunk. }
      assert (Hmap' : libMap (register_card cfg i entry None cardId env' st)
                      = <[chunk entry := length (lib_entries (lib st))]> (libMap st)).
      { unfold register_card. by rewrite persist_libMap. }
      split_and!; rewrite ?Hcs, ?Hmap'.
      * intros c j0 Hc'. rewrite Hmap' in Hc'.
        unfold register_card, push_lib_entry. rewrite persist_lib. cbn [lib lib_entries].
        destruct (decide (chunk entry = c)) as [<-|Hcc].
        -- rewrite lookup_insert_eq in Hc'. injection Hc' as <-.
           rewrite lookup_app_r, Nat.sub_diag by lia. simpl.
           eexists. split; [done|]. by rewrite registered_chunk.
        -- rewrite lookup_insert_ne in Hc' by done.
           destruct (Hmap c j0 Hc') as (e & He & Hce).
           rewrite lookup_app_l by (by eapply lookup_lt_Some). by exists e.
      * apply NoDup_app. split_and!; [done| |apply NoDup_singleton].
        intros c Hc' ->%list_elem_of_singleton.
        destruct (Hall _ Hc') as [j0 Hj0]. congruence.
      * intros c [Hc'| ->%list_elem_of_singleton]%elem_of_app.
        -- destruct (decide (chunk entry = c)) as [<-|Hne].
           ++ rewrite lookup_insert_eq. by eexists.
           ++ rewrite lookup_insert_ne by done. by apply Hall.
        -- rewrite lookup_insert_eq. by eexists.
Qed.

Lemma for_each_map_exact (deckId : string) (todo : list nat) (st : State World) :
  map_exact st → map_exact (outcome_state (for_each svc cfg deckId todo st)).
Proof.
  revert st. induction todo as [|i todo IH]; intros st Hst; simpl; [done|].
  pose proof (step_map_exact deckId i st Hst) as Hs.
  destruct (step svc cfg deckId i st) as [st'|e st']; simpl in *; [by apply IH|done].
Qed.

Lemma initial_map_exact (doc : ClassDoc) (l : Library) (env0 : Env World) :
  chunks_valid (lib_entries l) → map_exact (initial doc l env0).
Proof.
  intros Hl. split_and!; simpl.
  - intros c j Hc. by apply indexByChunk_Some.
  - by apply chunks_valid_NoDup.
  - intros c Hc. apply not_eq_None_Some. by intros Hn%indexByChunk_None.
Qed.

(** X7. However a run that reached the loop ends, no two entries of the
    library have the same chunk: a chunk that the library holds is looked up,
    not added again. *)
Theorem library_chunks_stay_distinct (classFile libFile : file) (w : World)
    (st : State World) :
  main svc localeCompare cfg classFile libFile w = Done st
  ∨ (∃ e, main svc localeCompare cfg classFile libFile w = Failed e st) →
  NoDup (chunk <$> lib_entries (lib st)).
Proof.
  intros Hmain.
  apply main_loop_inv in Hmain
    as (classJson & doc & l & deck & env1 & _ & _ & _ & Hl & _ & Hrec).
  pose proof (library_of_json_valid _ _ (load_library_is_wellformed libFile) Hl) as Hlv.
  pose proof (for_each_map_exact (deck_id deck) (seq 0 (length (doc_entries doc)))
                _ (initial_map_exact doc l env1 Hlv)) as (_ & Hnd & _).
  unfold reconcile in Hrec. simpl in Hrec.
  destruct (for_each _ _ _ _ _) as [stL|e stT]; simpl in *; destruct Hrec as [-> _].
  - by rewrite finish_perm.
  - done.
Qed.

(** X8. What a run that ends normally leaves can be loaded again as far as
    the class document goes: written out, it passes [validateClassDoc].  The
    library it leaves passes [validateLibrary] exactly when no two of its
    chunks are equal after trimming; otherwise [validateLibrary] throws. *)
Theorem written_documents_on_reload (classFile libFile : file) (w : World)
    (st : State World) :
  main svc localeCompare cfg classFile libFile w = Done st →
  validateClassDoc (json_of_classDoc (classDoc st)) = Ok tt
  ∧ (NoDup ((fun e => trim (chunk e)) <$> lib_entries (lib st)) →
       validateLibrary (json_of_library (lib st)) = Ok (json_of_library (lib st)))
  ∧ (¬ NoDup ((fun e => trim (chunk e)) <$> lib_entries (lib st)) →
       ∃ e, validateLibrary (json_of_library (lib st)) = Err e).
Proof.
  intros Hmain.
  destruct (main_Done_documents svc localeCompare cfg _ _ _ _ Hmain)
    as (Hclass & Hdv & Hlne & _).
  split_and!.
  - by apply validateClassDoc_ok, classDoc_wellformed_json.
  - intros Hnd.
    destruct (validateLibrary_cases (json_of_library (lib st))) as [[_ ?]|[Hwf _]]; [done|].
    by rewrite registry_wellformed_json in Hwf.
  - intros Hnd.
    destruct (validateLibrary_cases (json_of_library (lib st)))
      as [[Hwf _]|[_ [Hempty|?]]]; [exfalso| |done].
    + apply Hnd. unfold json_of_library, registry_wellformed in Hwf.
      destruct (lib_version (lib st)); simpl in Hwf;
        apply andb_true_iff in Hwf as [_ Hk]; apply bool_decide_eq_true in Hk;
        by rewrite keys_of_json in Hk.
    + exfalso. unfold validateLibrary, json_of_library in Hempty.
      destruct (lib_version (lib st)); simpl in Hempty;
        destruct (validateLibraryEntries _ _ _) as [[]|] eqn:Hv; simpl in Hempty;
        try discriminate.
      all: apply validateLibraryEntries_ok in Hv as (_ & Hk & _);
        apply Hnd; by rewrite keys_of_json in Hk.
Qed.

End WholeRun.

(** ** indexByChunk *)

Lemma indexByChunk_from_snoc (i : nat) (es : list Entry) (e : Entry) (m : gmap string nat) :
  indexByChunk_from i (es ++ [e]) m = <[chunk e := i + length es]> (indexByChunk_from i es m).
Proof.
  revert i m. induction es as [|e0 es IH]; intros i m; simpl.
  - by rewrite Nat.add_0_r.
  - rewrite IH. replace (S i + length es) with (i + S (length es)) by lia. done.
Qed.

(** X9. The map built by [indexByChunk] sends a chunk to the last entry
    that has it: a chunk is a key exactly when some entry has it, and the
    index it is sent to is that of an entry with this chunk after which no
    entry has it. *)
Theorem indexByChunk_last_wins (es : list Entry) (c : string) (j : nat) :
  (indexByChunk es !! c = Some j ↔
     (∃ e, es !! j = Some e ∧ chunk e = c)
     ∧ ∀ j' e', j < j' → es !! j' = Some e' → chunk e' ≠ c)
  ∧ (indexByChunk es !! c = None ↔ ∀ e, e ∈ es → chunk e ≠ c).
Proof.
  split.
  - revert j. induction es as [|e es IH] using rev_ind; intros j.
    { split; [done|]. by intros [(e & He & _) _]. }
    unfold indexByChunk in *. rewrite indexByChunk_from_snoc. simpl.
    destruct (decide (chunk e = c)) as [<-|Hne].
    + rewrite lookup_insert_eq. split.
      * intros [= <-]. split.
        -- exists e. by rewrite lookup_app_r, Nat.sub_diag by lia.
        -- intros j' e' Hlt Hj'. apply lookup_lt_Some in Hj'.
           rewrite length_app in Hj'. simpl in Hj'. lia.
      * intros [(e0 & He0 & Hc) Hlast]. f_equal.
        pose proof (lookup_lt_Some _ _ _ He0) as Hlt.
        rewrite length_app in Hlt. simpl in Hlt.
        destruct (decide (j = length es)) as [->|Hj]; [done|exfalso].
        apply (Hlast (length es) e); [lia| |done].
        by rewrite lookup_app_r, Nat.sub_diag by lia.
    + rewrite lookup_insert_ne by done. rewrite IH. split.
      * intros [(e0 & He0 & Hc) Hlast]. split.
        -- exists e0. split; [|done]. rewrite lookup_app_l; [done|]. by eapply lookup_lt_Some.
        -- intros j' e' Hlt Hj'. destruct (decide (j' < length es)) as [Hin|Hout].
           ++ rewrite lookup_app_l in Hj' by done. by eapply Hlast.
           ++ rewrite lookup_app_r in Hj' by lia.
              destruct (j' - length es) as [|n]; simpl in Hj'; [|done].
              injection Hj' as <-. done.
      * intros [(e0 & He0 & Hc) Hlast].
        assert (Hlt : j < length es).
        { pose proof (lookup_lt_Some _ _ _ He0) as Hlt.
          rewrite length_app in Hlt. simpl in Hlt.
          destruct (decide (j = length es)) as [->|]; [|lia].
          rewrite lookup_app_r, Nat.sub_diag in He0 by lia. simpl in He0. congruence. }
        rewrite lookup_app_l in He0 by done. split; [by exists e0|].
        intros j' e' Hlt' Hj'. apply (Hlast j' e' Hlt').
        rewrite lookup_app_l; [done|]. by eapply lookup_lt_Some.
  - rewrite indexByChunk_None. split.
    + intros Hc e He <-. apply Hc. apply list_elem_of_fmap. by exists e.
    + intros Hall [e [-> He]]%list_elem_of_fmap. by apply (Hall e).
Qed.

(** ** Resolving the deck *)

Section Deck.
Context {World : Type} (svc : Service World) (cfg : Config).

Lemma find_first_match (name : string) (before after : list Deck) (d : Deck) :
  deck_name d = name →
  Forall (fun d' => deck_name d' ≠ name) before →
  List.find (fun d => bool_decide (deck_name d = name)) (before ++ d :: after) = Some d.
Proof.
  intros Hd. induction 1 as [|d' before Hd' _ IH]; simpl.
  - by rewrite bool_decide_eq_true_2.
  - by rewrite bool_decide_eq_false_2.
Qed.

Lemma find_no_match (name : string) (ds : list Deck) :
  Forall (fun d' => deck_name d' ≠ name) ds →
  List.find (fun d => bool_decide (deck_name d = name)) ds = None.
Proof.
  induction 1 as [|d' ds Hd' _ IH]; simpl; [done|].
  by rewrite bool_decide_eq_false_2.
Qed.

(** X10. When Mochi lists a deck of the wanted name, the first one listed
    is used and nothing is posted.  When it lists none, a deck is made:
    under DRY_RUN a made-up one with the id "DRY_DECK_" followed by the name
    and no request; otherwise by one [POST /decks] of that name, under the
    master deck exactly when MASTER_VOCAB_DECK_ID is set, and its answer is
    the deck. *)
Theorem deck_is_reused_or_created (name : string) (env0 : Env World)
    (ds : list Deck) (w1 : World) :
  get_decks svc (world env0) = (Ok ds, w1) →
  (∀ before d after,
     ds = before ++ d :: after → deck_name d = name →
     Forall (fun d' => deck_name d' ≠ name) before →
     resolve_deck svc cfg name env0 = (Ok d, log GET_decks w1 env0))
  ∧ (Forall (fun d' => deck_name d' ≠ name) ds →
     resolve_deck svc cfg name env0 =
     if DRY_RUN cfg
     then (Ok (mkDeck (String.append "DRY_DECK_" name) name), log GET_decks w1 env0)
     else
       let parent :=
         if bool_decide (MASTER_VOCAB_DECK_ID cfg = "") then None
         else Some (MASTER_VOCAB_DECK_ID cfg) in
       ((post_deck svc name parent w1).1,
        mkEnv (post_deck svc name parent w1).2
          (trace env0 ++ [GET_decks; POST_decks name parent]))).
Proof.
  intros Hget. unfold resolve_deck, findDeckByName, listDecks. rewrite Hget. split.
  - intros before d after -> Hd Hbefore. by rewrite find_first_match.
  - intros Hnone. rewrite find_no_match by done.
    unfold createDeck. destruct (DRY_RUN cfg); [done|]. simpl.
    assert (Hp : (if truthy_str (MASTER_VOCAB_DECK_ID cfg)
                  then Some (MASTER_VOCAB_DECK_ID cfg) else None)
                 = if bool_decide (MASTER_VOCAB_DECK_ID cfg = "") then None
                   else Some (MASTER_VOCAB_DECK_ID cfg)).
    { destruct (MASTER_VOCAB_DECK_ID cfg); done. }
    rewrite Hp. destruct (post_deck svc _ _ _) as [r w2]. simpl.
    unfold log. simpl. by rewrite <- app_assoc.
Qed.

(** ** Card ids under DRY_RUN *)

Lemma no_white_space_append (s t : string) :
  no_white_space s = true → no_white_space t = true →
  no_white_space (String.append s t) = true.
Proof.
  induction s as [|c s IH]; [done|].
  change (String.append (String c s) t) with (String c (String.append s t)).
  simpl. rewrite !andb_true_iff. intros [Hc Hs] Ht. split; [done|by apply IH].
Qed.

Lemma replace_ws_no_white_space (in_run : bool) (s : string) :
  no_white_space (replace_ws in_run s) = true.
Proof.
  revert in_run. induction s as [|c s IH]; intros in_run; simpl; [done|].
  destruct (is_white_space c) eqn:Hc.
  - destruct in_run; [apply IH|]. simpl. by rewrite IH.
  - simpl. by rewrite Hc, IH.
Qed.

Lemma trimEnd_no_white_space (s : string) : no_white_space s = true → trimEnd s = s.
Proof.
  induction s as [|c s IH]; [done|]. simpl.
  rewrite andb_true_iff, negb_true_iff. intros [Hc Hs].
  rewrite IH by done. destruct s; [by rewrite Hc|done].
Qed.

Lemma trim_no_white_space (s : string) : no_white_space s = true → trim s = s.
Proof.
  intros Hs. unfold trim.
  assert (trimStart s = s) as ->; [|by apply trimEnd_no_white_space].
  destruct s as [|c s]; [done|]. simpl in *.
  apply andb_true_iff in Hs as [Hc _]. apply negb_true_iff in Hc. by rewrite Hc.
Qed.

(** X11. Under DRY_RUN [createVocabCard] sends nothing, always succeeds,
    and the id it makes up has no white space in it and is not empty: it is
    an id that the next cache-hit test accepts as assigned. *)
Theorem dry_run_card_id (deckId : string) (entry : Entry) (env0 : Env World) :
  DRY_RUN cfg = true →
  ∃ cardId, createVocabCard svc cfg deckId entry env0 = (Ok cardId, env0)
    ∧ no_white_space cardId = true
    ∧ trim cardId = cardId
    ∧ cardId ≠ "".
Proof.
  intros Hdry. unfold createVocabCard. rewrite Hdry.
  eexists. split; [done|].
  assert (Hn : no_white_space (String.append "DRY_CARD_" (replace_ws false (chunk entry))) = true).
  { apply no_white_space_append; [done|apply replace_ws_no_white_space]. }
  split_and!; [done|by apply trim_no_white_space|done].
Qed.

(** ** The body of a card *)

(** X16. What a vocabulary card carries.  When the term and meaning field
    ids differ and the obs field id is neither of them, the request body has
    the chunk under the term field, the meaning (or the empty text) under the
    meaning field, and one more field only under a set VOCAB_FIELD_OBS_ID
    for an entry whose obs is not blank: the trimmed obs.  Ids and variants
    are not sent. *)
Theorem card_body_fields (deckId : string) (entry : Entry) :
  VOCAB_FIELD_TERM_ID cfg ≠ VOCAB_FIELD_MEANING_ID cfg →
  VOCAB_FIELD_OBS_ID cfg ≠ VOCAB_FIELD_TERM_ID cfg →
  VOCAB_FIELD_OBS_ID cfg ≠ VOCAB_FIELD_MEANING_ID cfg →
  let body := card_body cfg deckId entry in
  body_deck_id body = deckId
  ∧ body_template_id body = VOCAB_TEMPLATE_ID cfg
  ∧ fields body !! VOCAB_FIELD_TERM_ID cfg = Some (chunk entry)
  ∧ fields body !! VOCAB_FIELD_MEANING_ID cfg = Some (default "" (meaning entry))
  ∧ ∀ k v, k ≠ VOCAB_FIELD_TERM_ID cfg → k ≠ VOCAB_FIELD_MEANING_ID cfg →
      (fields body !! k = Some v ↔
         k = VOCAB_FIELD_OBS_ID cfg ∧ k ≠ ""
         ∧ ∃ o, obs entry = Some o ∧ trim o ≠ "" ∧ v = trim o).
Proof.
  intros Htm Hot Hom. unfold card_body. cbn zeta.
  set (fields0 := <[VOCAB_FIELD_MEANING_ID cfg := default "" (meaning entry)]>
                    (<[VOCAB_FIELD_TERM_ID cfg := chunk entry]> ∅) : gmap string string).
  assert (H0t : fields0 !! VOCAB_FIELD_TERM_ID cfg = Some (chunk entry)).
  { unfold fields0. rewrite lookup_insert_ne by done. by rewrite lookup_insert_eq. }
  assert (H0m : fields0 !! VOCAB_FIELD_MEANING_ID cfg = Some (default "" (meaning entry))).
  { unfold fields0. by rewrite lookup_insert_eq. }
  assert (H0k : ∀ k, k ≠ VOCAB_FIELD_TERM_ID cfg → k ≠ VOCAB_FIELD_MEANING_ID cfg →
                     fields0 !! k = None).
  { intros k Hkt Hkm. unfold fields0. by rewrite !lookup_insert_ne. }
  clearbody fields0.
  destruct (obs entry) as [o|]; simpl.
  2:{ split_and!; try done. intros k v Hkt Hkm. rewrite H0k by done. naive_solver. }
  destruct (truthy_str (VOCAB_FIELD_OBS_ID cfg)) eqn:Hobs; simpl.
  2:{ apply truthy_str_false in Hobs. split_and!; try done.
      intros k v Hkt Hkm. rewrite H0k by done. naive_solver. }
  apply truthy_str_true in Hobs.
  destruct (truthy_str o) eqn:Ho; simpl.
  2:{ apply truthy_str_false in Ho as ->. split_and!; try done.
      intros k v Hkt Hkm. rewrite H0k by done. split; [done|].
      intros (_ & _ & o & [= <-] & Hne & _). done. }
  destruct (truthy_str (trim o)) eqn:Hto; simpl.
  2:{ apply truthy_str_false in Hto. split_and!; try done.
      intros k v Hkt Hkm. rewrite H0k by done. naive_solver. }
  apply truthy_str_true in Hto.
  split_and!; try done.
  - by rewrite lookup_insert_ne.
  - by rewrite lookup_insert_ne.
  - intros k v Hkt Hkm. destruct (decide (k = VOCAB_FIELD_OBS_ID cfg)) as [->|Hko].
    + rewrite lookup_insert_eq. naive_solver.
    + rewrite lookup_insert_ne by done. rewrite H0k by done. naive_solver.
Qed.

End Deck.

(** ** The files on disk *)

Lemma append_nonempty_ne (p t : string) : t ≠ "" → String.append p t ≠ p.
Proof.
  intros Ht. induction p as [|c p IH].
  - done.
  - change (String.append (String c p) t) with (String c (String.append p t)).
    intros [= H]. by apply IH.
Qed.

Lemma tmp_ne (p : string) : Disk.tmp p ≠ p.
Proof. by apply append_nonempty_ne. Qed.

Lemma saveJsonAtomic_NoFault (p : string) (obj : value) (d : gmap string value) :
  Disk.saveJsonAtomic Disk.NoFault p obj d
  = Disk.Fulfilled (<[p := obj]> (delete (Disk.tmp p) d)).
Proof.
  unfold Disk.saveJsonAtomic, Disk.rename, Disk.writeFile.
  rewrite lookup_insert_eq. by rewrite delete_insert_eq.
Qed.

Lemma saveJsonAtomic_Fulfilled (f : Disk.fault) (p : string) (obj : value)
    (d d' : gmap string value) :
  Disk.saveJsonAtomic f p obj d = Disk.Fulfilled d' →
  f = Disk.NoFault ∧ d' = <[p := obj]> (delete (Disk.tmp p) d).
Proof.
  destruct f as [|remains|].
  - rewrite saveJsonAtomic_NoFault. by intros [= <-].
  - done.
  - unfold Disk.saveJsonAtomic, Disk.rename, Disk.writeFile. done.
Qed.

Lemma saveJsonAtomic_Rejected (f : Disk.fault) (p : string) (obj : value)
    (d d' : gmap string value) :
  Disk.saveJsonAtomic f p obj d = Disk.Rejected d' →
  f ≠ Disk.NoFault ∧ ∀ q, q ≠ Disk.tmp p → d' !! q = d !! q.
Proof.
  destruct f as [|remains|].
  - by rewrite saveJsonAtomic_NoFault.
  - unfold Disk.saveJsonAtomic, Disk.writeFile. intros [= <-]. split; [done|].
    intros q Hq. by rewrite lookup_partial_alter_ne.
  - unfold Disk.saveJsonAtomic, Disk.rename, Disk.writeFile. intros [= <-]. split; [done|].
    intros q Hq. by rewrite lookup_insert_ne.
Qed.

Lemma count_saved (path : string) (obj : value) (tr : list event) :
  count is_save (Saved path obj :: tr) = S (count is_save tr).
Proof. unfold count. by rewrite filter_cons_True. Qed.

Lemma count_not_saved (ev : event) (tr : list event) :
  is_save ev = false → count is_save (ev :: tr) = count is_save tr.
Proof. intros Hev. unfold count. rewrite filter_cons_False; [done|]. by rewrite Hev. Qed.

(** The writes of a trace in two stretches: the second stretch starts where
    the first one ended, unless a write of the first was rejected. *)
Lemma replay_app (faults : list Disk.fault) (tr1 tr2 : list event) (d : gmap string value) :
  Disk.replay faults (tr1 ++ tr2) d =
  match Disk.replay faults tr1 d with
  | Disk.Fulfilled d1 => Disk.replay (drop (count is_save tr1) faults) tr2 d1
  | Disk.Rejected d1 => Disk.Rejected d1
  end.
Proof.
  revert faults d. induction tr1 as [|ev tr1 IH]; intros faults d; [done|].
  destruct ev as [| | |path obj]; simpl;
    try (rewrite count_not_saved by done; apply IH).
  rewrite count_saved.
  destruct (Disk.saveJsonAtomic _ path obj d) as [d'|d']; [|done].
  rewrite IH. destruct faults as [|f faults]; simpl; [by rewrite drop_nil|done].
Qed.

Lemma replay_no_save (faults : list Disk.fault) (tr : list event) (d : gmap string value) :
  Forall (fun ev => is_save ev = false) tr → Disk.replay faults tr d = Disk.Fulfilled d.
Proof.
  induction 1 as [|ev tr Hev _ IH]; [done|].
  destruct ev; simpl; try done.
Qed.

Lemma replay_no_fault (tr : list event) (d : gmap string value) :
  ∃ d', Disk.replay [] tr d = Disk.Fulfilled d'.
Proof.
  revert d. induction tr as [|ev tr IH]; intros d; [by eexists|].
  destruct ev; simpl; try apply IH.
  rewrite saveJsonAtomic_NoFault. apply IH.
Qed.

(** X12. [saveJsonAtomic] replaces the target as a whole or not at all.
    When both of its calls fulfil, the target holds the new document, the
    temporary file is gone (also one left behind by an earlier crash) and
    every other file is as it was.  When the write or the rename rejects,
    the target and every file but the temporary one are as they were.  It
    goes through exactly when neither call rejects. *)
Theorem atomic_save_all_or_nothing (f : Disk.fault) (filePath : string) (obj : value)
    (d : gmap string value) :
  match Disk.saveJsonAtomic f filePath obj d with
  | Disk.Fulfilled d' =>
      f = Disk.NoFault
      ∧ Disk.loadJson d' filePath = Ok obj
      ∧ d' !! Disk.tmp filePath = None
      ∧ ∀ q, q ≠ filePath → q ≠ Disk.tmp filePath → d' !! q = d !! q
  | Disk.Rejected d' =>
      f ≠ Disk.NoFault
      ∧ Disk.loadJson d' filePath = Disk.loadJson d filePath
      ∧ ∀ q, q ≠ Disk.tmp filePath → d' !! q = d !! q
  end.
Proof.
  pose proof (tmp_ne filePath) as Hne.
  destruct (Disk.saveJsonAtomic f filePath obj d) as [d'|d'] eqn:Hsave.
  - apply saveJsonAtomic_Fulfilled in Hsave as [-> ->]. split_and!; [done|..].
    + unfold Disk.loadJson. by rewrite lookup_insert_eq.
    + rewrite lookup_insert_ne by done. by rewrite lookup_delete_eq.
    + intros q Hq Hq'. rewrite lookup_insert_ne by done. by rewrite lookup_delete_ne.
  - apply saveJsonAtomic_Rejected in Hsave as [Hf Hrest]. split_and!; [done| |done].
    unfold Disk.loadJson. by rewrite Hrest.
Qed.

Section OnDisk.
Context {World : Type} (svc : Service World).
Context (localeCompare : string -> string -> Z) (cfg : Config).

(** What the two final writes leave, when both went through. *)
Lemma final_writes_on_disk (faults : list Disk.fault) (classJson libJson : value)
    (d0 d' : gmap string value) :
  classPath cfg ≠ libPath cfg →
  classPath cfg ≠ Disk.tmp (libPath cfg) →
  libPath cfg ≠ Disk.tmp (classPath cfg) →
  Disk.replay faults [Saved (classPath cfg) classJson; Saved (libPath cfg) libJson] d0
  = Disk.Fulfilled d' →
  Disk.loadJson d' (classPath cfg) = Ok classJson
  ∧ Disk.loadJson d' (libPath cfg) = Ok libJson
  ∧ d' !! Disk.tmp (classPath cfg) = None
  ∧ d' !! Disk.tmp (libPath cfg) = None.
Proof.
  intros Hcl Hct Hlt. simpl.
  destruct (Disk.saveJsonAtomic _ (classPath cfg) classJson d0) as [d1|d1] eqn:H1; [|done].
  destruct (Disk.saveJsonAtomic _ (libPath cfg) libJson d1) as [d2|d2] eqn:H2; [|done].
  intros [= <-].
  apply saveJsonAtomic_Fulfilled in H1 as [_ ->].
  apply saveJsonAtomic_Fulfilled in H2 as [_ ->].
  pose proof (tmp_ne (classPath cfg)) as Hc. pose proof (tmp_ne (libPath cfg)) as Hl.
  unfold Disk.loadJson. split_and!.
  - rewrite lookup_insert_ne by done. rewrite lookup_delete_ne by done.
    by rewrite lookup_insert_eq.
  - by rewrite lookup_insert_eq.
  - rewrite lookup_insert_ne by done.
    destruct (decide (Disk.tmp (libPath cfg) = Disk.tmp (classPath cfg))) as [->|Hne].
    + by rewrite lookup_delete_eq.
    + rewrite lookup_delete_ne by done. rewrite lookup_insert_ne by done.
      by rewrite lookup_delete_eq.
  - rewrite lookup_insert_ne by done. by rewrite lookup_delete_eq.
Qed.

Lemma done_run_files (classFile libFile : file) (w : World) (st : State World)
    (faults : list Disk.fault) (d d' : gmap string value) :
  DRY_RUN cfg = false →
  classPath cfg ≠ libPath cfg →
  classPath cfg ≠ Disk.tmp (libPath cfg) →
  libPath cfg ≠ Disk.tmp (classPath cfg) →
  main svc localeCompare cfg classFile libFile w = Done st →
  Disk.replay faults (trace (env st)) d = Disk.Fulfilled d' →
  Disk.loadJson d' (classPath cfg) = Ok (json_of_classDoc (classDoc st))
  ∧ Disk.loadJson d' (libPath cfg) = Ok (json_of_library (lib st))
  ∧ d' !! Disk.tmp (classPath cfg) = None
  ∧ d' !! Disk.tmp (libPath cfg) = None.
Proof.
  intros Hlive Hcl Hct Hlt Hmain.
  apply main_Done_inv in Hmain as (cj & doc & l & deck & env1 & stL & _ & _ & _ & _ & _ & _ & ->).
  rewrite finish_trace, Hlive, replay_app.
  destruct (Disk.replay faults (trace (env stL)) d) as [d0|d0]; [|done].
  by apply final_writes_on_disk.
Qed.

(** X13. The files a finished run leaves.  When the run is not a DRY_RUN
    and ends normally, and its writes, carried out in order on any disk,
    all went through, the class file holds the final class document and the
    library file the final, sorted library, with no temporary file left, as
    long as the two paths differ and neither is the other's temporary path.
    The writes do all go through when the file system rejects none. *)
Theorem finished_run_leaves_both_files (classFile libFile : file) (w : World)
    (st : State World) (d : gmap string value) :
  DRY_RUN cfg = false →
  classPath cfg ≠ libPath cfg →
  classPath cfg ≠ Disk.tmp (libPath cfg) →
  libPath cfg ≠ Disk.tmp (classPath cfg) →
  main svc localeCompare cfg classFile libFile w = Done st →
  (∃ d', Disk.replay [] (trace (env st)) d = Disk.Fulfilled d')
  ∧ ∀ faults d', Disk.replay faults (trace (env st)) d = Disk.Fulfilled d' →
      Disk.loadJson d' (classPath cfg) = Ok (json_of_classDoc (classDoc st))
      ∧ Disk.loadJson d' (libPath cfg) = Ok (json_of_library (lib st))
      ∧ d' !! Disk.tmp (classPath cfg) = None
      ∧ d' !! Disk.tmp (libPath cfg) = None.
Proof.
  intros Hlive Hcl Hct Hlt Hmain. split.
  - apply replay_no_fault.
  - intros faults d' Hd'.
    apply main_Done_inv in Hmain
      as (cj & doc & l & deck & env1 & stL & _ & _ & _ & _ & _ & _ & ->).
    revert Hd'. rewrite finish_trace, Hlive, replay_app.
    destruct (Disk.replay faults (trace (env stL)) d) as [d0|d0]; [|done].
    by apply final_writes_on_disk.
Qed.

Lemma insert_same_assignment (l : list Entry) (j : nat) (le e : Entry) :
  l !! j = Some le → assignment e = assignment le →
  assignment <$> <[j := e]> l = assignment <$> l.
Proof.
  intros Hj He. rewrite list_fmap_insert, He.
  apply list_insert_id. by rewrite list_lookup_fmap, Hj.
Qed.

Lemma step_progress_on_disk (faults : list Disk.fault) (d : gmap string value)
    (deckId : string) (i : nat) (st : State World) :
  DRY_RUN cfg = false →
  (∀ d', Disk.replay faults (trace (env st)) d = Disk.Fulfilled d' →
         progress_on_disk cfg d d' st) →
  ∀ d', Disk.replay faults (trace (env (outcome_state (step svc cfg deckId i st)))) d
        = Disk.Fulfilled d' →
        progress_on_disk cfg d d' (outcome_state (step svc cfg deckId i st)).
Proof.
  intros Hlive Hst d'.
  destruct (step_has_shape svc cfg deckId i st)
    as [Hend|entry j le Hi Hl|entry j le Hi Hl|entry err env' Hi Hh Hc|entry cardId env' Hi Hh Hc];
    cbn [outcome_state]; try apply Hst.
  - (* cache hit: nothing is written *)
    apply lookup_lib_Some in Hl as [_ Hj]. simpl. intros Hd'.
    destruct (Hst d' Hd') as [?|(Hpos & l' & Hl' & Hids)]; [by left|right].
    split; [done|]. exists l'. split; [done|]. simpl.
    by rewrite (insert_same_assignment _ _ le).
  - (* the request failed: nothing is written *)
    apply createVocabCard_trace in Hc as [Htr _]. rewrite Hlive in Htr.
    simpl. rewrite Htr, replay_app.
    destruct (Disk.replay faults (trace (env st)) d) as [d0|d0] eqn:Hd0; [|done].
    simpl. intros [= <-]. by apply Hst.
  - (* a card was created: both files are written *)
    apply createVocabCard_trace in Hc as [Htr _]. rewrite Hlive in Htr.
    set (st' := register_card cfg i entry (lookup_lib st (chunk entry)) cardId env' st).
    assert (Htr' : trace (env st') =
              trace (env st) ++ [POST_cards (card_body cfg deckId entry)] ++
                [Saved (classPath cfg) (json_of_classDoc (classDoc st'));
                 Saved (libPath cfg) (json_of_library (lib st'))]).
    { unfold st', register_card.
      destruct (lookup_lib st (chunk entry)) as [[j le]|];
        rewrite persist_trace, persist_classDoc, persist_lib, Hlive; simpl;
        by rewrite Htr, <- app_assoc. }
    assert (Hcr : created st' = S (created st)).
    { unfold st', register_card.
      by destruct (lookup_lib st (chunk entry)) as [[j le]|]; rewrite persist_created. }
    rewrite Htr', replay_app.
    destruct (Disk.replay faults (trace (env st)) d) as [d0|d0]; [|done].
    simpl.
    destruct (Disk.saveJsonAtomic _ (classPath cfg) _ d0) as [d1|d1]; [|done].
    destruct (Disk.saveJsonAtomic _ (libPath cfg) _ d1) as [d2|d2] eqn:H2; [|done].
    intros [= <-]. apply saveJsonAtomic_Fulfilled in H2 as [_ ->].
    right. split; [lia|]. exists (lib st'). split; [|done].
    unfold Disk.loadJson. by rewrite lookup_insert_eq.
Qed.

Lemma for_each_progress_on_disk (faults : list Disk.fault) (d : gmap string value)
    (deckId : string) (todo : list nat) (st : State World) :
  DRY_RUN cfg = false →
  (∀ d', Disk.replay faults (trace (env st)) d = Disk.Fulfilled d' →
         progress_on_disk cfg d d' st) →
  ∀ d', Disk.replay faults
          (trace (env (outcome_state (for_each svc cfg deckId todo st)))) d
        = Disk.Fulfilled d' →
        progress_on_disk cfg d d' (outcome_state (for_each svc cfg deckId todo st)).
Proof.
  intros Hlive. revert st. induction todo as [|i todo IH]; intros st Hst; simpl; [done|].
  pose proof (step_progress_on_disk faults d deckId i st Hlive Hst) as Hs.
  destruct (step svc cfg deckId i st) as [st'|e st']; simpl in *; [by apply IH|done].
Qed.

(** X15. No created card is forgotten by a run that stops on an id conflict
    or on a request that Mochi refused.  When such a run is not a DRY_RUN
    and its writes, carried out in order on any disk, all went through, then
    either no card was created and the disk is as it was, or the library
    file on disk lists the same chunks with the same ids, in the same order,
    as the library in memory when the run stopped.  (A run that stops
    because a write is rejected is not such a run: the card created last may
    then be missing from the library file.) *)
Theorem failed_run_keeps_created_ids (classFile libFile : file) (w : World)
    (e : error) (st : State World) (faults : list Disk.fault) (d d' : gmap string value) :
  DRY_RUN cfg = false →
  main svc localeCompare cfg classFile libFile w = Failed e st →
  Disk.replay faults (trace (env st)) d = Disk.Fulfilled d' →
  progress_on_disk cfg d d' st.
Proof.
  intros Hlive Hmain.
  assert (Hm : main svc localeCompare cfg classFile libFile w = Done st
               ∨ ∃ e, main svc localeCompare cfg classFile libFile w = Failed e st)
    by (right; by exists e).
  apply main_loop_inv in Hm
    as (classJson & doc & l & deck & env1 & _ & _ & _ & _ & Hres & Hrec).
  apply resolve_deck_trace in Hres as (extra & Htr & Hextra).
  assert (H0 : ∀ d0, Disk.replay faults (trace (env (initial doc l env1))) d = Disk.Fulfilled d0 →
                     progress_on_disk cfg d d0 (initial doc l env1)).
  { intros d0. simpl. rewrite Htr. simpl. rewrite replay_no_save.
    - intros [= <-]. by left.
    - destruct Hextra as [->|(_ & parent & ->)]; [constructor|by repeat constructor]. }
  pose proof (for_each_progress_on_disk faults d (deck_id deck)
                (seq 0 (length (doc_entries doc))) _ Hlive H0) as Hfin.
  unfold reconcile in Hrec. simpl in Hrec.
  destruct (for_each _ _ _ _ _) as [stL|e' stT]; simpl in *.
  - destruct Hrec as [_ Hdone]. congruence.
  - destruct Hrec as [-> _]. apply Hfin.
Qed.

Lemma find_named (name : string) (ds : list Deck) :
  (∃ dk, dk ∈ ds ∧ deck_name dk = name) →
  ∃ dk', List.find (fun d => bool_decide (deck_name d = name)) ds = Some dk'.
Proof.
  intros (dk & Hin & Hname). induction Hin as [dk ds|dk d0 ds Hin IH]; simpl.
  - rewrite bool_decide_eq_true_2 by done. by eexists.
  - destruct (bool_decide (deck_name d0 = name)); [by eexists|by apply IH].
Qed.

(** X23. Where the second run is idle.  Take a run that is not a DRY_RUN,
    reads its two files from a disk, ends normally, and whose writes all
    went through; let Mochi never answer with a blank card id, let no class
    chunk differ from a library chunk only by surrounding white space, and
    let Mochi still list a deck of the class.  Then the second run, from the
    files the first one left and in the world it left, ends normally, sends
    nothing but the one [GET /decks], creates no card, skips every entry, and
    leaves the class document and the library's chunk-to-id assignment as
    they were; it writes both files once more. *)
Theorem rerun_from_files_is_idle (d d1 : gmap string value) (w w2 : World)
    (classJson : value) (doc : ClassDoc) (l : Library) (st1 : State World)
    (faults : list Disk.fault) (ds : list Deck) :
  DRY_RUN cfg = false →
  classPath cfg ≠ libPath cfg →
  classPath cfg ≠ Disk.tmp (libPath cfg) →
  libPath cfg ≠ Disk.tmp (classPath cfg) →
  answers_with_ids svc →
  Disk.loadJson d (classPath cfg) = Ok classJson →
  classDoc_of_json classJson = Some doc →
  library_of_json (load_library (Disk.loadJson d (libPath cfg))) = Some l →
  no_whitespace_variants doc l →
  main svc localeCompare cfg
    (Disk.loadJson d (classPath cfg)) (Disk.loadJson d (libPath cfg)) w = Done st1 →
  Disk.replay faults (trace (env st1)) d = Disk.Fulfilled d1 →
  get_decks svc (world (env st1)) = (Ok ds, w2) →
  (∃ dk, dk ∈ ds ∧ deck_name dk = String.append (doc_class (classDoc st1)) "_V") →
  ∃ st2,
    main svc localeCompare cfg
      (Disk.loadJson d1 (classPath cfg)) (Disk.loadJson d1 (libPath cfg))
      (world (env st1)) = Done st2
    ∧ created st2 = 0
    ∧ skippedExisting st2 = chunk <$> doc_entries (classDoc st1)
    ∧ classDoc st2 = classDoc st1
    ∧ assignment <$> lib_entries (lib st2) ≡ₚ assignment <$> lib_entries (lib st1)
    ∧ trace (env st2) =
        [GET_decks;
         Saved (classPath cfg) (json_of_classDoc (classDoc st2));
         Saved (libPath cfg) (json_of_library (lib st2))].
Proof.
  intros Hlive Hcl Hct Hlt Hsvc Hfile Hdoc Hl Hws Hmain Hreplay Hdecks Hdeck.
  destruct (done_run_files _ _ _ _ _ _ _ Hlive Hcl Hct Hlt Hmain Hreplay)
    as (Hclass1 & Hlib1 & _ & _).
  rewrite Hclass1, Hlib1.
  assert (Hclean : (∀ u, u ∈ doc_entries (classDoc st1) → trim (id u) ≠ "")
                   ∧ NoDup ((fun e => trim (chunk e)) <$> lib_entries (lib st1))).
  { rewrite Hfile in Hmain.
    by apply (first_run_leaves_clean_documents svc localeCompare cfg classJson
                (Disk.loadJson d (libPath cfg)) w doc l st1). }
  destruct Hclean as [Hids Hnd].
  pose proof (rerun_on_documents svc localeCompare cfg _ _ w (world (env st1)) st1
                Hmain Hids Hnd) as Hrerun.
  cbv zeta in Hrerun.
  destruct (find_named _ _ Hdeck) as [dk' Hfind].
  assert (Hres : resolve_deck svc cfg (String.append (doc_class (classDoc st1)) "_V")
                   (mkEnv (world (env st1)) [])
                 = (Ok dk', log GET_decks w2 (mkEnv (world (env st1)) []))).
  { unfold resolve_deck, findDeckByName, listDecks. simpl. by rewrite Hdecks, Hfind. }
  rewrite Hres in Hrerun.
  destruct Hrerun as (st2 & Hrun & Hcr & Hskip & Hsame & Hasg & _ & Htrace).
  exists st2. split_and!; [done..|].
  by rewrite Htrace, Hlive.
Qed.

End OnDisk.

(** C2. The claim is what the code sets out to do, and the code misses it
    where a class chunk differs from a library chunk only by surrounding
    white space.  The class file spells "casa" with a leading space and the
    library file knows "casa" by the id "Y1".  The first run looks " casa" up
    as it is written, finds nothing, creates the card "A" and writes a library
    with the chunks " casa" and "casa".  The second run, from the files the
    first one left and in the world it left, loads that library through
    [validateLibrary], which compares chunks after trimming and throws on the
    duplicate "casa"; [main] falls back to the empty library, creates a second
    card "B" for the same entry, changes the entry's id from "A" to "B", and
    writes a library that no longer knows "casa" by "Y1". *)
Theorem rerun_after_trimmed_duplicate_creates_again :
  run_twice_on_disk counter_service codeunit_compare live_config space_disk no_decks
  = (Some (1, ["A"], [(" casa", "A"); ("casa", "Y1")]),
     Some (1, ["B"], [(" casa", "B")]))
  ∧ bind (Disk.loadJson
            (disk_after_run counter_service codeunit_compare live_config space_disk no_decks)
            "chunk_library.json")
         validateLibrary
    = Err (DuplicateChunk "casa").
Proof.
  split.
  - vm_compute. reflexivity.
  - vm_compute. reflexivity.
Qed.


(** ** The environment and the command line *)

Lemma mustEnv_inr (env : gmap string string) (name v : string) :
  mustEnv env name = inr v ↔ env !! name = Some v ∧ v ≠ "".
Proof.
  unfold mustEnv. destruct (env !! name) as [v'|]; [|naive_solver].
  destruct v' as [|c s]; simpl; naive_solver.
Qed.

Lemma mustEnv_inl (env : gmap string string) (name : string) (e : startup_error) :
  mustEnv env name = inl e ↔ e = MissingEnvVar name ∧ ¬ is_set env name.
Proof.
  unfold mustEnv, is_set. destruct (env !! name) as [v'|]; [|naive_solver].
  destruct v' as [|c s]; simpl; naive_solver.
Qed.

Lemma env_or_nonempty (env : gmap string string) (name fallback : string) :
  fallback ≠ "" → env_or env name fallback ≠ "".
Proof.
  intros Hf. unfold env_or. destruct (env !! name) as [[|c s]|]; done.
Qed.

(** X14. Start-up.  The script gets as far as reading files exactly when
    the four required variables are set to non-empty values and a non-empty
    argument is given.  Otherwise it stops with the first required variable,
    in the order of the file, that is missing or empty, and with the usage
    message only when all four are set.  The configuration it then runs
    with has non-empty template, term and meaning ids, is a DRY_RUN exactly
    when DRY_RUN is the text "1", and reads the argument as the class
    file. *)
Theorem startup_checks (resolve : string → string) (env : gmap string string)
    (classFileArg : option string) :
  ((∃ cfg, load_config resolve env classFileArg = inr cfg) ↔
     Forall (is_set env) required_vars ∧ ∃ a, classFileArg = Some a ∧ a ≠ "")
  ∧ (∀ name, load_config resolve env classFileArg = inl (MissingEnvVar name) →
       ∃ before after, required_vars = before ++ name :: after
         ∧ Forall (is_set env) before ∧ ¬ is_set env name)
  ∧ (load_config resolve env classFileArg = inl Usage →
       Forall (is_set env) required_vars)
  ∧ (∀ cfg, load_config resolve env classFileArg = inr cfg →
       VOCAB_TEMPLATE_ID cfg ≠ "" ∧ VOCAB_FIELD_TERM_ID cfg ≠ ""
       ∧ VOCAB_FIELD_MEANING_ID cfg ≠ ""
       ∧ (DRY_RUN cfg = true ↔ env !! "DRY_RUN" = Some "1")
       ∧ ∃ a, classFileArg = Some a ∧ classPath cfg = resolve a).
Proof.
  unfold load_config, required_vars.
  destruct (mustEnv env "MOCHI_API_KEY") as [e1|v1] eqn:H1.
  { apply mustEnv_inl in H1 as [-> H1]. split_and!.
    - split; [by intros [? ?]|]. intros [Hall _]. by inversion Hall.
    - intros name [= <-]. by exists [], ["VOCAB_TEMPLATE_ID"; "VOCAB_FIELD_TERM_ID"; "VOCAB_FIELD_MEANING_ID"].
    - done.
    - done. }
  apply mustEnv_inr in H1 as [H1 H1'].
  assert (S1 : is_set env "MOCHI_API_KEY") by by exists v1.
  destruct (mustEnv env "VOCAB_TEMPLATE_ID") as [e2|v2] eqn:H2.
  { apply mustEnv_inl in H2 as [-> H2]. split_and!.
    - split; [by intros [? ?]|]. intros [Hall _].
      inversion Hall as [|? ? _ Hall']. by inversion Hall'.
    - intros name [= <-].
      exists ["MOCHI_API_KEY"], ["VOCAB_FIELD_TERM_ID"; "VOCAB_FIELD_MEANING_ID"].
      split_and!; [done|by repeat constructor|done].
    - done.
    - done. }
  apply mustEnv_inr in H2 as [H2 H2'].
  assert (S2 : is_set env "VOCAB_TEMPLATE_ID") by by exists v2.
  destruct (mustEnv env "VOCAB_FIELD_TERM_ID") as [e3|v3] eqn:H3.
  { apply mustEnv_inl in H3 as [-> H3]. split_and!.
    - split; [by intros [? ?]|]. intros [Hall _].
      inversion Hall as [|? ? _ Hall']. inversion Hall' as [|? ? _ Hall'']. by inversion Hall''.
    - intros name [= <-].
      exists ["MOCHI_API_KEY"; "VOCAB_TEMPLATE_ID"], ["VOCAB_FIELD_MEANING_ID"].
      split_and!; [done|by repeat constructor|done].
    - done.
    - done. }
  apply mustEnv_inr in H3 as [H3 H3'].
  assert (S3 : is_set env "VOCAB_FIELD_TERM_ID") by by exists v3.
  destruct (mustEnv env "VOCAB_FIELD_MEANING_ID") as [e4|v4] eqn:H4.
  { apply mustEnv_inl in H4 as [-> H4]. split_and!.
    - split; [by intros [? ?]|]. intros [Hall _].
      inversion Hall as [|? ? _ Hall']. inversion Hall' as [|? ? _ Hall''].
      inversion Hall'' as [|? ? _ Hall3]. by inversion Hall3.
    - intros name [= <-].
      exists ["MOCHI_API_KEY"; "VOCAB_TEMPLATE_ID"; "VOCAB_FIELD_TERM_ID"], [].
      split_and!; [done|by repeat constructor|done].
    - done.
    - done. }
  apply mustEnv_inr in H4 as [H4 H4'].
  assert (S4 : is_set env "VOCAB_FIELD_MEANING_ID") by by exists v4.
  assert (Hall : Forall (is_set env)
            ["MOCHI_API_KEY"; "VOCAB_TEMPLATE_ID"; "VOCAB_FIELD_TERM_ID"; "VOCAB_FIELD_MEANING_ID"])
    by by repeat constructor.
  destruct classFileArg as [[|c a]|]; simpl.
  - split_and!; [|done|done|done]. split; [by intros [? ?]|]. by intros [_ (a & [= <-] & ?)].
  - split_and!; [|done|done|].
    + split; [|by eexists]. intros _. split; [done|]. by eexists.
    + intros cfg [= <-]. simpl. split_and!; [done|done|done| |by eexists].
      by rewrite bool_decide_eq_true.
  - split_and!; [|done|done|done]. split; [by intros [? ?]|]. by intros [_ (a & [=] & ?)].
Qed.

(** ** More on validation *)

Lemma validateClassEntries_first (k : nat) (seen : gset string) (es : list value)
    (err : error) (i : nat) :
  validateClassEntries k seen es = Err err →
  entry_index err = Some i →
  (k ≤ i)%nat ∧ ∃ e, es !! (i - k) = Some e
    ∧ validateClassEntries k seen (take (i - k) es) = Ok tt
    ∧ ∀ seen', validateClassEntries i seen' [e] = Err err.
Proof.
  revert k seen. induction es as [|e es IH]; intros k seen; [done|].
  assert (Hhere : ∀ err', entry_index err' = Some k →
            (∀ seen', validateClassEntries k seen' [e] = Err err') →
            @Err unit err' = Err err → entry_index err = Some i →
            (k ≤ i)%nat ∧ ∃ e0, (e :: es) !! (i - k) = Some e0
              ∧ validateClassEntries k seen (take (i - k) (e :: es)) = Ok tt
              ∧ ∀ seen', validateClassEntries i seen' [e0] = Err err).
  { intros err' Hk Hone [= <-] Hi. rewrite Hk in Hi. injection Hi as <-.
    split; [done|]. rewrite Nat.sub_diag. by exists e. }
  simpl.
  destruct e as [| | | | |props]; simpl; try by apply (Hhere (ChunkInvalid k)).
  { by intros [= <-]. }
  destruct (nonempty_string (assoc "chunk" props)) eqn:Hc; simpl.
  2:{ apply (Hhere (ChunkInvalid k)); [done|]. intros seen'. simpl. by rewrite Hc. }
  destruct (is_string (assoc "id" props)) eqn:Hd; simpl.
  2:{ apply (Hhere (IdNotString k)); [done|]. intros seen'. simpl. by rewrite Hc, Hd. }
  destruct (is_array (assoc "variants" props)) eqn:Hv; simpl.
  2:{ apply (Hhere (VariantsNotArray k)); [done|]. intros seen'. simpl.
      by rewrite Hc, Hd, Hv. }
  destruct (absent_or_string (assoc "obs" props)) eqn:Ho; simpl.
  2:{ apply (Hhere (ObsNotString k)); [done|]. intros seen'. simpl.
      by rewrite Hc, Hd, Hv, Ho. }
  destruct (absent_or_string (assoc "meaning" props)) eqn:Hm; simpl.
  2:{ apply (Hhere (MeaningNotString k)); [done|]. intros seen'. simpl.
      by rewrite Hc, Hd, Hv, Ho, Hm. }
  case_bool_decide as Hseen; [by intros [= <-]|].
  intros Hrest Hi. destruct (IH _ _ Hrest Hi) as (Hle & e0 & He0 & Hpre & Hone).
  split; [lia|]. exists e0.
  replace (i - k) with (S (i - S k)) by lia. split_and!; [done| |done].
  simpl. rewrite Hc, Hd, Hv, Ho, Hm. simpl. by rewrite bool_decide_eq_false_2.
Qed.

(** X17. The index in a validation error is that of the first offending
    entry: when [validateClassDoc] rejects a document with an error about
    entry [i], the document has an entry [i], the entries before it pass the
    checks as a list of their own, and entry [i] on its own is rejected with
    this error whatever chunks came before. *)
Theorem validation_names_first_offender (doc : value) (err : error) (i : nat) :
  validateClassDoc doc = Err err →
  entry_index err = Some i →
  ∃ es e, get doc "entries" = Ok (Some (Arr es))
    ∧ es !! i = Some e
    ∧ validateClassEntries 0 ∅ (take i es) = Ok tt
    ∧ ∀ seen, validateClassEntries i seen [e] = Err err.
Proof.
  unfold validateClassDoc.
  destruct doc as [|b|n|s|items|props]; simpl; try by intros [= <-].
  - destruct b; by intros [= <-].
  - destruct (negb _); by intros [= <-].
  - destruct (truthy_str s); by intros [= <-].
  - destruct (nonempty_string (assoc "class" props)); simpl; [|by intros [= <-]].
    destruct (assoc "entries" props) as [[| | | |es|]|]; try by intros [= <-].
    intros Hes Hi.
    destruct (validateClassEntries_first 0 ∅ es err i Hes Hi) as (_ & e & He & Hpre & Hone).
    rewrite Nat.sub_0_r in He, Hpre. by exists es, e.
Qed.

Lemma unit_is_entry (es : list value) :
  forallb unit_wellformed es = true → forallb entry_wellformed es = true.
Proof.
  induction es as [|e es IH]; [done|]. simpl. rewrite !andb_true_iff.
  intros [He Hes]. split; [|by apply IH].
  destruct e; try done. unfold unit_wellformed in He.
  by apply andb_true_iff in He as [[He _]%andb_true_iff _].
Qed.

(** X18. The class check is the stricter one: a document that
    [validateClassDoc] accepts is returned as it is by [validateLibrary],
    which looks at chunk, id and variants only. *)
Theorem class_check_implies_library_check (doc : value) :
  validateClassDoc doc = Ok tt → validateLibrary doc = Ok doc.
Proof.
  rewrite validateClassDoc_ok. intros Hwf.
  destruct (validateLibrary_cases doc) as [[_ Hok]|[Hno _]]; [done|exfalso].
  unfold classDoc_wellformed, registry_wellformed in *.
  destruct doc as [| | | | |props]; try done.
  apply andb_true_iff in Hwf as [_ Hwf].
  destruct (assoc "entries" props) as [[| | | |es|]|]; try done.
  apply andb_true_iff in Hwf as [Hall Hnd].
  by rewrite (unit_is_entry _ Hall), Hnd in Hno.
Qed.

(** * The sentence script: properties *)

Lemma append_cons (a : ascii) (s t : string) :
  String.append (String a s) t = String a (String.append s t).
Proof. reflexivity. Qed.

Lemma is_brace_false (c : ascii) :
  Ascii.eqb c "{" = false → Ascii.eqb c "}" = false → Sentences.is_brace c = false.
Proof. intros H1 H2. unfold Sentences.is_brace. by rewrite H1, H2. Qed.

Lemma escapeBraces_cons (c : ascii) (s : string) :
  Sentences.escapeBraces (String c s) =
  if Sentences.is_brace c then String "\" (String c (Sentences.escapeBraces s))
  else String c (Sentences.escapeBraces s).
Proof.
  unfold Sentences.escapeBraces, Sentences.is_brace. simpl.
  destruct (Ascii.eqb c "{") eqn:Ho.
  - apply Ascii.eqb_eq in Ho as ->. reflexivity.
  - simpl. destruct (Ascii.eqb c "}") eqn:Hc; [|done].
    apply Ascii.eqb_eq in Hc as ->. reflexivity.
Qed.

Lemma escapeBraces_escaped (b : bool) (s : string) :
  Sentences.braces_escaped b (Sentences.escapeBraces s) = true.
Proof.
  revert b. induction s as [|c s IH]; intros b; [done|].
  rewrite escapeBraces_cons. destruct (Sentences.is_brace c) eqn:Hc.
  - cbn [Sentences.braces_escaped]. rewrite IH.
    replace (Sentences.is_brace "\") with false by reflexivity.
    replace (Ascii.eqb "\" "\") with true by reflexivity.
    simpl. by rewrite orb_true_r.
  - cbn [Sentences.braces_escaped]. by rewrite Hc, IH.
Qed.

(** X19. [escapeBraces] works character by character: a brace becomes a
    backslash followed by that brace, and every other character stays as it
    is and where it is, so that the two [replaceAll] passes act as one and
    the second never touches what the first put in.  Hence in its result
    every brace comes right after a backslash, a text without braces is
    returned as it is, and the result is the text with one more character
    per brace. *)
Theorem escapeBraces_escapes_every_brace (text : string) :
  Sentences.escapeBraces "" = ""
  ∧ (∀ c s, Sentences.escapeBraces (String c s) =
            if Sentences.is_brace c
            then String "\" (String c (Sentences.escapeBraces s))
            else String c (Sentences.escapeBraces s))
  ∧ Sentences.braces_escaped false (Sentences.escapeBraces text) = true
  ∧ (Sentences.no_brace text = true → Sentences.escapeBraces text = text)
  ∧ String.length (Sentences.escapeBraces text) =
    String.length text
    + length (filter (fun c => Sentences.is_brace c = true) (list_ascii_of_string text)).
Proof.
  split_and!.
  - reflexivity.
  - apply escapeBraces_cons.
  - apply escapeBraces_escaped.
  - induction text as [|c s IH]; [done|]. simpl.
    rewrite andb_true_iff, negb_true_iff. intros [Hc Hs].
    rewrite escapeBraces_cons, Hc. by rewrite IH.
  - induction text as [|c s IH]; [done|].
    rewrite escapeBraces_cons. cbn [list_ascii_of_string]. rewrite filter_cons.
    destruct (Sentences.is_brace c) eqn:Hc.
    + rewrite decide_True by done. simpl. rewrite IH. lia.
    + rewrite decide_False by done. simpl. by rewrite IH.
Qed.

Section SentenceRun.
Context {World : Type} (svc : Service World) (cfg : Sentences.Config).

Lemma createSentenceCard_trace (deckId en hints pt : string) (env0 env' : Env World)
    (r : result string) :
  Sentences.createSentenceCard svc cfg deckId en hints pt env0 = (r, env') →
  trace env' =
  trace env0 ++ (if Sentences.DRY_RUN cfg then []
                 else [POST_cards (Sentences.card_body cfg deckId en hints pt)])
  ∧ (Sentences.DRY_RUN cfg = true → ∃ cardId, r = Ok cardId).
Proof.
  unfold Sentences.createSentenceCard. destruct (Sentences.DRY_RUN cfg).
  - intros [= <- <-]. rewrite app_nil_r. eauto.
  - destruct (post_card svc _ _) as [r' w']. intros [= <- <-]. done.
Qed.

Lemma sentence_for_each_Done (deckId : string) (todo : list Sentences.Sentence)
    (created n : nat) (env0 env' : Env World) :
  Sentences.for_each svc cfg deckId todo created env0 = (None, n, env') →
  n = created + length todo
  ∧ Forall Sentences.wellformed todo
  ∧ trace env' =
    trace env0 ++
      (if Sentences.DRY_RUN cfg then []
       else (fun s => POST_cards (Sentences.sentence_body cfg deckId s)) <$> todo).
Proof.
  revert created env0. induction todo as [|s rest IH]; intros created env0; simpl.
  - intros [= <- <-]. split_and!; [lia|constructor|]. by destruct (Sentences.DRY_RUN cfg); rewrite app_nil_r.
  - destruct (truthy_str (Sentences.en s)) eqn:He; simpl; [|done].
    destruct (truthy_str (Sentences.pt s)) eqn:Hp; simpl; [|done].
    case_bool_decide as Hh; simpl; [|done].
    destruct (Sentences.renderHints (Sentences.hints s)) as [e|text] eqn:Hr; [done|].
    destruct (Sentences.createSentenceCard svc cfg deckId _ _ _ env0) as [[cardId|e] env1] eqn:Hc;
      [|done].
    intros Hrest. apply IH in Hrest as (-> & Hwf & Htr).
    apply createSentenceCard_trace in Hc as [Hc _].
    apply truthy_str_true in He, Hp.
    split_and!; [lia|by constructor|].
    rewrite Htr, Hc. unfold Sentences.sentence_body. rewrite Hr.
    destruct (Sentences.DRY_RUN cfg); simpl; by rewrite <- app_assoc.
Qed.

Lemma map_lines_InvalidHint (hs : list Sentences.Hint) (e : Sentences.failure) :
  Sentences.map_lines hs = inl e →
  e = Sentences.InvalidHint
  ∧ ∃ h, h ∈ hs ∧ (Sentences.hint_chunk h = "" ∨ Sentences.hint_id h = "").
Proof.
  induction hs as [|h rest IH]; simpl; [done|].
  unfold Sentences.hint_line.
  destruct (truthy_str (Sentences.hint_chunk h)) eqn:Hc; simpl.
  2:{ intros [= <-]. split; [done|]. exists h. split; [apply list_elem_of_here|].
      left. by apply truthy_str_false. }
  destruct (truthy_str (Sentences.hint_id h)) eqn:Hi; simpl.
  2:{ intros [= <-]. split; [done|]. exists h. split; [apply list_elem_of_here|].
      right. by apply truthy_str_false. }
  destruct (Sentences.map_lines rest) as [e'|lines]; [|done].
  intros [= <-]. destruct (IH eq_refl) as (-> & h' & Hin & Hbad).
  split; [done|]. exists h'. split; [by apply list_elem_of_further|done].
Qed.

Lemma sentence_for_each_Failed (deckId : string) (todo : list Sentences.Sentence)
    (created n : nat) (env0 env' : Env World) (e : Sentences.failure) :
  Sentences.for_each svc cfg deckId todo created env0 = (Some e, n, env') →
  (created ≤ n)%nat
  ∧ Forall Sentences.wellformed (take (n - created) todo)
  ∧ (∃ s, todo !! (n - created) = Some s
       ∧ match e with
         | Sentences.InvalidSentence => ¬ Sentences.wellformed s
         | Sentences.InvalidHint =>
             ∃ hs h, Sentences.hints s = Some hs ∧ h ∈ hs
               ∧ (Sentences.hint_chunk h = "" ∨ Sentences.hint_id h = "")
         | Sentences.Api _ => Sentences.wellformed s ∧ Sentences.DRY_RUN cfg = false
         | _ => False
         end)
  ∧ trace env' =
    trace env0 ++
      (if Sentences.DRY_RUN cfg then []
       else ((fun s => POST_cards (Sentences.sentence_body cfg deckId s))
               <$> take (n - created + match e with Sentences.Api _ => 1 | _ => 0 end) todo)).
Proof.
  revert created env0. induction todo as [|s rest IH]; intros created env0; simpl; [done|].
  destruct (truthy_str (Sentences.en s)) eqn:He; simpl.
  2:{ intros [= <- <- <-]. rewrite Nat.sub_diag. simpl.
      split_and!; [lia|constructor| |by destruct (Sentences.DRY_RUN cfg); rewrite app_nil_r].
      exists s. split; [done|]. apply truthy_str_false in He. by intros [? _]. }
  destruct (truthy_str (Sentences.pt s)) eqn:Hp; simpl.
  2:{ intros [= <- <- <-]. rewrite Nat.sub_diag. simpl.
      split_and!; [lia|constructor| |by destruct (Sentences.DRY_RUN cfg); rewrite app_nil_r].
      exists s. split; [done|]. apply truthy_str_false in Hp. by intros (_ & ? & _). }
  case_bool_decide as Hh; simpl.
  2:{ intros [= <- <- <-]. rewrite Nat.sub_diag. simpl.
      split_and!; [lia|constructor| |by destruct (Sentences.DRY_RUN cfg); rewrite app_nil_r].
      exists s. split; [done|]. by intros (_ & _ & ?). }
  apply truthy_str_true in He, Hp.
  assert (Hwf : Sentences.wellformed s) by done.
  destruct (Sentences.renderHints (Sentences.hints s)) as [e0|text] eqn:Hr.
  { intros [= <- <- <-]. rewrite Nat.sub_diag. simpl.
    unfold Sentences.renderHints in Hr.
    destruct (Sentences.map_lines (default [] (Sentences.hints s))) as [e1|lines] eqn:Hm;
      [|done].
    injection Hr as <-. apply map_lines_InvalidHint in Hm as (-> & h & Hin & Hbad).
    split_and!; [lia|constructor| |by destruct (Sentences.DRY_RUN cfg); rewrite app_nil_r].
    exists s. split; [done|]. destruct Hh as [hs Hhs]. rewrite Hhs in Hin.
    by exists hs, h. }
  destruct (Sentences.createSentenceCard svc cfg deckId _ _ _ env0) as [[cardId|e1] env1] eqn:Hc.
  - intros Hrest. apply createSentenceCard_trace in Hc as [Hc _].
    apply IH in Hrest as (Hle & Hpre & (s' & Hs' & Hwhy) & Htr).
    replace (n - created) with (S (n - S created)) by lia.
    split_and!; [lia|by constructor|by exists s'|].
    rewrite Htr, Hc.
    destruct (Sentences.DRY_RUN cfg); simpl; rewrite <- app_assoc; [done|].
    simpl. do 3 f_equal. unfold Sentences.sentence_body. by rewrite Hr.
  - intros [= <- <- <-]. rewrite Nat.sub_diag. simpl.
    apply createSentenceCard_trace in Hc as [Hc Hdry].
    assert (Hlive : Sentences.DRY_RUN cfg = false).
    { destruct (Sentences.DRY_RUN cfg); [|done]. by destruct (Hdry eq_refl). }
    rewrite Hlive in *. split_and!; [lia|constructor|by exists s|].
    rewrite Hc. unfold Sentences.sentence_body. by rewrite Hr.
Qed.

Lemma sentence_deck_trace (name : string) (env0 : Env World) :
  let found :=
    match findDeckByName svc name env0 with
    | (Ok (Some deck), env') => (Ok deck, env')
    | (Ok None, env') =>
        Sentences.createDeck svc cfg name (Sentences.MASTER_SENTENCE_DECK_ID cfg) env'
    | (Err e, env') => (Err e, env')
    end in
  ∃ extra, trace found.2 = trace env0 ++ GET_decks :: extra
    ∧ Forall (fun ev => is_creation ev = false ∧ is_save ev = false) extra.
Proof.
  unfold findDeckByName, listDecks, Sentences.createDeck.
  destruct (get_decks svc (world env0)) as [[ds|e] w1]; simpl.
  - destruct (List.find _ ds); simpl.
    + exists []. split; [done|constructor].
    + destruct (Sentences.DRY_RUN cfg); simpl.
      * exists []. split; [done|constructor].
      * destruct (post_deck svc _ _ _) as [r' w2]. simpl.
        eexists. rewrite <- app_assoc. split; [done|]. by repeat constructor.
  - exists []. split; [done|constructor].
Qed.

(** X20. The sentence script has no memory.  A run that ends normally has
    found every sentence complete and has counted one card per sentence;
    unless DRY_RUN is set it has sent, after looking for the deck, exactly
    one [POST /cards] per sentence, in file order, with a body that depends
    on the sentence, the deck and the configuration only; and it has written
    no file.  Nothing of an earlier run is looked at: a second run posts
    every sentence again. *)
Theorem sentence_run_posts_every_sentence (file : option Sentences.SentencesDoc)
    (w : World) (n : nat) (env' : Env World) :
  Sentences.main svc cfg file w = Sentences.Done n env' →
  ∃ doc todo deckId,
    file = Some doc ∧ Sentences.sentences doc = Some todo
    ∧ n = length todo
    ∧ Forall Sentences.wellformed todo
    ∧ filter (fun ev => is_creation ev = true) (trace env') =
      (if Sentences.DRY_RUN cfg then []
       else (fun s => POST_cards (Sentences.sentence_body cfg deckId s)) <$> todo)
    ∧ count is_save (trace env') = 0.
Proof.
  unfold Sentences.main. destruct file as [doc|]; [|done].
  destruct (truthy_str (Sentences.sent_class doc)); [|done].
  destruct (Sentences.sentences doc) as [todo|] eqn:Htodo; [|done].
  cbv zeta.
  pose proof (sentence_deck_trace (String.append (Sentences.sent_class doc) "_S")
                (mkEnv w [])) as (extra & Htr0 & Hextra).
  cbv zeta in Htr0.
  destruct (match findDeckByName svc _ _ with
            | (Ok (Some deck), env') => (Ok deck, env')
            | (Ok None, env') => _
            | (Err e, env') => (Err e, env')
            end) as [[deck|e] env1]; [|done].
  simpl in Htr0.
  destruct (Sentences.for_each svc cfg (deck_id deck) todo 0 env1) as [[[e|] n'] env2] eqn:Hloop;
    [done|].
  intros [= <- <-].
  apply sentence_for_each_Done in Hloop as (-> & Hwf & Htr).
  exists doc, todo, (deck_id deck). split_and!; [done..| |].
  - rewrite Htr, Htr0, !filter_app, filter_cons_False by done.
    assert (filter (fun ev => is_creation ev = true) extra = []) as ->.
    { clear -Hextra. induction Hextra as [|ev extra [Hev _] _ IH]; [done|].
      rewrite filter_cons_False by (by rewrite Hev). done. }
    simpl. destruct (Sentences.DRY_RUN cfg); [done|].
    clear. induction todo as [|s todo IH]; [done|].
    rewrite fmap_cons, filter_cons_True by done. by rewrite IH.
  - unfold count. rewrite Htr, Htr0, !filter_app, filter_cons_False by done.
    assert (filter (fun ev => is_save ev = true) extra = []) as ->.
    { clear -Hextra. induction Hextra as [|ev extra [_ Hev] _ IH]; [done|].
      rewrite filter_cons_False by (by rewrite Hev). done. }
    simpl. destruct (Sentences.DRY_RUN cfg); [done|].
    clear. induction todo as [|s todo IH]; [done|].
    rewrite fmap_cons, filter_cons_False by done. by rewrite IH.
Qed.

(** X21. The sentences are checked one at a time, as the loop reaches them.
    When the run fails in the loop with the counter at [n], the first [n]
    sentences are complete and, unless DRY_RUN is set, their cards have been
    posted; sentence [n] is the one at fault: it lacks en, pt or hints, or
    one of its hints lacks chunk or id, or Mochi refused its card, which was
    then posted as well. *)
Theorem sentence_failure_comes_late (file : option Sentences.SentencesDoc)
    (w : World) (e : Sentences.failure) (n : nat) (env' : Env World) :
  Sentences.main svc cfg file w = Sentences.Failed e n env' →
  ∃ doc todo deckId s,
    file = Some doc ∧ Sentences.sentences doc = Some todo
    ∧ Forall Sentences.wellformed (take n todo)
    ∧ todo !! n = Some s
    ∧ match e with
      | Sentences.InvalidSentence => ¬ Sentences.wellformed s
      | Sentences.InvalidHint =>
          ∃ hs h, Sentences.hints s = Some hs ∧ h ∈ hs
            ∧ (Sentences.hint_chunk h = "" ∨ Sentences.hint_id h = "")
      | Sentences.Api _ => Sentences.wellformed s ∧ Sentences.DRY_RUN cfg = false
      | _ => False
      end
    ∧ filter (fun ev => is_creation ev = true) (trace env') =
      (if Sentences.DRY_RUN cfg then []
       else (fun s => POST_cards (Sentences.sentence_body cfg deckId s))
              <$> take (n + match e with Sentences.Api _ => 1 | _ => 0 end) todo).
Proof.
  unfold Sentences.main. destruct file as [doc|]; [|done].
  destruct (truthy_str (Sentences.sent_class doc)); [|done].
  destruct (Sentences.sentences doc) as [todo|] eqn:Htodo; [|done].
  cbv zeta.
  pose proof (sentence_deck_trace (String.append (Sentences.sent_class doc) "_S")
                (mkEnv w [])) as (extra & Htr0 & Hextra).
  cbv zeta in Htr0.
  destruct (match findDeckByName svc _ _ with
            | (Ok (Some deck), env') => (Ok deck, env')
            | (Ok None, env') => _
            | (Err e, env') => (Err e, env')
            end) as [[deck|e0] env1]; [|done].
  simpl in Htr0.
  destruct (Sentences.for_each svc cfg (deck_id deck) todo 0 env1) as [[[e1|] n'] env2] eqn:Hloop;
    [|done].
  intros [= <- <- <-].
  apply sentence_for_each_Failed in Hloop as (_ & Hpre & (s & Hs & Hwhy) & Htr).
  rewrite Nat.sub_0_r in *.
  exists doc, todo, (deck_id deck), s. split_and!; [done..|].
  rewrite Htr, Htr0, !filter_app, filter_cons_False by done.
  assert (filter (fun ev => is_creation ev = true) extra = []) as ->.
  { clear -Hextra. induction Hextra as [|ev extra [Hev _] _ IH]; [done|].
    rewrite filter_cons_False by (by rewrite Hev). done. }
  simpl. destruct (Sentences.DRY_RUN cfg); [done|].
  generalize (take (n' + match e1 with Sentences.Api _ => 1 | _ => 0 end) todo).
  clear. intros l. induction l as [|s l IH]; [done|].
  rewrite fmap_cons, filter_cons_True by done. by rewrite IH.
Qed.

End SentenceRun.

(** X22. The two scripts read DRY_RUN differently.  With the same
    environment, whenever the vocabulary script runs dry so does the
    sentence script, but DRY_RUN=true makes only the sentence script run
    dry: the vocabulary script then creates cards and writes files. *)
Theorem dry_run_is_read_differently (resolve : string → string)
    (env : gmap string string) (classFileArg : option string)
    (cfg : Config) (scfg : Sentences.Config) :
  load_config resolve env classFileArg = inr cfg →
  Sentences.load_config env = inr scfg →
  (DRY_RUN cfg = true → Sentences.DRY_RUN scfg = true)
  ∧ (Sentences.DRY_RUN scfg = true ∧ DRY_RUN cfg = false ↔ env !! "DRY_RUN" = Some "true").
Proof.
  unfold load_config, Sentences.load_config.
  destruct (mustEnv env "MOCHI_API_KEY"); [done|].
  destruct (mustEnv env "VOCAB_TEMPLATE_ID"); [done|].
  destruct (mustEnv env "VOCAB_FIELD_TERM_ID"); [done|].
  destruct (mustEnv env "VOCAB_FIELD_MEANING_ID"); [done|].
  destruct (mustEnv env "SENT_TEMPLATE_ID"); [by destruct classFileArg as [[|? ?]|]|].
  destruct (mustEnv env "SENT_FIELD_EN_ID"); [by destruct classFileArg as [[|? ?]|]|].
  destruct (mustEnv env "SENT_FIELD_HINTS_ID"); [by destruct classFileArg as [[|? ?]|]|].
  destruct (mustEnv env "SENT_FIELD_PT_ID"); [by destruct classFileArg as [[|? ?]|]|].
  destruct classFileArg as [[|c a]|]; simpl; [done| |done].
  intros [= <-] [= <-]. simpl.
  rewrite orb_true_iff, !bool_decide_eq_true, bool_decide_eq_false.
  split; [tauto|]. split.
  - intros [[H1|H2] Hn]; [done|done].
  - intros H. rewrite H. split; [by right|done].
Qed.

(** * The properties of the rest of the script on the scenarios *)

(** Scenario A: the run gives "casa" an id and changes nothing else. *)
Lemma class_document_changes_only_ids_witness :
  doc_class (classDoc scenario_A_done) = "001"
  ∧ erase_id <$> doc_entries (classDoc scenario_A_done) = [unit_of "casa" "" ["casa"]].
Proof.
  apply (class_document_changes_only_ids counter_service codeunit_compare live_config
           (json_of_classDoc (mkClassDoc "001" [unit_of "casa" "" ["casa"]]))
           (Err LoadError) no_decks
           (mkClassDoc "001" [unit_of "casa" "" ["casa"]]) scenario_A_done).
  - vm_compute. reflexivity.
  - left. vm_compute. reflexivity.
Defined.

(** Scenario B: "casa" is still in the library, with its variant. *)
Lemma library_only_grows_witness :
  ∃ e', e' ∈ lib_entries (lib scenario_hit_done)
    ∧ chunk e' = "casa"
    ∧ ∀ v, v ∈ ["casa"] → v ≠ "" → v ∈ variants e'.
Proof.
  apply (library_only_grows counter_service codeunit_compare live_config
           (class_001 [mkEntry "casa" "" ["casas"] (Some "home") None])
           (library_v1 [casa_Y1]) no_decks
           (mkLibrary (Some (Num 1)) [casa_Y1]) scenario_hit_done casa_Y1).
  - vm_compute. reflexivity.
  - left. vm_compute. reflexivity.
  - apply list_elem_of_here.
Defined.

(** Scenario A: one entry, one card, four writes. *)
Lemma run_accounts_for_every_entry_witness :
  created scenario_A_done + length (skippedExisting scenario_A_done) = 1
  ∧ count is_creation (trace (env scenario_A_done)) = 1
  ∧ count is_save (trace (env scenario_A_done)) = 4.
Proof.
  destruct (run_accounts_for_every_entry counter_service codeunit_compare live_config
              (class_001 [unit_of "casa" "" ["casa"]]) (Err LoadError) no_decks
              scenario_A_done) as (Hsum & _ & Hlive).
  - vm_compute. reflexivity.
  - destruct (Hlive eq_refl) as [Hposts Hsaves].
    rewrite Hsum, Hposts, Hsaves. split_and!; reflexivity.
Defined.

(** The library knows "mesa" by the blank id " ", which is no conflict and
    no cache hit; Mochi refuses the card of "mesa", and the run throws after
    the one card of "casa". *)
Lemma provisioning_failure_aborts_witness :
  ∃ st, reconcile (quota_service 1) live_config "D1" scenario_blank_id_start
        = Throw (ApiError "quota") st
    ∧ created st = 1
    ∧ assignment <$> lib_entries (lib st) = [("mesa", " "); ("casa", "A")].
Proof.
  destruct (provisioning_failure_aborts (quota_service 1) live_config "D1"
              scenario_blank_id_start
              (outcome_state
                 (for_each (quota_service 1) live_config "D1" (seq 0 1)
                    scenario_blank_id_start))
              1 (unit_of "mesa" "" ["mesa"]) (ApiError "quota")
              (createVocabCard (quota_service 1) live_config "D1" (unit_of "mesa" "" ["mesa"])
                 (env (outcome_state
                         (for_each (quota_service 1) live_config "D1" (seq 0 1)
                            scenario_blank_id_start)))).2)
    as (Hrun & _ & _).
  - vm_compute. reflexivity.
  - vm_compute. reflexivity.
  - vm_compute. reflexivity.
  - vm_compute. reflexivity.
  - vm_compute. reflexivity.
  - eexists. split; [exact Hrun|]. split; vm_compute; reflexivity.
Defined.

(** Scenario A under DRY_RUN. *)
Lemma dry_run_only_lists_decks_witness :
  trace (outcome_env (main counter_service codeunit_compare dry_config
                        (class_001 [unit_of "casa" "" ["casa"]]) (Err LoadError) no_decks))
    = []
  ∨ trace (outcome_env (main counter_service codeunit_compare dry_config
                          (class_001 [unit_of "casa" "" ["casa"]]) (Err LoadError) no_decks))
    = [GET_decks].
Proof.
  apply (dry_run_only_lists_decks counter_service codeunit_compare dry_config).
  reflexivity.
Defined.

(** Scenario A: the library knows "casa" by the id the class entry got. *)
Lemma class_and_library_agree_witness :
  ∃ e, e ∈ lib_entries (lib scenario_A_done) ∧ chunk e = "casa" ∧ id e = "A".
Proof.
  apply (class_and_library_agree counter_service codeunit_compare live_config
           (class_001 [unit_of "casa" "" ["casa"]]) (Err LoadError) no_decks
           scenario_A_done (unit_of "casa" "A" ["casa"])).
  - vm_compute. reflexivity.
  - replace (doc_entries (classDoc scenario_A_done)) with [unit_of "casa" "A" ["casa"]]
      by (vm_compute; reflexivity).
    apply list_elem_of_here.
Defined.

(** A hit on "casa", a card for the "sol" the library holds without an id,
    and a new entry for "mesa": three entries, three chunks. *)
Lemma library_chunks_stay_distinct_witness :
  chunk <$> lib_entries (lib scenario_three_done) = ["casa"; "mesa"; "sol"]
  ∧ skippedExisting scenario_three_done = ["casa"]
  ∧ created scenario_three_done = 2
  ∧ NoDup (chunk <$> lib_entries (lib scenario_three_done)).
Proof.
  split_and!; [vm_compute; reflexivity..|].
  apply (library_chunks_stay_distinct counter_service codeunit_compare live_config
           (class_001 casa_sol_mesa) (library_v1 [casa_Y1; unit_of "sol" "" []])
           no_decks scenario_three_done).
  left. vm_compute. reflexivity.
Defined.

(** Scenario A: the class document it leaves is valid. *)
Lemma written_documents_on_reload_witness :
  validateClassDoc (json_of_classDoc (classDoc scenario_A_done)) = Ok tt.
Proof.
  destruct (written_documents_on_reload counter_service codeunit_compare live_config
              (class_001 [unit_of "casa" "" ["casa"]]) (Err LoadError) no_decks
              scenario_A_done) as [Hclass _].
  - vm_compute. reflexivity.
  - exact Hclass.
Defined.

(** Of two decks named "001_V" the first one listed is used. *)
Lemma deck_is_reused_or_created_witness :
  resolve_deck counter_service live_config "001_V" three_decks
  = (Ok (mkDeck "D1" "001_V"), log GET_decks (world three_decks) three_decks).
Proof.
  destruct (deck_is_reused_or_created counter_service live_config "001_V" three_decks
              (decks (world three_decks)) (world three_decks)) as [Hfound _].
  - reflexivity.
  - apply (Hfound [mkDeck "D0" "000_V"] (mkDeck "D1" "001_V") [mkDeck "D2" "001_V"]).
    + reflexivity.
    + reflexivity.
    + repeat constructor. discriminate.
Defined.

(** The made-up id of a chunk with blanks in it. *)
Lemma dry_run_card_id_witness :
  ∃ cardId,
    createVocabCard counter_service dry_config "D1" (unit_of "bom  dia" "" []) deck_created
    = (Ok cardId, deck_created)
    ∧ no_white_space cardId = true
    ∧ trim cardId = cardId
    ∧ cardId ≠ "".
Proof.
  apply (dry_run_card_id counter_service dry_config "D1" (unit_of "bom  dia" "" [])
           deck_created).
  reflexivity.
Defined.

(** Scenario A on an empty disk. *)
Lemma finished_run_leaves_both_files_witness :
  ∃ d', Disk.replay [] (trace (env scenario_A_done)) ∅ = Disk.Fulfilled d'
    ∧ Disk.loadJson d' "chunks_000.json" = Ok (json_of_classDoc (classDoc scenario_A_done))
    ∧ Disk.loadJson d' "chunk_library.json" = Ok (json_of_library (lib scenario_A_done))
    ∧ d' !! Disk.tmp "chunks_000.json" = None
    ∧ d' !! Disk.tmp "chunk_library.json" = None.
Proof.
  destruct (finished_run_leaves_both_files counter_service codeunit_compare live_config
              (class_001 [unit_of "casa" "" ["casa"]]) (Err LoadError) no_decks
              scenario_A_done ∅) as [[d' Hd'] Hfiles].
  - reflexivity.
  - vm_compute. discriminate.
  - vm_compute. discriminate.
  - vm_compute. discriminate.
  - vm_compute. reflexivity.
  - exists d'. split; [exact Hd'|]. exact (Hfiles [] d' Hd').
Defined.

(** Scenario A again, with the rename of the library file rejected: the card
    is in Mochi and its id in the class file, but there is no library file.
    The run ends at that write. *)
Example rejected_write_loses_the_id :
  count is_creation (trace (env scenario_A_done)) = 1
  ∧ ∃ d', Disk.replay [Disk.NoFault; Disk.RenameRejects] (trace (env scenario_A_done)) ∅
          = Disk.Rejected d'
      ∧ Disk.loadJson d' "chunks_000.json"
        = Ok (json_of_classDoc (mkClassDoc "001" [unit_of "casa" "A" ["casa"]]))
      ∧ Disk.loadJson d' "chunk_library.json" = Err LoadError.
Proof.
  split; [vm_compute; reflexivity|].
  exists (Disk.after (Disk.replay [Disk.NoFault; Disk.RenameRejects]
                        (trace (env scenario_A_done)) ∅)).
  split_and!; vm_compute; reflexivity.
Qed.

(** The run that Mochi stopped at "mesa": the id of "casa" is on disk. *)
Lemma failed_run_keeps_created_ids_witness :
  ∃ l', Disk.loadJson (Disk.after (Disk.replay [] (trace (env scenario_quota_failed)) ∅))
          "chunk_library.json" = Ok (json_of_library l')
    ∧ assignment <$> lib_entries l' = [("casa", "A")].
Proof.
  destruct (failed_run_keeps_created_ids (quota_service 1) codeunit_compare live_config
              (class_001 casa_mesa) (Err LoadError) no_decks (ApiError "quota")
              scenario_quota_failed [] ∅
              (Disk.after (Disk.replay [] (trace (env scenario_quota_failed)) ∅)))
    as [[Hnone _]|(_ & l' & Hfile & Hids)].
  - reflexivity.
  - vm_compute. reflexivity.
  - vm_compute. reflexivity.
  - vm_compute in Hnone. discriminate.
  - exists l'. split; [exact Hfile|]. rewrite Hids. vm_compute. reflexivity.
Defined.

(** Scenario A from a disk, with a Mochi whose ids are never blank, and
    then again from the files it left. *)
Lemma rerun_from_files_is_idle_witness :
  ∃ st2,
    main lettered_service codeunit_compare live_config
      (Disk.loadJson (disk_after_run lettered_service codeunit_compare live_config
                        casa_disk no_decks) "chunks_000.json")
      (Disk.loadJson (disk_after_run lettered_service codeunit_compare live_config
                        casa_disk no_decks) "chunk_library.json")
      (world (env casa_disk_done)) = Done st2
    ∧ created st2 = 0
    ∧ classDoc st2 = classDoc casa_disk_done
    ∧ trace (env st2) =
        [GET_decks;
         Saved "chunks_000.json" (json_of_classDoc (classDoc st2));
         Saved "chunk_library.json" (json_of_library (lib st2))].
Proof.
  destruct (rerun_from_files_is_idle lettered_service codeunit_compare live_config
              casa_disk
              (disk_after_run lettered_service codeunit_compare live_config casa_disk no_decks)
              no_decks (world (env casa_disk_done))
              (json_of_classDoc (mkClassDoc "001" [unit_of "casa" "" ["casa"]]))
              (mkClassDoc "001" [unit_of "casa" "" ["casa"]])
              (mkLibrary (Some (Num 1)) [])
              casa_disk_done [] [mkDeck "D1" "001_V"])
    as (st2 & Hrun & Hcr & _ & Hdoc & _ & Htrace).
  - reflexivity.
  - vm_compute. discriminate.
  - vm_compute. discriminate.
  - vm_compute. discriminate.
  - intros body w0 cardId w' [= <- _]. by apply trim_nonspace.
  - vm_compute. reflexivity.
  - vm_compute. reflexivity.
  - vm_compute. reflexivity.
  - intros u e _ He. by apply elem_of_nil in He.
  - vm_compute. reflexivity.
  - vm_compute. reflexivity.
  - vm_compute. reflexivity.
  - exists (mkDeck "D1" "001_V"). split; [apply list_elem_of_here|]. vm_compute. reflexivity.
  - exists st2. split_and!; [exact Hrun|exact Hcr|exact Hdoc|exact Htrace].
Defined.

(** A card with a meaning and an obs. *)
Lemma card_body_fields_witness :
  fields (card_body obs_config "D1" (mkEntry "casa" "" [] (Some "house") (Some " noun ")))
    !! "term" = Some "casa".
Proof.
  destruct (card_body_fields obs_config "D1"
              (mkEntry "casa" "" [] (Some "house") (Some " noun ")))
    as (_ & _ & Hterm & _).
  - vm_compute. discriminate.
  - vm_compute. discriminate.
  - vm_compute. discriminate.
  - exact Hterm.
Defined.

(** The error names entry 1, and entry 0 passes. *)
Lemma validation_names_first_offender_witness :
  ∃ es e, get second_entry_without_id "entries" = Ok (Some (Arr es))
    ∧ es !! 1 = Some e
    ∧ validateClassEntries 0 ∅ (take 1 es) = Ok tt
    ∧ ∀ seen, validateClassEntries 1 seen [e] = Err (IdNotString 1).
Proof.
  apply (validation_names_first_offender second_entry_without_id (IdNotString 1) 1).
  - vm_compute. reflexivity.
  - reflexivity.
Defined.

(** The class document of Scenario A, read as a library. *)
Lemma class_check_implies_library_check_witness :
  validateLibrary (json_of_classDoc (mkClassDoc "001" [unit_of "casa" "" ["casa"]]))
  = Ok (json_of_classDoc (mkClassDoc "001" [unit_of "casa" "" ["casa"]])).
Proof.
  apply class_check_implies_library_check. vm_compute. reflexivity.
Defined.

(** One complete sentence: one card, no file. *)
Lemma sentence_run_posts_every_sentence_witness :
  count is_save
    (trace (Sentences.outcome_env
              (Sentences.main counter_service sentence_config (Some sentences_002) no_decks)))
  = 0.
Proof.
  destruct (sentence_run_posts_every_sentence counter_service sentence_config
              (Some sentences_002) no_decks 1
              (Sentences.outcome_env
                 (Sentences.main counter_service sentence_config (Some sentences_002)
                    no_decks)))
    as (doc & todo & deckId & _ & _ & _ & _ & _ & Hsave).
  - vm_compute. reflexivity.
  - exact Hsave.
Defined.

(** The second sentence has no translation: the run fails there, after the
    card of the first. *)
Lemma sentence_failure_comes_late_witness :
  ∃ todo s, Sentences.sentences sentences_001 = Some todo
    ∧ todo !! 1 = Some s ∧ ¬ Sentences.wellformed s.
Proof.
  destruct (sentence_failure_comes_late counter_service sentence_config
              (Some sentences_001) no_decks Sentences.InvalidSentence 1
              (Sentences.outcome_env
                 (Sentences.main counter_service sentence_config (Some sentences_001)
                    no_decks)))
    as (doc & todo & deckId & s & Hdoc & Htodo & _ & Hs & Hwhy & _).
  - vm_compute. reflexivity.
  - injection Hdoc as <-. by exists todo, s.
Defined.

(** DRY_RUN=true. *)
Lemma dry_run_is_read_differently_witness :
  Sentences.DRY_RUN (Sentences.mkConfig "st" "en" "hints" "pt" "" true) = true
  ∧ DRY_RUN (mkConfig "vt" "term" "meaning" "" "" false "c.json" "chunk_library.json") = false.
Proof.
  destruct (dry_run_is_read_differently (fun p => p) (vocab_and_sentence_env "true")
              (Some "c.json")
              (mkConfig "vt" "term" "meaning" "" "" false "c.json" "chunk_library.json")
              (Sentences.mkConfig "st" "en" "hints" "pt" "" true)) as [_ Hiff].
  - vm_compute. reflexivity.
  - vm_compute. reflexivity.
  - apply Hiff. vm_compute. reflexivity.
Defined.
